(** * anime-renamer: season/episode extraction, pairing, rename planning,
      preflight validation and the two-phase rename executor.

    A shallow embedding of [anime-renamer.go] (the variant with
    [executeRenameOperationsWith]) and the properties of its specification.

    Conventions.  Go strings are byte strings: [string] (a list of [ascii],
    one per byte).  Go's [int] is taken to be 64 bits wide and is modelled by
    [Z] with the wrap-around written out ([wrap64]).  Path functions follow
    [path/filepath] for the slash separator. *)

From Stdlib Require Import ZArith Ascii String List Lia Bool.
From stdpp Require Import gmap strings list fin_maps pretty.

Local Open Scope string_scope.
Local Open Scope list_scope.

(* ===================================================================== *)
(** ** Bytes and strings *)
(* ===================================================================== *)

Abbreviation bytes := (list ascii).

Definition str (l : bytes) : string := string_of_list_ascii l.
Definition unstr (s : string) : bytes := list_ascii_of_string s.

Definition byte_code (c : ascii) : N := N_of_ascii c.

(** [\d] of RE2 syntax: the ASCII digits. *)
Definition isDigit (c : ascii) : bool :=
  (48 <=? byte_code c)%N && (byte_code c <=? 57)%N.

(** [\s] of RE2 syntax: tab, newline, form feed, carriage return, space. *)
Definition isSpace (c : ascii) : bool :=
  let n := byte_code c in
  (n =? 9)%N || (n =? 10)%N || (n =? 12)%N || (n =? 13)%N || (n =? 32)%N.

(* ===================================================================== *)
(** ** Machine integers *)
(* ===================================================================== *)

Definition min_int : Z := (- 2 ^ 63)%Z.
Definition max_int : Z := (2 ^ 63 - 1)%Z.

(** Two's complement wrap-around of a 64-bit signed [int]. *)
Definition wrap64 (z : Z) : Z := ((z + 2 ^ 63) mod 2 ^ 64 - 2 ^ 63)%Z.

(* ===================================================================== *)
(** ** strconv.Atoi *)
(* ===================================================================== *)

Definition digit_val (c : ascii) : option Z :=
  if isDigit c then Some (Z.of_N (byte_code c) - 48)%Z else None.

Fixpoint parse_digits (acc : Z) (s : bytes) : option Z :=
  match s with
  | [] => Some acc
  | c :: s' =>
      match digit_val c with
      | Some d => parse_digits (acc * 10 + d)%Z s'
      | None => None
      end
  end.

(** The optional sign in front of the digits. *)
Definition sign_split (l : bytes) : bool * bytes :=
  match l with
  | "-"%char :: t => (true, t)
  | "+"%char :: t => (false, t)
  | _ => (false, l)
  end.

(** [Atoi s] is [Some n] when [strconv.Atoi] returns [n] with a nil error,
    and [None] when it returns an error (syntax or range). *)
Definition Atoi (s : string) : option Z :=
  let '(neg, ds) := sign_split (unstr s) in
  match ds with
  | [] => None
  | _ =>
      match parse_digits 0 ds with
      | None => None
      | Some v =>
          let n := if neg then (- v)%Z else v in
          if (min_int <=? n)%Z && (n <=? max_int)%Z then Some n else None
      end
  end.

(* ===================================================================== *)
(** ** Regular expressions (the fragment of RE2 syntax the program uses)

    Go's [regexp] returns the leftmost match and, among those, the one a
    backtracking search finds first.  [run] is that backtracking search in
    continuation-passing style; [search] tries the start offsets from left
    to right. *)
(* ===================================================================== *)

Inductive regex : Type :=
| Byte (b : ascii)              (* a literal byte *)
| Digit                         (* \d *)
| Space                         (* \s *)
| Empty                         (* the empty expression *)
| Cat (a b : regex)             (* ab *)
| Alt (a b : regex)             (* a|b, preferring a *)
| Star (a : regex)              (* a*, greedy *)
| Group (i : nat) (a : regex)   (* capturing group number i *)
| EndText.                      (* $ without the m flag *)

(** Capture registers: the most recent binding of a group comes first. *)
Abbreviation caps := (list (nat * bytes)).

Section Matcher.
Context {R : Type}.

Abbreviation cont := (bytes -> caps -> option R).

(** Greedy iteration: take one more [step] when it consumes input and the
    rest then succeeds, else leave the loop. *)
Fixpoint star_loop (step : bytes -> caps -> cont -> option R) (k : cont)
    (n : nat) (s : bytes) (c : caps) {struct n} : option R :=
  match n with
  | O => k s c
  | S n' =>
      match step s c (fun s' c' =>
               if (length s' <? length s)%nat
               then star_loop step k n' s' c' else None) with
      | Some x => Some x
      | None => k s c
      end
  end.

Fixpoint run (r : regex) (s : bytes) (c : caps) (k : cont) {struct r}
    : option R :=
  match r with
  | Byte b =>
      match s with
      | x :: s' => if Ascii.eqb x b then k s' c else None
      | [] => None
      end
  | Digit =>
      match s with
      | x :: s' => if isDigit x then k s' c else None
      | [] => None
      end
  | Space =>
      match s with
      | x :: s' => if isSpace x then k s' c else None
      | [] => None
      end
  | Empty => k s c
  | Cat a b => run a s c (fun s' c' => run b s' c' k)
  | Alt a b =>
      match run a s c k with
      | Some x => Some x
      | None => run b s c k
      end
  | Star a => star_loop (run a) k (length s) s c
  | Group i a =>
      run a s c (fun s' c' => k s' ((i, take (length s - length s') s) :: c'))
  | EndText =>
      match s with
      | [] => k s c
      | _ :: _ => None
      end
  end.
End Matcher.

(** A match: the subject from the start of the match, the rest after the
    match, and the capture registers. *)
Definition found : Type := bytes * bytes * caps.

Definition match_here (r : regex) (s : bytes) : option found :=
  run r s [] (fun s' c => Some (s, s', c)).

Fixpoint search (r : regex) (s : bytes) : option found :=
  match match_here r s with
  | Some m => Some m
  | None =>
      match s with
      | [] => None
      | _ :: t => search r t
      end
  end.

Fixpoint capture (i : nat) (c : caps) : bytes :=
  match c with
  | [] => []
  | (j, v) :: c' => if Nat.eqb i j then v else capture i c'
  end.

(** Number of capturing groups (groups are numbered from 1). *)
Fixpoint NumSubexp (r : regex) : nat :=
  match r with
  | Cat a b | Alt a b => Nat.max (NumSubexp a) (NumSubexp b)
  | Star a => NumSubexp a
  | Group i a => Nat.max i (NumSubexp a)
  | _ => O
  end.

(** [regexp.FindStringSubmatch]: nil when nothing matches, else the text of
    the match followed by the text of each group. *)
Definition FindStringSubmatch (r : regex) (s : string) : list string :=
  match search r (unstr s) with
  | None => []
  | Some (from, rest, c) =>
      str (take (length from - length rest) from)
        :: map (fun i => str (capture i c)) (seq 1 (NumSubexp r))
  end.

(** *** Building blocks *)

Definition Plus (a : regex) : regex := Cat a (Star a).
Definition Opt (a : regex) : regex := Alt a Empty.

(** [(?i)S]: simple case folding puts S, s and U+017F (two bytes in UTF-8)
    in one orbit. *)
Definition long_s_1 : ascii := ascii_of_N 197.
Definition long_s_2 : ascii := ascii_of_N 191.
Definition FoldS : regex :=
  Alt (Byte "S"%char) (Alt (Byte "s"%char) (Cat (Byte long_s_1) (Byte long_s_2))).

(** [(?i)E]: the orbit of E is E, e. *)
Definition FoldE : regex := Alt (Byte "E"%char) (Byte "e"%char).

Definition Digits : regex := Plus Digit.

(* ===================================================================== *)
(** ** episodePatterns *)
(* ===================================================================== *)

Record episodePattern : Type := {
  regex_of : regex;
  seasonIndex : nat;
  episodeIndex : nat
}.

(** [(?i)S(\d+)\s*-\s*(\d+)] *)
Definition re_season_dash : regex :=
  Cat FoldS (Cat (Group 1 Digits) (Cat (Star Space) (Cat (Byte "-"%char)
    (Cat (Star Space) (Group 2 Digits))))).

(** [(?i)S(\d+)(?:\s|E)(\d+)] *)
Definition re_season_episode : regex :=
  Cat FoldS (Cat (Group 1 Digits) (Cat (Alt Space FoldE) (Group 2 Digits))).

(** [(?i)E(\d+)] *)
Definition re_episode : regex := Cat FoldE (Group 1 Digits).

(** [\s-\s\(?(\d+)\)?] *)
Definition re_dash : regex :=
  Cat Space (Cat (Byte "-"%char) (Cat Space (Cat (Opt (Byte "("%char))
    (Cat (Group 1 Digits) (Opt (Byte ")"%char)))))).

(** [\s(\d{2,3})(?:\s|$)] *)
Definition re_bare : regex :=
  Cat Space (Cat (Group 1 (Cat Digit (Cat Digit (Opt Digit))))
    (Alt Space EndText)).

Definition episodePatterns : list episodePattern :=
  [ {| regex_of := re_season_dash; seasonIndex := 1; episodeIndex := 2 |};
    {| regex_of := re_season_episode; seasonIndex := 1; episodeIndex := 2 |};
    {| regex_of := re_episode; seasonIndex := 0; episodeIndex := 1 |};
    {| regex_of := re_dash; seasonIndex := 0; episodeIndex := 1 |};
    {| regex_of := re_bare; seasonIndex := 0; episodeIndex := 1 |} ].

(* ===================================================================== *)
(** ** filepath.Ext and strings.TrimSuffix *)
(* ===================================================================== *)

(** Scan from the last byte towards the first, stopping at a separator;
    [acc] is the part already passed. *)
Fixpoint ext_scan (r : bytes) (acc : bytes) : bytes :=
  match r with
  | [] => []
  | c :: r' =>
      if Ascii.eqb c "/"%char then []
      else if Ascii.eqb c "."%char then c :: acc
      else ext_scan r' (c :: acc)
  end.

Definition Ext_bytes (path : bytes) : bytes := ext_scan (rev path) [].
Definition filepath_Ext (path : string) : string := str (Ext_bytes (unstr path)).

Fixpoint bytes_eqb (a b : bytes) : bool :=
  match a, b with
  | [], [] => true
  | x :: a', y :: b' => Ascii.eqb x y && bytes_eqb a' b'
  | _, _ => false
  end.

Definition HasSuffix_bytes (s suffix : bytes) : bool :=
  (length suffix <=? length s)%nat
  && bytes_eqb (drop (length s - length suffix) s) suffix.

Definition TrimSuffix_bytes (s suffix : bytes) : bytes :=
  if HasSuffix_bytes s suffix then take (length s - length suffix) s else s.

Definition strings_TrimSuffix (s suffix : string) : string :=
  str (TrimSuffix_bytes (unstr s) (unstr suffix)).

(* ===================================================================== *)
(** ** extractSeasonAndEpisode *)
(* ===================================================================== *)

(** [match_[i]], for an index within the slice. *)
Definition submatch (match_ : list string) (i : nat) : string :=
  nth i match_ EmptyString.

(** The body of [for _, pattern := range episodePatterns], with the
    patterns still to visit as argument. *)
Fixpoint extract_from (patterns : list episodePattern)
    (filenameWithoutExtension : string) : Z * Z :=
  match patterns with
  | [] => (1, 0)%Z
  | pattern :: rest =>
      let match_ := FindStringSubmatch (regex_of pattern) filenameWithoutExtension in
      if (length match_ <=? episodeIndex pattern)%nat
      then extract_from rest filenameWithoutExtension
      else
        match Atoi (submatch match_ (episodeIndex pattern)) with
        | None => extract_from rest filenameWithoutExtension
        | Some episode =>
            if (episode =? 0)%Z
            then extract_from rest filenameWithoutExtension
            else
              let season :=
                if (0 <? seasonIndex pattern)%nat then
                  match Atoi (submatch match_ (seasonIndex pattern)) with
                  | Some parsedSeason =>
                      if (parsedSeason >? 0)%Z then parsedSeason else 1%Z
                  | None => 1%Z
                  end
                else 1%Z in
              (season, episode)
        end
  end.

Definition extractSeasonAndEpisode (filename : string) : Z * Z :=
  let filenameWithoutExtension :=
    strings_TrimSuffix filename (filepath_Ext filename) in
  extract_from episodePatterns filenameWithoutExtension.


(* ===================================================================== *)
(** ** Data model *)
(* ===================================================================== *)

Record FileInfo : Type := {
  Path : string;
  Season : Z;
  Episode : Z;
  Extension : string
}.

Record FilePair : Type := {
  Video : FileInfo;
  Subtitle : FileInfo
}.

Record RenameOperation : Type := {
  OldPath : string;
  NewPath : string
}.

#[global] Instance FileInfo_eq_dec : EqDecision FileInfo.
Proof. solve_decision. Defined.

#[global] Instance RenameOperation_eq_dec : EqDecision RenameOperation.
Proof. solve_decision. Defined.

(** [f.Season*1000 + f.Episode] in [int] arithmetic. *)
Definition matchKey (f : FileInfo) : Z :=
  wrap64 (wrap64 (Season f * 1000) + Episode f).

(* ===================================================================== *)
(** ** createFilePairs

    Ranging over a Go map visits the entries in an unspecified order;
    [range_map] stands for the order taken, any enumeration of the entries. *)
(* ===================================================================== *)

Definition range_order : Type := gmap Z FileInfo -> list (Z * FileInfo).

Definition range_order_ok (range_map : range_order) : Prop :=
  forall m, range_map m ≡ₚ map_to_list m.

(** First loop: [subtitleMap[key] = subtitle] for each subtitle in turn. *)
Definition index_subtitles (subtitleFiles : list FileInfo) : gmap Z FileInfo :=
  foldl (fun subtitleMap subtitle => <[matchKey subtitle := subtitle]> subtitleMap)
        ∅ subtitleFiles.

(** Second loop, with the videos still to visit as argument. *)
Fixpoint pair_videos (videoFiles : list FileInfo)
    (pairs : list FilePair) (unmatched : list FileInfo)
    (subtitleMap : gmap Z FileInfo)
    : list FilePair * list FileInfo * gmap Z FileInfo :=
  match videoFiles with
  | [] => (pairs, unmatched, subtitleMap)
  | video :: rest =>
      let key := matchKey video in
      match subtitleMap !! key with
      | Some subtitle =>
          pair_videos rest
            (pairs ++ [ {| Video := video; Subtitle := subtitle |} ])
            unmatched (delete key subtitleMap)
      | None => pair_videos rest pairs (unmatched ++ [video]) subtitleMap
      end
  end.

Definition createFilePairs (range_map : range_order)
    (videoFiles subtitleFiles : list FileInfo)
    : list FilePair * list FileInfo :=
  let subtitleMap := index_subtitles subtitleFiles in
  let '(pairs, unmatched, subtitleMap) :=
    pair_videos videoFiles [] [] subtitleMap in
  (pairs, unmatched ++ map snd (range_map subtitleMap)).

(* ===================================================================== *)
(** ** path/filepath: Clean, Dir, Base, Join (slash separator) *)
(* ===================================================================== *)

Definition is_sep (c : ascii) : bool := Ascii.eqb c "/"%char.

(** The elements between separators, [cur] being the element under way
    (reversed). *)
Fixpoint split_sep (s : bytes) (cur : bytes) : list bytes :=
  match s with
  | [] => [rev cur]
  | c :: s' =>
      if is_sep c then rev cur :: split_sep s' [] else split_sep s' (c :: cur)
  end.

Definition dot : bytes := ["."%char].
Definition dotdot : bytes := ["."%char; "."%char].

(** One element of the lexical cleaning; [stack] holds the elements kept so
    far, the last one first. *)
Definition clean_step (rooted : bool) (stack : list bytes) (e : bytes)
    : list bytes :=
  if bytes_eqb e [] || bytes_eqb e dot then stack
  else if bytes_eqb e dotdot then
    match stack with
    | top :: below =>
        if bytes_eqb top dotdot
        then (if rooted then stack else e :: stack)
        else below
    | [] => if rooted then [] else [e]
    end
  else e :: stack.

Fixpoint join_sep (elems : list bytes) : bytes :=
  match elems with
  | [] => []
  | [e] => e
  | e :: rest => e ++ "/"%char :: join_sep rest
  end.

Definition Clean_bytes (path : bytes) : bytes :=
  match path with
  | [] => dot
  | c :: _ =>
      let rooted := is_sep c in
      let stack := foldl (clean_step rooted) [] (split_sep path []) in
      let body := join_sep (rev stack) in
      if rooted then "/"%char :: body
      else match body with [] => dot | _ => body end
  end.

(** Length of the prefix that ends with the last separator. *)
Fixpoint last_sep (s : bytes) (pos : nat) (best : nat) : nat :=
  match s with
  | [] => best
  | c :: s' => last_sep s' (S pos) (if is_sep c then S pos else best)
  end.

Definition Dir_bytes (path : bytes) : bytes :=
  Clean_bytes (take (last_sep path 0 0) path).

Fixpoint strip_trailing_sep (r : bytes) : bytes :=
  match r with
  | c :: r' => if is_sep c then strip_trailing_sep r' else r
  | [] => []
  end.

Definition Base_bytes (path : bytes) : bytes :=
  match path with
  | [] => dot
  | _ =>
      let p := rev (strip_trailing_sep (rev path)) in
      let p := drop (last_sep p 0 0) p in
      match p with
      | [] => ["/"%char]
      | _ => p
      end
  end.

Fixpoint Join_bytes (elem : list bytes) : bytes :=
  match elem with
  | [] => []
  | [] :: rest => Join_bytes rest
  | _ :: _ => Clean_bytes (join_sep elem)
  end.

Definition filepath_Clean (path : string) : string := str (Clean_bytes (unstr path)).
Definition filepath_Dir (path : string) : string := str (Dir_bytes (unstr path)).
Definition filepath_Base (path : string) : string := str (Base_bytes (unstr path)).
Definition filepath_Join (elem : list string) : string :=
  str (Join_bytes (map unstr elem)).


(* ===================================================================== *)
(** ** fmt verbs *)
(* ===================================================================== *)

(** [%d] *)
Definition fmt_d (n : Z) : string := pretty n.

(** [%02d]: zero padding to width two, the sign counting for the width. *)
Definition fmt_02d (n : Z) : string :=
  if (n <? 0)%Z then pretty n
  else if (n <? 10)%Z then "0" +:+ pretty n
  else pretty n.


(* ===================================================================== *)
(** ** buildRenameOperations *)
(* ===================================================================== *)

(** [fmt.Sprintf("%s - S%02dE%02d%s", animeName, f.Season, f.Episode,
    f.Extension)] *)
Definition newName (animeName : string) (f : FileInfo) : string :=
  animeName +:+ " - S" +:+ fmt_02d (Season f) +:+ "E" +:+ fmt_02d (Episode f)
    +:+ Extension f.

Fixpoint build_from (pairs : list FilePair) (animeName : string)
    (operations : list RenameOperation) : list RenameOperation :=
  match pairs with
  | [] => operations
  | pair_ :: rest =>
      let newVideoName := newName animeName (Video pair_) in
      let newSubtitleName := newName animeName (Subtitle pair_) in
      let operations :=
        operations ++
          [ {| OldPath := Path (Video pair_);
               NewPath := filepath_Join
                            [filepath_Dir (Path (Video pair_)); newVideoName] |} ] in
      let operations :=
        operations ++
          [ {| OldPath := Path (Subtitle pair_);
               NewPath := filepath_Join
                            [filepath_Dir (Path (Subtitle pair_)); newSubtitleName] |} ] in
      build_from rest animeName operations
  end.

Definition buildRenameOperations (pairs : list FilePair) (animeName : string)
    : list RenameOperation :=
  build_from pairs animeName [].

(* ===================================================================== *)
(** ** Errors *)
(* ===================================================================== *)

#[local] Unset Elimination Schemes.
Inductive error : Type :=
| ErrNotExist                                   (* os.ErrNotExist *)
| errorString (msg : string)                    (* errors.New, fmt.Errorf *)
| wrapError (msg : string) (err : error)        (* fmt.Errorf with %w *)
| RenameExecutionError (Phase From To : string) (Err : error)
| joinError (errs : list error)                 (* errors.Join *)
| PreflightError (Issues : list string).
#[local] Set Elimination Schemes.

(** The outcome of [os.Stat], as far as the program looks at it. *)
Inductive StatResult : Type :=
| StatOK
| StatNotExist
| StatError (msg : string).

(* ===================================================================== *)
(** ** strings.TrimSpace *)
(* ===================================================================== *)

(** Length of the white-space rune (in UTF-8) at the head of [s], 0 when
    there is none. *)
Definition space_rune_len (s : bytes) : nat :=
  match map byte_code s with
  | (9 | 10 | 11 | 12 | 13 | 32)%N :: _ => 1
  | 194%N :: (133 | 160)%N :: _ => 2
  | 225%N :: 154%N :: 128%N :: _ => 3
  | 226%N :: 128%N :: (128 | 129 | 130 | 131 | 132 | 133 | 134 | 135 | 136
                      | 137 | 138 | 168 | 169 | 175)%N :: _ => 3
  | 226%N :: 129%N :: 159%N :: _ => 3
  | 227%N :: 128%N :: 128%N :: _ => 3
  | _ => 0
  end.

Fixpoint trim_left (fuel : nat) (s : bytes) : bytes :=
  match fuel with
  | O => s
  | S fuel' =>
      match space_rune_len s with
      | O => s
      | n => trim_left fuel' (drop n s)
      end
  end.

(** The same from the end: [r] is the string reversed. *)
Definition space_rune_len_rev (r : bytes) : nat :=
  match r with
  | a :: b :: c :: _ =>
      if (space_rune_len [a] =? 1)%nat then 1
      else if (space_rune_len [b; a] =? 2)%nat then 2
      else if (space_rune_len [c; b; a] =? 3)%nat then 3 else 0
  | a :: b :: _ =>
      if (space_rune_len [a] =? 1)%nat then 1
      else if (space_rune_len [b; a] =? 2)%nat then 2 else 0
  | a :: _ => if (space_rune_len [a] =? 1)%nat then 1 else 0
  | [] => 0
  end.

Fixpoint trim_right_rev (fuel : nat) (r : bytes) : bytes :=
  match fuel with
  | O => r
  | S fuel' =>
      match space_rune_len_rev r with
      | O => r
      | n => trim_right_rev fuel' (drop n r)
      end
  end.

Definition TrimSpace_bytes (s : bytes) : bytes :=
  let s := trim_left (length s) s in
  rev (trim_right_rev (length s) (rev s)).

Definition strings_TrimSpace (s : string) : string := str (TrimSpace_bytes (unstr s)).

Definition blank (s : string) : bool :=
  String.eqb (strings_TrimSpace s) EmptyString.


(* ===================================================================== *)
(** ** preflightRenameOperations

    [stat] is [os.Stat] on the file system as it is during the check, which
    only reads it.  [range_set] is the order in which ranging over the
    [targetPaths] map visits its keys. *)
(* ===================================================================== *)

Definition set_order : Type := gset string -> list string.

Definition set_order_ok (range_set : set_order) : Prop :=
  forall X, range_set X ≡ₚ elements X.

Definition preflight_state : Type := list string * gset string * gset string.

Definition duplicate_issue (target : string) : string :=
  "duplicate target path detected: " +:+ target.

Definition missing_source_issue (source : string) : string :=
  "source file does not exist or is not readable: " +:+ source.

(** One iteration of the loop over the operations. *)
Definition preflight_step (stat : string -> StatResult)
    (st : preflight_state) (operation : RenameOperation) : preflight_state :=
  let '(issues, sourcePaths, targetPaths) := st in
  if blank (OldPath operation) then
    (issues ++ ["operation contains empty source path"], sourcePaths, targetPaths)
  else if blank (NewPath operation) then
    (issues ++ ["operation for " +:+ OldPath operation
                  +:+ " contains empty target path"],
     sourcePaths, targetPaths)
  else
    let sourcePaths := {[ OldPath operation ]} ∪ sourcePaths in
    match stat (OldPath operation) with
    | StatOK =>
        if String.eqb (OldPath operation) (NewPath operation) then
          (issues, sourcePaths, targetPaths)
        else if decide (NewPath operation ∈ targetPaths) then
          (issues ++ [duplicate_issue (NewPath operation)],
           sourcePaths, targetPaths)
        else (issues, sourcePaths, {[ NewPath operation ]} ∪ targetPaths)
    | _ =>
        (issues ++ [missing_source_issue (OldPath operation)],
         sourcePaths, targetPaths)
    end.

(** One iteration of the loop over the registered targets. *)
Definition target_step (stat : string -> StatResult) (sourcePaths : gset string)
    (issues : list string) (targetPath : string) : list string :=
  if decide (targetPath ∈ sourcePaths) then issues
  else
    match stat targetPath with
    | StatOK => issues ++ ["target path already exists: " +:+ targetPath]
    | StatNotExist => issues
    | StatError msg =>
        issues ++ ["unable to validate target path " +:+ targetPath
                     +:+ ": " +:+ msg]
    end.

Definition preflight_issues (stat : string -> StatResult) (range_set : set_order)
    (operations : list RenameOperation) : list string :=
  let issues :=
    match operations with
    | [] => ["no matched file pairs were found"]
    | _ => []
    end in
  let '(issues, sourcePaths, targetPaths) :=
    foldl (preflight_step stat) (issues, ∅, ∅) operations in
  foldl (target_step stat sourcePaths) issues (range_set targetPaths).

Definition preflightRenameOperations (stat : string -> StatResult)
    (range_set : set_order) (operations : list RenameOperation)
    : option error :=
  match preflight_issues stat range_set operations with
  | [] => None
  | issues => Some (PreflightError issues)
  end.

(* ===================================================================== *)
(** ** The file system and the rename executor

    The file system is a finite map from paths to file contents; directories
    are not represented.  [os.Rename] moves a file and replaces whatever is
    at the new path.  The world also records what was printed (one entry
    per line, without the newline) and every invocation of the rename
    function. *)
(* ===================================================================== *)

Definition os_Stat (fs : gmap string string) (path : string) : StatResult :=
  match fs !! path with
  | Some _ => StatOK
  | None => StatNotExist
  end.

(** [renameExecutor]: a rename function returns its error (nil is [None])
    and the file system it leaves. *)
Definition renameExecutor : Type :=
  string -> string -> gmap string string -> option error * gmap string string.

Definition os_Rename : renameExecutor :=
  fun oldPath newPath fs =>
    match fs !! oldPath with
    | Some data => (None, <[newPath := data]> (delete oldPath fs))
    | None => (Some ErrNotExist, fs)
    end.

Record World : Type := {
  fs : gmap string string;
  stdout : list string;
  invocations : list (string * string)
}.

Definition print (line : string) (w : World) : World :=
  {| fs := fs w; stdout := stdout w ++ [line]; invocations := invocations w |}.

(** A call [renameFn(oldPath, newPath)]. *)
Definition invoke (renameFn : renameExecutor) (oldPath newPath : string)
    (w : World) : option error * World :=
  let '(err, fs') := renameFn oldPath newPath (fs w) in
  (err, {| fs := fs'; stdout := stdout w;
           invocations := invocations w ++ [(oldPath, newPath)] |}).

Record renameState : Type := {
  operation_of : RenameOperation;
  TempPath : string;
  CurrentPath : string
}.

Definition set_CurrentPath (state : renameState) (path : string) : renameState :=
  {| operation_of := operation_of state;
     TempPath := TempPath state;
     CurrentPath := path |}.

(** *** buildTempPath *)

Definition tempName (pid : Z) (index attempt : Z) (base : string) : string :=
  ".anime-renamer-tmp-" +:+ fmt_d pid +:+ "-"
    +:+ fmt_d (wrap64 (wrap64 (index * 1000) + attempt)) +:+ "-" +:+ base.

(** The loop [for attempt := range 1000], with the attempts left as fuel. *)
Fixpoint temp_attempts (left : nat) (attempt : Z) (pid : Z)
    (fs : gmap string string) (oldPath dir base : string) (index : Z)
    : string + error :=
  match left with
  | O => inr (errorString ("failed to allocate temp path for " +:+ oldPath))
  | S left' =>
      let candidate := filepath_Join [dir; tempName pid index attempt base] in
      match os_Stat fs candidate with
      | StatNotExist => inl candidate
      | StatError msg =>
          inr (wrapError ("checking temp path " +:+ candidate) (errorString msg))
      | StatOK => temp_attempts left' (attempt + 1)%Z pid fs oldPath dir base index
      end
  end.

Definition buildTempPath (pid : Z) (fs : gmap string string)
    (oldPath : string) (index : Z) : string + error :=
  let dir := filepath_Dir oldPath in
  let base := filepath_Base oldPath in
  temp_attempts 1000 0 pid fs oldPath dir base index.

(** *** rollbackRenameStates *)

(** The loop from the last state to the first; [states] is given reversed. *)
Fixpoint rollback_from (states : list renameState) (renameFn : renameExecutor)
    (rollbackErrors : list error) (w : World) : list error * World :=
  match states with
  | [] => (rollbackErrors, w)
  | state :: rest =>
      if String.eqb (CurrentPath state) (OldPath (operation_of state)) then
        rollback_from rest renameFn rollbackErrors w
      else
        match os_Stat (fs w) (CurrentPath state) with
        | StatNotExist =>
            rollback_from rest renameFn
              (rollbackErrors ++
                 [errorString ("rollback source disappeared: " +:+ CurrentPath state)])
              w
        | StatError msg =>
            rollback_from rest renameFn
              (rollbackErrors ++
                 [wrapError ("rollback stat failed for " +:+ CurrentPath state)
                            (errorString msg)])
              w
        | StatOK =>
            let '(err, w') :=
              invoke renameFn (CurrentPath state) (OldPath (operation_of state)) w in
            match err with
            | Some e =>
                rollback_from rest renameFn
                  (rollbackErrors ++
                     [wrapError ("rollback failed (" +:+ CurrentPath state +:+ " -> "
                                   +:+ OldPath (operation_of state) +:+ ")") e])
                  w'
            | None => rollback_from rest renameFn rollbackErrors w'
            end
        end
  end.

Definition rollbackRenameStates (states : list renameState)
    (renameFn : renameExecutor) (w : World) : option error * World :=
  match rollback_from (rev states) renameFn [] w with
  | ([], w') => (None, w')
  | (rollbackErrors, w') => (Some (joinError rollbackErrors), w')
  end.

(** *** executeRenameOperationsWith *)

Fixpoint dry_run (operations : list RenameOperation) (w : World) : World :=
  match operations with
  | [] => w
  | operation :: rest =>
      if String.eqb (OldPath operation) (NewPath operation)
      then dry_run rest (print ("[dry-run] No change: " +:+ OldPath operation) w)
      else dry_run rest
             (print ("[dry-run] " +:+ OldPath operation +:+ " -> "
                       +:+ NewPath operation) w)
  end.

(** The loop that builds [states]; [index] is the position of the next
    operation. *)
Fixpoint plan_states (pid : Z) (operations : list RenameOperation) (index : Z)
    (states : list renameState) (w : World)
    : (list renameState + error) * World :=
  match operations with
  | [] => (inl states, w)
  | operation :: rest =>
      if String.eqb (OldPath operation) (NewPath operation)
      then plan_states pid rest (index + 1)%Z states
             (print ("No change: " +:+ OldPath operation) w)
      else
        match buildTempPath pid (fs w) (OldPath operation) index with
        | inr err => (inr err, w)
        | inl tempPath =>
            plan_states pid rest (index + 1)%Z
              (states ++ [ {| operation_of := operation;
                              TempPath := tempPath;
                              CurrentPath := OldPath operation |} ])
              w
        end
  end.

(** What the failure branch of either phase does with [states] as they are
    at that moment. *)
Definition fail_and_rollback (executionErr : error) (states : list renameState)
    (renameFn : renameExecutor) (w : World) : option error * World :=
  match rollbackRenameStates states renameFn w with
  | (Some rollbackErr, w') =>
      (Some (joinError [executionErr; wrapError "rollback failed" rollbackErr]), w')
  | (None, w') => (Some executionErr, w')
  end.

(** A phase loop: [done] are the states already moved (updated in place),
    [todo] those still to move; [dest] picks the destination. *)
Fixpoint run_phase (phase : string) (dest : renameState -> string)
    (done todo : list renameState) (renameFn : renameExecutor) (w : World)
    : (list renameState + option error) * World :=
  match todo with
  | [] => (inl done, w)
  | state :: rest =>
      let '(err, w') := invoke renameFn (CurrentPath state) (dest state) w in
      match err with
      | Some e =>
          let executionErr :=
            RenameExecutionError phase (CurrentPath state) (dest state) e in
          let '(res, w'') :=
            fail_and_rollback executionErr (done ++ state :: rest) renameFn w' in
          (inr res, w'')
      | None =>
          run_phase phase dest (done ++ [set_CurrentPath state (dest state)])
            rest renameFn w'
      end
  end.

Fixpoint report_renamed (states : list renameState) (w : World) : World :=
  match states with
  | [] => w
  | state :: rest =>
      report_renamed rest
        (print ("Renamed: " +:+ OldPath (operation_of state) +:+ " -> "
                  +:+ NewPath (operation_of state)) w)
  end.

Definition executeRenameOperationsWith (pid : Z)
    (operations : list RenameOperation) (dryRun : bool)
    (renameFn : renameExecutor) (w : World) : option error * World :=
  if dryRun then (None, dry_run operations w)
  else
    match plan_states pid operations 0 [] w with
    | (inr err, w) => (Some err, w)
    | (inl [], w) => (None, print "No files need renaming." w)
    | (inl states, w) =>
        match run_phase "phase-one" TempPath [] states renameFn w with
        | (inr res, w) => (res, w)
        | (inl states, w) =>
            match run_phase "phase-two" (fun state => NewPath (operation_of state))
                    [] states renameFn w with
            | (inr res, w) => (res, w)
            | (inl states, w) => (None, report_renamed states w)
            end
        end
    end.

Definition executeRenameOperations (pid : Z) (operations : list RenameOperation)
    (dryRun : bool) (w : World) : option error * World :=
  executeRenameOperationsWith pid operations dryRun os_Rename w.

(* ===================================================================== *)
(** ** Vocabulary of the properties *)
(* ===================================================================== *)

Definition dry_line (operation : RenameOperation) : string :=
  if String.eqb (OldPath operation) (NewPath operation)
  then "[dry-run] No change: " +:+ OldPath operation
  else "[dry-run] " +:+ OldPath operation +:+ " -> " +:+ NewPath operation.

Definition is_noop (operation : RenameOperation) : bool :=
  String.eqb (OldPath operation) (NewPath operation).

Definition noop_line (operation : RenameOperation) : string :=
  "No change: " +:+ OldPath operation.

(** The target the specification gives for a tagged file: its directory
    joined with [{title} - S{season:02d}E{episode:02d}{extension}]. *)
Definition planned_target (title : string) (f : FileInfo) : string :=
  filepath_Join
    [ filepath_Dir (Path f);
      title +:+ " - S" +:+ fmt_02d (Season f) +:+ "E" +:+ fmt_02d (Episode f)
        +:+ Extension f ].

Definition planned_operation (title : string) (f : FileInfo) : RenameOperation :=
  {| OldPath := Path f; NewPath := planned_target title f |}.

(** The last file of [files] with key [k], if any. *)
Fixpoint last_with_key (k : Z) (files : list FileInfo) : option FileInfo :=
  match files with
  | [] => None
  | f :: rest =>
      match last_with_key k rest with
      | Some g => Some g
      | None => if decide (matchKey f = k) then Some f else None
      end
  end.

Definition keyed (m : gmap Z FileInfo) : Prop :=
  forall k f, m !! k = Some f -> matchKey f = k.

(** The enumeration orders used to run examples. *)
Definition map_order : range_order := map_to_list.
Definition elements_order : set_order := elements.

Definition ep01_mkv : FileInfo :=
  {| Path := "/d/ep 01.mkv"; Season := 1; Episode := 1; Extension := ".mkv" |}.
Definition ep01_srt : FileInfo :=
  {| Path := "/d/ep 01.srt"; Season := 1; Episode := 1; Extension := ".srt" |}.
Definition ep01_ass : FileInfo :=
  {| Path := "/d/ep 01.ass"; Season := 1; Episode := 1; Extension := ".ass" |}.
Definition ep02_srt : FileInfo :=
  {| Path := "/d/ep 02.srt"; Season := 1; Episode := 2; Extension := ".srt" |}.

(** An operation gets as far as the duplicate check of the preflight loop:
    neither path is blank, the source can be stat'ed, and it is no no-op. *)
Definition reaches_target_check (stat : string -> StatResult)
    (operation : RenameOperation) : bool :=
  negb (blank (OldPath operation))
  && negb (blank (NewPath operation))
  && match stat (OldPath operation) with StatOK => true | _ => false end
  && negb (String.eqb (OldPath operation) (NewPath operation)).

Definition registers (stat : string -> StatResult) (target : string)
    (operation : RenameOperation) : bool :=
  reaches_target_check stat operation && String.eqb (NewPath operation) target.

(** The number of operations that reach the duplicate check with [target]
    as their target. *)
Definition contenders (stat : string -> StatResult) (target : string)
    (operations : list RenameOperation) : nat :=
  length (List.filter (registers stat target) operations).

Definition duplicate_reports (issues : list string) (target : string) : nat :=
  count_occ string_dec issues (duplicate_issue target).

Definition preflight_inv (stat : string -> StatResult) (target : string)
    (st : preflight_state) (seen : list RenameOperation) : Prop :=
  let '(issues, _, targetPaths) := st in
  (target ∈ targetPaths <-> 0 < contenders stat target seen)
  /\ duplicate_reports issues target = pred (contenders stat target seen).

(** A file system with only the second source of the two operations. *)
Definition only_subtitle : gmap string string := {[ "/d/ep 01.srt" := "subtitle" ]}.

Definition same_target_operations : list RenameOperation :=
  [ {| OldPath := "/d/ep 01.mkv"; NewPath := "/d/Anime - S01E01.mkv" |};
    {| OldPath := "/d/ep 01.srt"; NewPath := "/d/Anime - S01E01.mkv" |} ].

Definition both_sources : gmap string string :=
  {[ "/d/ep 01.mkv" := "video"; "/d/ep 01.srt" := "subtitle" ]}.

(** *** Vocabulary for the extraction cascade *)

(** Expressions that match digits only, and expressions all of whose groups
    are of that kind. *)
Fixpoint digit_only (r : regex) : bool :=
  match r with
  | Digit | Empty => true
  | Cat a b | Alt a b => digit_only a && digit_only b
  | Star a => digit_only a
  | _ => false
  end.

Fixpoint digit_groups (r : regex) : bool :=
  match r with
  | Group _ a => digit_only a
  | Cat a b | Alt a b => digit_groups a && digit_groups b
  | Star a => digit_groups a
  | _ => true
  end.

Definition all_digits (v : bytes) : Prop := Forall (fun x => isDigit x = true) v.

Definition caps_digits (c : caps) : Prop := Forall (fun iv => all_digits iv.2) c.

(** A pattern whose episode index names one of its groups, all groups
    capturing digits. *)
Definition well_formed (pattern : episodePattern) : bool :=
  digit_groups (regex_of pattern)
  && (1 <=? episodeIndex pattern)%nat
  && (episodeIndex pattern <=? NumSubexp (regex_of pattern))%nat
  && (seasonIndex pattern <=? NumSubexp (regex_of pattern))%nat.

(** The season a rule gives: its season capture when the rule has one and
    it parses to a positive integer, else 1. *)
Definition season_of (pattern : episodePattern) (match_ : list string) : Z :=
  if (0 <? seasonIndex pattern)%nat then
    match Atoi (submatch match_ (seasonIndex pattern)) with
    | Some season => if (0 <? season)%Z then season else 1%Z
    | None => 1%Z
    end
  else 1%Z.

(** What one rule yields on a name, in the words of the specification: a
    season and episode when the rule matches and its episode capture parses
    to an integer greater than zero; nothing otherwise. *)
Definition rule_yields (pattern : episodePattern) (name : string)
    : option (Z * Z) :=
  match FindStringSubmatch (regex_of pattern) name with
  | [] => None
  | match_ =>
      match Atoi (submatch match_ (episodeIndex pattern)) with
      | Some episode =>
          if (0 <? episode)%Z then Some (season_of pattern match_, episode)
          else None
      | None => None
      end
  end.

(** The yield of the first rule, in order, that yields anything. *)
Fixpoint first_yield (rules : list episodePattern) (name : string)
    : option (Z * Z) :=
  match rules with
  | [] => None
  | rule :: rest =>
      match rule_yields rule name with
      | Some r => Some r
      | None => first_yield rest name
      end
  end.

(** *** Vocabulary for the case of the markers *)

(** The lower-case form of the marker letters S and E; other bytes stay. *)
Definition lower_marker (c : ascii) : ascii :=
  if Ascii.eqb c "S"%char then "s"%char
  else if Ascii.eqb c "E"%char then "e"%char
  else c.

Definition fold_markers (s : string) : string := str (map lower_marker (unstr s)).

Definition fold_caps (c : caps) : caps :=
  map (fun iv => (iv.1, map lower_marker iv.2)) c.

Definition fold_found (m : found) : found :=
  let '(from, rest, c) := m in
  (map lower_marker from, map lower_marker rest, fold_caps c).

(** An expression matches a name and the name with markers lowered alike. *)
Definition stable (r : regex) : Prop :=
  forall (R R' : Type) (g : R -> R') (s : bytes) (c : caps)
         (k : bytes -> caps -> option R) (k' : bytes -> caps -> option R'),
    (forall s' c', k' (map lower_marker s') (fold_caps c') = option_map g (k s' c')) ->
    run r (map lower_marker s) (fold_caps c) k' = option_map g (run r s c k).

(** *** Vocabulary for bare trailing numbers *)

(** The number a digit string denotes. *)
Definition digits_value (d : bytes) : Z :=
  fold_left (fun acc x => (acc * 10 + (Z.of_N (byte_code x) - 48))%Z) d 0%Z.

Definition no_digits (s : bytes) : Prop := Forall (fun x => isDigit x = false) s.

(** Every digit of [s] after its first byte directly follows a digit or a
    white-space byte. *)
Fixpoint digit_after_blank (s : bytes) : Prop :=
  match s with
  | [] => True
  | x :: t =>
      match t with
      | [] => True
      | y :: _ => isDigit y = true -> isDigit x || isSpace x = true
      end
      /\ digit_after_blank t
  end.

(** The head of [s], if any, is no digit. *)
Definition head_no_digit (s : bytes) : Prop :=
  match s with
  | [] => True
  | y :: _ => isDigit y = false
  end.

(** *** Batches used to run the executor *)

(** A rename function that fails, touching nothing, on one given move and
    is [os.Rename] on every other. *)
Definition fail_once (from to : string) : renameExecutor :=
  fun oldPath newPath fs =>
    if String.eqb oldPath from && String.eqb newPath to
    then (Some (errorString "forced failure"), fs)
    else os_Rename oldPath newPath fs.

(** The rename function of [TestExecuteRenameOperationsWithRollback]. *)
Definition fail_on_target (target : string) : renameExecutor :=
  fun oldPath newPath fs =>
    if String.eqb newPath target
    then (Some (errorString "forced failure for rollback test"), fs)
    else os_Rename oldPath newPath fs.

Definition world_of (files : gmap string string) : World :=
  {| fs := files; stdout := []; invocations := [] |}.

(** Two files that are to take each other's name. *)
Definition swap_operations : list RenameOperation :=
  [ {| OldPath := "/d/a.mkv"; NewPath := "/d/b.mkv" |};
    {| OldPath := "/d/b.mkv"; NewPath := "/d/a.mkv" |} ].

Definition swap_files : gmap string string :=
  {[ "/d/a.mkv" := "video A"; "/d/b.mkv" := "video B" ]}.

(** The video and subtitle of the rollback test. *)
Definition episode_operations : list RenameOperation :=
  [ {| OldPath := "/t/episode-01.mkv"; NewPath := "/t/Anime - S01E01.mkv" |};
    {| OldPath := "/t/episode-01.srt"; NewPath := "/t/Anime - S01E01.srt" |} ].

Definition episode_files : gmap string string :=
  {[ "/t/episode-01.mkv" := "video"; "/t/episode-01.srt" := "subtitle" ]}.

(** A pair that already carries its final names. *)
Definition renamed_operations : list RenameOperation :=
  [ {| OldPath := "/d/Anime - S01E01.mkv"; NewPath := "/d/Anime - S01E01.mkv" |};
    {| OldPath := "/d/Anime - S01E01.srt"; NewPath := "/d/Anime - S01E01.srt" |} ].

Definition renamed_files : gmap string string :=
  {[ "/d/Anime - S01E01.mkv" := "video"; "/d/Anime - S01E01.srt" := "subtitle" ]}.

(** *** Vocabulary for the rollback *)

(** The three paths a state may be at. *)
Definition slot (state : renameState) : list string :=
  [ OldPath (operation_of state); TempPath state; NewPath (operation_of state) ].

Definition slots (states : list renameState) : list string :=
  flat_map slot states.

Definition settled (states : list renameState) : Prop :=
  Forall (fun state => CurrentPath state ∈ slot state) states.

Definition occupied (states : list renameState) (p : string) : Prop :=
  Exists (fun state => CurrentPath state = p) states.

(** The file system holds each file of the batch at the current path of its
    state, nothing at the other paths of the batch, and is as at the start
    elsewhere. *)
Definition layout (fs0 fs : gmap string string) (states : list renameState) : Prop :=
  Forall (fun state =>
            fs !! CurrentPath state = fs0 !! OldPath (operation_of state)) states
  /\ forall p, ~ occupied states p ->
       fs !! p = if decide (p ∈ slots states) then None else fs0 !! p.

Definition well_behaved (renameFn : renameExecutor) : Prop :=
  forall oldPath newPath fs,
    renameFn oldPath newPath fs = os_Rename oldPath newPath fs
    \/ exists e, renameFn oldPath newPath fs = (Some e, fs).

Definition to_old (state : renameState) : renameState :=
  set_CurrentPath state (OldPath (operation_of state)).

Definition vacant_targets (fs0 : gmap string string) (states : list renameState) : Prop :=
  Forall (fun state => fs0 !! TempPath state = None
                       /\ fs0 !! NewPath (operation_of state) = None) states.

(** The static side conditions: the paths of the batch are pairwise
    distinct, every state is at one of its own paths, and every source was
    there at the start. *)
Definition batch_ok (fs0 : gmap string string) (states : list renameState) : Prop :=
  NoDup (slots states)
  /\ settled states
  /\ Forall (fun state => is_Some (fs0 !! OldPath (operation_of state))) states
  /\ vacant_targets fs0 states.

(* ===================================================================== *)
(** * The rest of the program *)
(* ===================================================================== *)

(** ** validateAnimeName *)

(** The characters refused in a name: less-than, greater-than, colon,
    double quote, slash, backslash, bar, question mark, star. *)
Definition invalid_name_bytes : bytes :=
  map ascii_of_N [60; 62; 58; 34; 47; 92; 124; 63; 42]%N.

(** [strings.ContainsAny] for a set of ASCII characters. *)
Definition ContainsAny_bytes (s chars : bytes) : bool :=
  existsb (fun c => existsb (Ascii.eqb c) chars) s.

Definition validateAnimeName (animeName : string) : option error :=
  if blank animeName then Some (errorString "anime name is empty")
  else if ContainsAny_bytes (unstr animeName) invalid_name_bytes then
    Some (errorString ("anime name contains invalid filename characters: "
                         +:+ animeName))
  else None.

(** ** The moves of a phase *)

(** What a list of [os.Rename] calls, all of them succeeding or not, leaves. *)
Definition rename_all (moves : list (string * string))
    (fs : gmap string string) : gmap string string :=
  foldl (fun fs m => (os_Rename m.1 m.2 fs).2) fs moves.

Definition move_to (dest : renameState -> string) (state : renameState)
    : renameState :=
  set_CurrentPath state (dest state).

Definition sources (states : list renameState) : list string :=
  map (fun state => OldPath (operation_of state)) states.

Definition targets (states : list renameState) : list string :=
  map (fun state => NewPath (operation_of state)) states.

Definition temps (states : list renameState) : list string :=
  map TempPath states.

(** The candidate name that attempt [attempt] of [buildTempPath] tries. *)
Definition candidate (pid : Z) (oldPath : string) (index attempt : Z) : string :=
  filepath_Join [ filepath_Dir oldPath;
                  tempName pid index attempt (filepath_Base oldPath) ].

(** ** The moves of the phases *)

Definition moves_of (dest : renameState -> string) (states : list renameState)
    : list (string * string) :=
  map (fun st => (CurrentPath st, dest st)) states.

(** [p] is none of the paths of the state. *)
Definition apart (p : string) (state : renameState) : Prop :=
  p <> CurrentPath state /\ p ∉ slot state.

(** ** What the preflight check accepts *)

Definition moving (operations : list RenameOperation) : list RenameOperation :=
  List.filter (fun operation => negb (is_noop operation)) operations.

Definition checked (stat : string -> StatResult) (operation : RenameOperation) : Prop :=
  blank (OldPath operation) = false
  /\ blank (NewPath operation) = false
  /\ stat (OldPath operation) = StatOK.

Definition free_target (stat : string -> StatResult)
    (operations : list RenameOperation) (target : string) : Prop :=
  target ∈ map OldPath operations \/ stat target = StatNotExist.

Definition acceptable (stat : string -> StatResult)
    (operations : list RenameOperation) : Prop :=
  operations <> []
  /\ Forall (checked stat) operations
  /\ NoDup (map NewPath (moving operations))
  /\ Forall (free_target stat operations) (map NewPath (moving operations)).

(** ** The range in which the key tells files apart *)

(** The episode is below 1000 and the key is computed without wrap-around. *)
Definition small (f : FileInfo) : Prop :=
  (0 <= Season f)%Z /\ (0 <= Episode f < 1000)%Z
  /\ (Season f * 1000 + Episode f <= max_int)%Z.

(** ** flexiblePattern and findFiles *)

(** [\d+] *)
Definition flexiblePattern : regex := Digits.

(** [regexp.MatchString] *)
Definition MatchString (r : regex) (s : string) : bool :=
  match search r (unstr s) with
  | Some _ => true
  | None => false
  end.

(** An expression every match of which contains a digit. *)
Fixpoint needs_digit (r : regex) : bool :=
  match r with
  | Digit => true
  | Cat a b => needs_digit a || needs_digit b
  | Alt a b => needs_digit a && needs_digit b
  | Group _ a => needs_digit a
  | _ => false
  end.

Definition has_digit (s : bytes) : bool := existsb isDigit s.

(** *** findFiles

    [filepath.Walk] calls the function it is given on the entries of the
    tree one after the other, in lexical order, and stops at the first
    call that returns an error; the function here never asks to skip a
    directory.  An entry is what one call receives: the path, whether it
    is a directory, and the error met on the way to it.  [ToLower] stands
    for [strings.ToLower] and [Quote] for the verb [%q]. *)

Record WalkEntry : Type := {
  walk_path : string;
  walk_isDir : bool;
  walk_err : option error
}.

Section FindFiles.
Variable ToLower : string -> string.
Variable Quote : string -> string.

Definition extension_set (extensions : list string) : gset string :=
  foldl (fun extensionSet ext => {[ ToLower ext ]} ∪ extensionSet) ∅ extensions.

(** The function given to [filepath.Walk]. *)
Definition visit (extensionSet : gset string) (files : list FileInfo)
    (entry : WalkEntry) : list FileInfo + error :=
  match walk_err entry with
  | Some err => inr (wrapError ("accessing path " +:+ Quote (walk_path entry)) err)
  | None =>
      if walk_isDir entry then inl files
      else
        let ext := ToLower (filepath_Ext (walk_path entry)) in
        if decide (ext ∈ extensionSet) then
          let baseName := filepath_Base (walk_path entry) in
          if MatchString flexiblePattern baseName then
            let '(season, episode) := extractSeasonAndEpisode baseName in
            if (episode =? 0)%Z then inl files
            else inl (files ++ [ {| Path := walk_path entry; Season := season;
                                    Episode := episode; Extension := ext |} ])
          else inl files
        else inl files
  end.

Fixpoint walk (extensionSet : gset string) (entries : list WalkEntry)
    (files : list FileInfo) : list FileInfo + error :=
  match entries with
  | [] => inl files
  | entry :: rest =>
      match visit extensionSet files entry with
      | inl files => walk extensionSet rest files
      | inr err => inr err
      end
  end.

Definition findFiles (folderPath : string) (extensions : list string)
    (entries : list WalkEntry) : list FileInfo + error :=
  match walk (extension_set extensions) entries [] with
  | inl files => inl files
  | inr err => inr (wrapError ("walking folder " +:+ Quote folderPath) err)
  end.
End FindFiles.

(** The entry is a file that [findFiles] is to return. *)
Definition wanted (ToLower : string -> string) (extensions : list string)
    (entry : WalkEntry) : Prop :=
  walk_isDir entry = false
  /\ ToLower (filepath_Ext (walk_path entry)) ∈ map ToLower extensions
  /\ (extractSeasonAndEpisode (filepath_Base (walk_path entry))).2 <> 0%Z.

(** The file is what [findFiles] makes of the entry. *)
Definition file_of (ToLower : string -> string) (entry : WalkEntry)
    (f : FileInfo) : Prop :=
  Path f = walk_path entry
  /\ Extension f = ToLower (filepath_Ext (walk_path entry))
  /\ (Season f, Episode f) = extractSeasonAndEpisode (filepath_Base (walk_path entry)).

#[global] Instance wanted_dec ToLower extensions entry :
  Decision (wanted ToLower extensions entry) :=
  ltac:(unfold wanted; apply _).

(** ** Batches and folders to run the theorems on *)

(** The states of the live run over the swap and over the rollback test,
    with process id 42. *)
Definition swap_states : list renameState :=
  Eval vm_compute in
    match fst (plan_states 42 swap_operations 0 [] (world_of swap_files)) with
    | inl states => states
    | inr _ => []
    end.

Definition episode_states : list renameState :=
  Eval vm_compute in
    match fst (plan_states 42 episode_operations 0 [] (world_of episode_files)) with
    | inl states => states
    | inr _ => []
    end.

(** Episode 1001 of season 1 and episode 1 of season 2. *)
Definition ep1001_mkv : FileInfo :=
  {| Path := "/d/ep 1001.mkv"; Season := 1; Episode := 1001; Extension := ".mkv" |}.
Definition s2ep01_srt : FileInfo :=
  {| Path := "/d/S2 - 01.srt"; Season := 2; Episode := 1; Extension := ".srt" |}.

(** A walk over a folder with a subfolder, two videos, a subtitle and a
    file without episode. *)
Definition season_folder : list WalkEntry :=
  [ {| walk_path := "/d"; walk_isDir := true; walk_err := None |};
    {| walk_path := "/d/Show E02.mkv"; walk_isDir := false; walk_err := None |};
    {| walk_path := "/d/Show E02.srt"; walk_isDir := false; walk_err := None |};
    {| walk_path := "/d/extras"; walk_isDir := true; walk_err := None |};
    {| walk_path := "/d/extras/trailer.mkv"; walk_isDir := false; walk_err := None |};
    {| walk_path := "/d/show s01e01.mkv"; walk_isDir := false; walk_err := None |} ].

Definition unreadable : WalkEntry :=
  {| walk_path := "/d/locked"; walk_isDir := true; walk_err := Some ErrNotExist |}.

(** ** Names the program writes *)

(** A dot followed by bytes that are neither a dot nor a separator. *)
Definition plain_extension (ext : string) : Prop :=
  match unstr ext with
  | "."%char :: e =>
      Forall (fun x => Ascii.eqb x "/"%char = false /\ Ascii.eqb x "."%char = false) e
  | _ => False
  end.

(** ** Path elements *)

Definition no_sep (e : bytes) : Prop := Forall (fun x => is_sep x = false) e.

(** An element that [Clean] keeps as it is: not empty, without separator,
    and neither [.] nor [..]. *)
Definition plain_element (e : bytes) : Prop :=
  e <> [] /\ no_sep e /\ e <> dot /\ e <> dotdot.

(** The elements [Clean] has kept, the last one first: names above, and
    below them, in a path that is not rooted, the [..] that lead out. *)
Fixpoint tidy (rooted : bool) (stack : list bytes) : Prop :=
  match stack with
  | [] => True
  | e :: below =>
      tidy rooted below
      /\ (plain_element e
          \/ (e = dotdot /\ rooted = false /\ Forall (fun b => b = dotdot) below))
  end.

Definition render (rooted : bool) (stack : list bytes) : bytes :=
  let body := join_sep (rev stack) in
  if rooted then "/"%char :: body
  else match body with [] => dot | _ => body end.

(** The part of a cleaned path before its last element. *)
Definition stem_of (rooted : bool) (stack : list bytes) : bytes :=
  match stack with
  | [] => if rooted then ["/"%char] else []
  | _ => render rooted stack ++ ["/"%char]
  end.


(** A file the program has renamed, as a walk finds it. *)
Definition renamed_entry : WalkEntry :=
  {| walk_path := "/d/Anime - S01E01.mkv"; walk_isDir := false; walk_err := None |}.

Definition renamed_mkv : FileInfo :=
  {| Path := "/d/Anime - S01E01.mkv"; Season := 1; Episode := 1;
     Extension := ".mkv" |}.

(** ** Moves that succeed *)

(** Each move finds its source when its turn comes. *)
Fixpoint succeeded (moves : list (string * string)) (fs : gmap string string) : Prop :=
  match moves with
  | [] => True
  | m :: rest => is_Some (fs !! m.1) /\ succeeded rest (os_Rename m.1 m.2 fs).2
  end.

(** The moves of a rollback over [states], given last state first. *)
Definition back_moves (states : list renameState) : list (string * string) :=
  map (fun state => (CurrentPath state, OldPath (operation_of state)))
    (List.filter (fun state =>
       negb (String.eqb (CurrentPath state) (OldPath (operation_of state)))) states).

(** ** Files as [findFiles] returns them *)

(** Season and episode at least 1, and an extension of a dot followed by
    bytes other than dots and separators. *)
Definition listed (f : FileInfo) : Prop :=
  (1 <= Season f)%Z /\ (1 <= Episode f)%Z /\ plain_extension (Extension f).

(** ** Temporary paths *)

(** The base name of the path is a plain element: the path is not empty,
    not the root, and does not end in [.] or [..]. *)
Definition plain_base (path : string) : Prop :=
  plain_element (unstr (filepath_Base path)).

(** The temporary path of the state is a candidate built for a position
    below [bound]. *)
Definition temp_below (pid bound : Z) (state : renameState) : Prop :=
  exists i attempt,
    (0 <= i < bound)%Z /\ (0 <= attempt < 1000)%Z
    /\ TempPath state = candidate pid (OldPath (operation_of state)) i attempt
    /\ plain_base (OldPath (operation_of state)).

(** ** What a live run prints *)

Definition renamed_line (operation : RenameOperation) : string :=
  "Renamed: " +:+ OldPath operation +:+ " -> " +:+ NewPath operation.

(* ===================================================================== *)
(** * Sanity checks against the Go documentation and the test suite *)
(* ===================================================================== *)

Example extract_dash : extractSeasonAndEpisode "Show S2 - 03.mkv" = (2, 3)%Z.
Proof. vm_compute. reflexivity. Qed.
Example extract_compact : extractSeasonAndEpisode "Show S01E12.ass" = (1, 12)%Z.
Proof. vm_compute. reflexivity. Qed.
Example extract_e_prefix : extractSeasonAndEpisode "Show E09.mp4" = (1, 9)%Z.
Proof. vm_compute. reflexivity. Qed.
Example extract_trailing : extractSeasonAndEpisode "Show 021.srt" = (1, 21)%Z.
Proof. vm_compute. reflexivity. Qed.
Example extract_none : extractSeasonAndEpisode "Show Finale.mkv" = (1, 0)%Z.
Proof. vm_compute. reflexivity. Qed.
Example Clean_1 : filepath_Clean "a//b/./c/.." = "a/b".
Proof. reflexivity. Qed.
Example Clean_2 : filepath_Clean "/../a/b/../././/c" = "/a/c".
Proof. reflexivity. Qed.
Example Clean_3 : filepath_Clean "../../a/.." = "../..".
Proof. reflexivity. Qed.
Example Clean_4 : filepath_Clean "a/.." = ".".
Proof. reflexivity. Qed.
Example Clean_5 : filepath_Clean "/" = "/".
Proof. reflexivity. Qed.
Example Dir_1 : filepath_Dir "/foo/bar/baz.js" = "/foo/bar".
Proof. reflexivity. Qed.
Example Dir_2 : filepath_Dir "dev.txt" = ".".
Proof. reflexivity. Qed.
Example Dir_3 : filepath_Dir "/a" = "/".
Proof. reflexivity. Qed.
Example Dir_4 : filepath_Dir "/foo/bar/baz/" = "/foo/bar/baz".
Proof. reflexivity. Qed.
Example Base_1 : filepath_Base "/foo/bar/baz.js" = "baz.js".
Proof. reflexivity. Qed.
Example Base_2 : filepath_Base "/foo/bar/baz/" = "baz".
Proof. reflexivity. Qed.
Example Base_3 : filepath_Base "///" = "/".
Proof. reflexivity. Qed.
Example Join_1 : filepath_Join ["a"; "b/c"] = "a/b/c".
Proof. reflexivity. Qed.
Example Join_2 : filepath_Join ["a/b"; "../../../xyz"] = "../xyz".
Proof. reflexivity. Qed.
Example Join_3 : filepath_Join [EmptyString; "b"] = "b".
Proof. reflexivity. Qed.
Example Join_4 : filepath_Join ["/d"; "x.mkv"] = "/d/x.mkv".
Proof. reflexivity. Qed.
Example fmt_02d_7 : fmt_02d 7 = "07".
Proof. reflexivity. Qed.
Example fmt_02d_12 : fmt_02d 12 = "12".
Proof. reflexivity. Qed.
Example fmt_02d_123 : fmt_02d 123 = "123".
Proof. reflexivity. Qed.
Example fmt_02d_neg : fmt_02d (-5) = "-5".
Proof. reflexivity. Qed.
Example TrimSpace_1 : strings_TrimSpace "  a b	 " = "a b".
Proof. reflexivity. Qed.
Example TrimSpace_2 : blank " 	 " = true.
Proof. reflexivity. Qed.
Example TrimSpace_3 : blank "/d/a.mkv" = false.
Proof. reflexivity. Qed.

(* ===================================================================== *)
(** * Properties *)
(* ===================================================================== *)

(** ** Dry run *)

Lemma dry_run_spec operations w :
  dry_run operations w =
  {| fs := fs w;
     stdout := stdout w ++ map dry_line operations;
     invocations := invocations w |}.
Proof.
  revert w. induction operations as [|operation rest IH]; intros w; simpl.
  - rewrite app_nil_r. by destruct w.
  - unfold dry_line at 1.
    destruct (String.eqb (OldPath operation) (NewPath operation));
      rewrite IH; simpl; by rewrite <- app_assoc.
Qed.

(** C6.  In dry-run mode the executor returns nil, never invokes the rename
    function and leaves the file system as it was, whatever the operations
    and the rename function; it prints one line per operation. *)
Theorem dry_run_touches_nothing pid operations renameFn w :
  let '(err, w') := executeRenameOperationsWith pid operations true renameFn w in
  err = None /\ fs w' = fs w /\ invocations w' = invocations w
  /\ stdout w' = stdout w ++ map dry_line operations.
Proof.
  unfold executeRenameOperationsWith. rewrite dry_run_spec. simpl. done.
Qed.

(** ** No-op operations *)

(** The states built are those of the operations that are not no-ops, in
    order, and building them changes neither the file system nor the
    invocation record. *)
Lemma plan_states_frame pid operations index states w :
  fs (snd (plan_states pid operations index states w)) = fs w
  /\ invocations (snd (plan_states pid operations index states w)) = invocations w.
Proof.
  revert index states w.
  induction operations as [|operation rest IH]; intros index states w; simpl.
  - done.
  - destruct (String.eqb (OldPath operation) (NewPath operation)).
    + destruct (IH (index + 1)%Z states
                  (print ("No change: " +:+ OldPath operation) w)) as [-> ->].
      done.
    + destruct (buildTempPath pid (fs w) (OldPath operation) index); [|done].
      apply IH.
Qed.

Lemma plan_states_operations pid operations index states w states' :
  fst (plan_states pid operations index states w) = inl states' ->
  map operation_of states' =
  map operation_of states ++ List.filter (fun o => negb (is_noop o)) operations.
Proof.
  revert index states w.
  induction operations as [|operation rest IH]; intros index states w; simpl.
  - intros [= <-]. by rewrite app_nil_r.
  - unfold is_noop at 1.
    destruct (String.eqb (OldPath operation) (NewPath operation)) eqn:E; simpl.
    + apply IH.
    + destruct (buildTempPath pid (fs w) (OldPath operation) index); [|done].
      intros H. apply IH in H. rewrite H, map_app. simpl.
      by rewrite <- app_assoc.
Qed.

Lemma plan_states_all_noop pid operations index states w :
  Forall (fun o => OldPath o = NewPath o) operations ->
  plan_states pid operations index states w =
  (inl states,
   {| fs := fs w;
      stdout := stdout w ++ map noop_line operations;
      invocations := invocations w |}).
Proof.
  intros Hall. revert index states w.
  induction Hall as [|operation rest Heq Hall IH]; intros index states w; simpl.
  - rewrite app_nil_r. by destruct w.
  - rewrite Heq, String.eqb_refl, IH. simpl.
    rewrite <- app_assoc. simpl. unfold noop_line at 2. by rewrite Heq.
Qed.

(** C8.  When every operation has its source equal to its target, a live
    run builds no rename state at all, never invokes the rename function,
    leaves the file system as it was and returns nil. *)
Theorem all_noop_live_run pid operations renameFn w :
  Forall (fun o => OldPath o = NewPath o) operations ->
  fst (plan_states pid operations 0 [] w) = inl []
  /\ let '(err, w') := executeRenameOperationsWith pid operations false renameFn w in
     err = None /\ fs w' = fs w /\ invocations w' = invocations w
     /\ stdout w' = stdout w ++ map noop_line operations
                      ++ ["No files need renaming."].
Proof.
  intros Hall. unfold executeRenameOperationsWith.
  rewrite (plan_states_all_noop pid operations 0 [] w Hall). simpl.
  rewrite <- app_assoc. done.
Qed.

Lemma all_noop_live_run_witness :
  Forall (fun o => OldPath o = NewPath o) renamed_operations
  /\ fst (plan_states 7 renamed_operations 0 [] (world_of renamed_files)) = inl []
  /\ let '(err, w') :=
       executeRenameOperationsWith 7 renamed_operations false os_Rename
         (world_of renamed_files) in
     err = None /\ fs w' = renamed_files /\ invocations w' = []
     /\ stdout w' = [] ++ map noop_line renamed_operations
                      ++ ["No files need renaming."].
Proof.
  assert (H : Forall (fun o => OldPath o = NewPath o) renamed_operations)
    by (repeat constructor).
  split; [exact H|].
  exact (all_noop_live_run 7 renamed_operations os_Rename
           (world_of renamed_files) H).
Defined.

(** ** The planner *)

Lemma build_from_spec pairs animeName operations :
  build_from pairs animeName operations =
  operations ++
    flat_map (fun p =>
      [ {| OldPath := Path (Video p);
           NewPath := filepath_Join [filepath_Dir (Path (Video p));
                                     newName animeName (Video p)] |};
        {| OldPath := Path (Subtitle p);
           NewPath := filepath_Join [filepath_Dir (Path (Subtitle p));
                                     newName animeName (Subtitle p)] |} ]) pairs.
Proof.
  revert operations. induction pairs as [|p rest IH]; intros operations; simpl.
  - by rewrite app_nil_r.
  - rewrite IH. by rewrite <- !app_assoc.
Qed.

(** C5.  The planner yields two operations per pair, pair by pair with the
    video before the subtitle, each renaming the file to its own directory
    joined with the formatted name; hence [2 * |pairs|] operations. *)
Theorem buildRenameOperations_plan pairs title :
  buildRenameOperations pairs title =
    flat_map (fun p => [ planned_operation title (Video p);
                         planned_operation title (Subtitle p) ]) pairs
  /\ length (buildRenameOperations pairs title) = 2 * length pairs.
Proof.
  unfold buildRenameOperations. rewrite build_from_spec. simpl. split; [done|].
  induction pairs as [|p rest IH]; simpl; [done|]. rewrite IH. lia.
Qed.

(** ** Pairing *)

Lemma last_with_key_Some k files f :
  last_with_key k files = Some f -> matchKey f = k /\ f ∈ files.
Proof.
  induction files as [|g rest IH]; simpl; [done|].
  destruct (last_with_key k rest) as [h|].
  - intros [= ->]. destruct IH as [? ?]; [done|]. split; [done|]. by right.
  - case_decide; [|done]. intros [= ->]. split; [done|]. by left.
Qed.

Lemma last_with_key_is_Some k files :
  is_Some (last_with_key k files) <-> k ∈ map matchKey files.
Proof.
  induction files as [|g rest IH]; simpl.
  - split; [by intros [? ?]|]. by intros ?%elem_of_nil.
  - rewrite elem_of_cons, <- IH.
    destruct (last_with_key k rest) as [h|].
    + split; [by right|by eauto].
    + case_decide as Hk.
      * split; [by left|by eauto].
      * split; [by intros [? ?]|]. intros [->|[? ?]]; done.
Qed.

Lemma last_with_key_app k l1 l2 :
  last_with_key k (l1 ++ l2) =
  match last_with_key k l2 with
  | Some g => Some g
  | None => last_with_key k l1
  end.
Proof.
  induction l1 as [|f l1 IH]; simpl.
  - by destruct (last_with_key k l2).
  - rewrite IH. by destruct (last_with_key k l2).
Qed.

Lemma index_from_lookup (m0 : gmap Z FileInfo) files k :
  foldl (fun m s => <[matchKey s := s]> m) m0 files !! k =
  match last_with_key k files with
  | Some g => Some g
  | None => m0 !! k
  end.
Proof.
  revert m0. induction files as [|f rest IH]; intros m0; simpl; [done|].
  rewrite IH. destruct (last_with_key k rest); [done|].
  rewrite lookup_insert. by case_decide.
Qed.

(** Last write wins: the map built from the subtitles holds, under each
    key, the last subtitle with that key. *)
Lemma index_subtitles_lookup files k :
  index_subtitles files !! k = last_with_key k files.
Proof.
  unfold index_subtitles. rewrite index_from_lookup.
  by destruct (last_with_key k files).
Qed.

Lemma index_subtitles_keyed files : keyed (index_subtitles files).
Proof.
  intros k f. rewrite index_subtitles_lookup.
  by intros [? ?]%last_with_key_Some.
Qed.

Lemma index_subtitles_size files :
  size (index_subtitles files) = length (remove_dups (map matchKey files)).
Proof.
  rewrite <- (size_dom (D := gset Z)).
  rewrite <- (size_list_to_set (C := gset Z)) by apply NoDup_remove_dups.
  f_equal. apply set_eq. intros k.
  rewrite elem_of_dom, elem_of_list_to_set, elem_of_remove_dups.
  rewrite index_subtitles_lookup. apply last_with_key_is_Some.
Qed.

Lemma remove_dups_NoDup_id {A} `{EqDecision A} (l : list A) :
  NoDup l -> remove_dups l = l.
Proof.
  induction 1 as [|x l Hx Hl IH]; simpl; [done|].
  rewrite IH. destruct (decide_rel elem_of x l); done.
Qed.

Lemma pair_videos_acc videoFiles pairs unmatched subtitleMap :
  pair_videos videoFiles pairs unmatched subtitleMap =
  let '(P, U, m') := pair_videos videoFiles [] [] subtitleMap in
  (pairs ++ P, unmatched ++ U, m').
Proof.
  revert pairs unmatched subtitleMap.
  induction videoFiles as [|video rest IH]; intros pairs unmatched m; simpl.
  - by rewrite !app_nil_r.
  - destruct (m !! matchKey video) as [subtitle|].
    + rewrite (IH (pairs ++ _)), (IH [_]).
      destruct (pair_videos rest [] [] _) as [[P U] m'].
      by rewrite <- app_assoc.
    + rewrite (IH pairs (unmatched ++ _)), (IH [] [_]).
      destruct (pair_videos rest [] [] m) as [[P U] m'].
      by rewrite <- app_assoc.
Qed.

(** What the loop over the videos establishes. *)
Lemma pair_videos_spec videoFiles (m : gmap Z FileInfo) P U m' :
  pair_videos videoFiles [] [] m = (P, U, m') ->
  Forall (fun p => Video p ∈ videoFiles
                   /\ m !! matchKey (Video p) = Some (Subtitle p)
                   /\ m' !! matchKey (Video p) = None) P
  /\ m' ⊆ m
  /\ U `sublist_of` videoFiles
  /\ length videoFiles = length P + length U
  /\ size m = size m' + length P.
Proof.
  revert m P U m'.
  induction videoFiles as [|video rest IH]; intros m P U m'; simpl.
  - intros [= <- <- <-]. repeat split; try done; simpl; lia.
  - destruct (m !! matchKey video) as [subtitle|] eqn:Hm.
    + rewrite pair_videos_acc.
      destruct (pair_videos rest [] [] (delete (matchKey video) m))
        as [[P1 U1] m1] eqn:Hrest.
      intros [= <- <- <-].
      destruct (IH _ _ _ _ Hrest) as (HP & Hsub & HU & Hlen & Hsize).
      assert (Hm1 : m1 ⊆ m).
      { etrans; [exact Hsub|]. apply delete_subseteq. }
      repeat split.
      * simpl. constructor.
        -- simpl. split; [by left|]. split; [done|].
           eapply lookup_weaken_None; [|exact Hsub]. apply lookup_delete_eq.
        -- eapply Forall_impl; [exact HP|]. simpl.
           intros p (Hin & Hlook & Hnone). split; [by right|]. split; [|done].
           eapply lookup_weaken; [exact Hlook|]. apply delete_subseteq.
      * done.
      * simpl. by apply sublist_cons.
      * simpl. lia.
      * rewrite <- (insert_delete_id m (matchKey video) subtitle Hm) at 1.
        rewrite map_size_insert_None by apply lookup_delete_eq.
        simpl. lia.
    + rewrite pair_videos_acc.
      destruct (pair_videos rest [] [] m) as [[P1 U1] m1] eqn:Hrest.
      intros [= <- <- <-].
      destruct (IH _ _ _ _ Hrest) as (HP & Hsub & HU & Hlen & Hsize).
      repeat split.
      * simpl. eapply Forall_impl; [exact HP|]. simpl.
        intros p (Hin & Hlook & Hnone). split; [by right|]. done.
      * done.
      * simpl. by apply sublist_skip.
      * simpl. lia.
      * simpl. lia.
Qed.

Lemma leftover_lookup range_map (m : gmap Z FileInfo) u :
  range_order_ok range_map ->
  u ∈ map snd (range_map m) -> exists k, m !! k = Some u.
Proof.
  intros Hok Hin. apply list_elem_of_In, in_map_iff in Hin as [[k v] [Heq Hin]].
  simpl in Heq. subst v. apply list_elem_of_In in Hin.
  rewrite (Hok m) in Hin. apply elem_of_map_to_list in Hin. eauto.
Qed.

Lemma leftover_length range_map (m : gmap Z FileInfo) :
  range_order_ok range_map -> length (map snd (range_map m)) = size m.
Proof.
  intros Hok. rewrite length_map, (Permutation_length (Hok m)).
  apply length_map_to_list.
Qed.

Lemma map_order_ok : range_order_ok map_order.
Proof. intros m. reflexivity. Qed.

(** C3, as the code has it.  Every pair joins two files of equal key; the
    unmatched output is the unpaired videos followed by the subtitles left
    over, none of which has the key of a pair; and twice the pairs plus the
    unmatched files count the videos plus the distinct subtitle keys, that
    is the videos plus the subtitles when no two subtitles share a key. *)
Theorem createFilePairs_accounting range_map videoFiles subtitleFiles :
  range_order_ok range_map ->
  let '(pairs, unmatched) := createFilePairs range_map videoFiles subtitleFiles in
  Forall (fun p => matchKey (Video p) = matchKey (Subtitle p)) pairs
  /\ (exists unpaired leftover,
        unmatched = unpaired ++ leftover
        /\ unpaired `sublist_of` videoFiles
        /\ Forall (fun u => u ∈ subtitleFiles) leftover
        /\ Forall (fun p =>
             Forall (fun u => matchKey u <> matchKey (Subtitle p)) leftover) pairs)
  /\ 2 * length pairs + length unmatched
     = length videoFiles + length (remove_dups (map matchKey subtitleFiles))
  /\ (NoDup (map matchKey subtitleFiles) ->
      2 * length pairs + length unmatched
      = length videoFiles + length subtitleFiles).
Proof.
  intros Hok. unfold createFilePairs.
  destruct (pair_videos videoFiles [] [] (index_subtitles subtitleFiles))
    as [[P U] m'] eqn:Hrun.
  apply pair_videos_spec in Hrun as (HP & Hsub & HU & Hlen & Hsize).
  pose proof (index_subtitles_keyed subtitleFiles) as Hkeyed.
  assert (Hcount : 2 * length P + length (U ++ map snd (range_map m'))
                   = length videoFiles
                     + length (remove_dups (map matchKey subtitleFiles))).
  { rewrite length_app, leftover_length by done.
    rewrite <- index_subtitles_size. lia. }
  split; [|split; [|split]].
  - eapply Forall_impl; [exact HP|]. simpl. intros p (_ & Hlook & _).
    symmetry. by apply Hkeyed.
  - exists U, (map snd (range_map m')). split; [done|]. split; [done|]. split.
    + apply Forall_forall. intros u Hu.
      destruct (leftover_lookup _ _ _ Hok Hu) as [k Hk].
      eapply lookup_weaken in Hk; [|exact Hsub].
      rewrite index_subtitles_lookup in Hk.
      by apply last_with_key_Some in Hk as [_ ?].
    + eapply Forall_impl; [exact HP|]. simpl. intros p (_ & Hlook & Hnone).
      apply Forall_forall. intros u Hu Heq.
      destruct (leftover_lookup _ _ _ Hok Hu) as [k Hk].
      assert (matchKey u = k) as <-.
      { apply Hkeyed. eapply lookup_weaken; [exact Hk|exact Hsub]. }
      rewrite Heq, (Hkeyed _ _ Hlook) in Hk. congruence.
  - exact Hcount.
  - intros Hnd. rewrite Hcount, (remove_dups_NoDup_id _ Hnd), length_map. done.
Qed.

Lemma createFilePairs_accounting_witness :
  range_order_ok map_order
  /\ let '(pairs, unmatched) :=
       createFilePairs map_order [ep01_mkv] [ep01_srt; ep02_srt] in
     Forall (fun p => matchKey (Video p) = matchKey (Subtitle p)) pairs
     /\ (exists unpaired leftover,
           unmatched = unpaired ++ leftover
           /\ unpaired `sublist_of` [ep01_mkv]
           /\ Forall (fun u => u ∈ [ep01_srt; ep02_srt]) leftover
           /\ Forall (fun p =>
                Forall (fun u => matchKey u <> matchKey (Subtitle p)) leftover) pairs)
     /\ 2 * length pairs + length unmatched
        = length [ep01_mkv]
          + length (remove_dups (map matchKey [ep01_srt; ep02_srt]))
     /\ (NoDup (map matchKey [ep01_srt; ep02_srt]) ->
         2 * length pairs + length unmatched
         = length [ep01_mkv] + length [ep01_srt; ep02_srt]).
Proof.
  split; [exact map_order_ok|].
  exact (createFilePairs_accounting map_order [ep01_mkv] [ep01_srt; ep02_srt]
           map_order_ok).
Defined.

(** C3, as stated, fails: one video and one subtitle of the same key give
    one pair and nothing unmatched, so the two sides are 1 and 2. *)
Lemma pair_count_counterexample :
  let '(pairs, unmatched) := createFilePairs map_order [ep01_mkv] [ep01_srt] in
  length pairs + length unmatched <> length [ep01_mkv] + length [ep01_srt].
Proof. vm_compute. lia. Qed.

(** C9.  A subtitle followed, later in the input, by another file of the
    same key is overwritten in the map: it is in no pair and not among the
    unmatched files (the file being told apart from the later subtitles and
    from the videos).  Only the last subtitle of a key can come out: the
    subtitle of every pair is the last one of its key, and so is every
    unmatched file that is not a video. *)
Theorem earlier_duplicate_dropped range_map videoFiles before c after :
  range_order_ok range_map ->
  Exists (fun c' => matchKey c' = matchKey c) after ->
  c ∉ after ->
  c ∉ videoFiles ->
  index_subtitles (before ++ c :: after) !! matchKey c <> Some c
  /\ let '(pairs, unmatched) :=
       createFilePairs range_map videoFiles (before ++ c :: after) in
     (c ∉ map Subtitle pairs)
     /\ (c ∉ unmatched)
     /\ Forall (fun p =>
          last_with_key (matchKey (Subtitle p)) (before ++ c :: after)
          = Some (Subtitle p)) pairs
     /\ Forall (fun u =>
          u ∈ videoFiles
          \/ last_with_key (matchKey u) (before ++ c :: after) = Some u) unmatched.
Proof.
  intros Hok Hdup Hafter Hvideo.
  set (subtitleFiles := before ++ c :: after).
  pose proof (index_subtitles_keyed subtitleFiles) as Hkeyed.
  assert (Hover : index_subtitles subtitleFiles !! matchKey c <> Some c).
  { rewrite index_subtitles_lookup. unfold subtitleFiles.
    rewrite last_with_key_app. change (c :: after) with ([c] ++ after).
    rewrite last_with_key_app.
    destruct (last_with_key (matchKey c) after) as [g|] eqn:Hg.
    - apply last_with_key_Some in Hg as [_ Hin]. congruence.
    - exfalso. apply Exists_exists in Hdup as (c' & Hin & Hkey).
      assert (is_Some (last_with_key (matchKey c) after)) as [? ?]; [|congruence].
      apply last_with_key_is_Some. rewrite <- Hkey.
      apply list_elem_of_In, in_map, list_elem_of_In, Hin. }
  split; [exact Hover|]. unfold createFilePairs.
  destruct (pair_videos videoFiles [] [] (index_subtitles subtitleFiles))
    as [[P U] m'] eqn:Hrun.
  apply pair_videos_spec in Hrun as (HP & Hsub & HU & Hlen & Hsize).
  assert (Hleft : forall u, u ∈ map snd (range_map m') ->
            index_subtitles subtitleFiles !! matchKey u = Some u).
  { intros u Hin. destruct (leftover_lookup _ _ _ Hok Hin) as [k Hk].
    eapply lookup_weaken in Hk; [|exact Hsub].
    by rewrite (Hkeyed _ _ Hk). }
  split; [|split; [|split]].
  - intros Hin. apply list_elem_of_In, in_map_iff in Hin as (p & Hp & Hin).
    apply list_elem_of_In in Hin.
    rewrite Forall_forall in HP. destruct (HP p Hin) as (_ & Hlook & _).
    pose proof (Hkeyed _ _ Hlook) as Hk. rewrite <- Hk, Hp in Hlook. done.
  - intros [Hin|Hin]%elem_of_app.
    + apply Hvideo. eapply elem_of_sublist; [exact Hin|exact HU].
    + by apply Hleft in Hin.
  - eapply Forall_impl; [exact HP|]. simpl. intros p (_ & Hlook & _).
    pose proof (Hkeyed _ _ Hlook) as Hk. rewrite <- Hk in Hlook.
    by rewrite index_subtitles_lookup in Hlook.
  - apply Forall_app. split.
    + apply Forall_forall. intros u Hu. left.
      eapply elem_of_sublist; [exact Hu|exact HU].
    + apply Forall_forall. intros u Hu. right.
      rewrite <- index_subtitles_lookup. by apply Hleft.
Qed.

Lemma earlier_duplicate_dropped_witness :
  (range_order_ok map_order
   /\ Exists (fun c' => matchKey c' = matchKey ep01_srt) [ep01_ass]
   /\ (ep01_srt ∉ [ep01_ass])
   /\ (ep01_srt ∉ [ep01_mkv]))
  /\ index_subtitles ([ep02_srt] ++ ep01_srt :: [ep01_ass]) !! matchKey ep01_srt
     <> Some ep01_srt
  /\ let '(pairs, unmatched) :=
       createFilePairs map_order [ep01_mkv] ([ep02_srt] ++ ep01_srt :: [ep01_ass]) in
     (ep01_srt ∉ map Subtitle pairs)
     /\ (ep01_srt ∉ unmatched)
     /\ Forall (fun p =>
          last_with_key (matchKey (Subtitle p)) ([ep02_srt] ++ ep01_srt :: [ep01_ass])
          = Some (Subtitle p)) pairs
     /\ Forall (fun u =>
          u ∈ [ep01_mkv]
          \/ last_with_key (matchKey u) ([ep02_srt] ++ ep01_srt :: [ep01_ass])
             = Some u) unmatched.
Proof.
  assert (H1 : Exists (fun c' => matchKey c' = matchKey ep01_srt) [ep01_ass])
    by (left; reflexivity).
  assert (H2 : ep01_srt ∉ [ep01_ass])
    by (intros H; apply list_elem_of_In in H; simpl in H;
        destruct H as [H|[]]; discriminate H).
  assert (H3 : ep01_srt ∉ [ep01_mkv])
    by (intros H; apply list_elem_of_In in H; simpl in H;
        destruct H as [H|[]]; discriminate H).
  split; [exact (conj map_order_ok (conj H1 (conj H2 H3)))|].
  exact (earlier_duplicate_dropped map_order [ep01_mkv] [ep02_srt] ep01_srt
           [ep01_ass] map_order_ok H1 H2 H3).
Defined.

(** With two subtitles of one key the later one is paired. *)
Example later_duplicate_paired :
  createFilePairs map_order [ep01_mkv] [ep01_srt; ep01_ass]
  = ([ {| Video := ep01_mkv; Subtitle := ep01_ass |} ], []).
Proof. vm_compute. reflexivity. Qed.

(** ** Preflight *)

Lemma duplicate_issue_inj t1 t2 :
  duplicate_issue t1 = duplicate_issue t2 -> t1 = t2.
Proof. unfold duplicate_issue. intros [= H]. exact H. Qed.

Lemma contenders_snoc stat target seen operation :
  contenders stat target (seen ++ [operation]) =
  contenders stat target seen
  + (if registers stat target operation then 1 else 0).
Proof.
  unfold contenders. rewrite List.filter_app, length_app. simpl.
  by destruct (registers stat target operation).
Qed.

Lemma duplicate_reports_snoc issues target issue :
  duplicate_reports (issues ++ [issue]) target =
  duplicate_reports issues target
  + (if string_dec issue (duplicate_issue target) then 1 else 0).
Proof.
  unfold duplicate_reports. rewrite count_occ_app. simpl.
  by destruct (string_dec issue (duplicate_issue target)).
Qed.

Lemma preflight_step_inv stat target st seen operation :
  preflight_inv stat target st seen ->
  preflight_inv stat target (preflight_step stat st operation) (seen ++ [operation]).
Proof.
  destruct st as [[issues sourcePaths] targetPaths].
  unfold preflight_inv, preflight_step. intros [Hin Hcount].
  rewrite contenders_snoc. unfold registers, reaches_target_check.
  destruct (blank (OldPath operation)); simpl.
  { rewrite duplicate_reports_snoc, Nat.add_0_r.
    destruct (string_dec _ _) as [E|_]; [discriminate E|].
    rewrite Nat.add_0_r. done. }
  destruct (blank (NewPath operation)); simpl.
  { rewrite duplicate_reports_snoc, Nat.add_0_r.
    destruct (string_dec _ _) as [E|_]; [discriminate E|].
    rewrite Nat.add_0_r. done. }
  destruct (stat (OldPath operation)); simpl;
    try (rewrite duplicate_reports_snoc, Nat.add_0_r;
         destruct (string_dec _ _) as [E|_]; [discriminate E|];
         rewrite Nat.add_0_r; done).
  destruct (String.eqb (OldPath operation) (NewPath operation)); simpl.
  { rewrite Nat.add_0_r. done. }
  destruct (String.eqb_spec (NewPath operation) target) as [->|Hne].
  - case_decide as Hmem.
    + rewrite duplicate_reports_snoc.
      destruct (string_dec _ _) as [_|N]; [|done].
      apply Hin in Hmem. split; [|lia]. split; [lia|]. intros _. by apply Hin.
    + assert (contenders stat target seen = 0) as Hz.
      { destruct (contenders stat target seen); [done|].
        exfalso. apply Hmem, Hin. lia. }
      rewrite Hz in *. simpl. split; [|done].
      split; [lia|]. intros _. apply elem_of_union_l, elem_of_singleton. done.
  - rewrite Nat.add_0_r. case_decide as Hmem.
    + rewrite duplicate_reports_snoc.
      destruct (string_dec _ _) as [E|_].
      * by apply duplicate_issue_inj in E.
      * rewrite Nat.add_0_r. done.
    + split; [|done]. rewrite <- Hin, elem_of_union, elem_of_singleton.
      split; [intros [E|E]; [by subst|done]|by right].
Qed.

Lemma preflight_loop_inv stat target operations st seen :
  preflight_inv stat target st seen ->
  preflight_inv stat target (foldl (preflight_step stat) st operations)
    (seen ++ operations).
Proof.
  revert st seen. induction operations as [|operation rest IH]; intros st seen H.
  - by rewrite app_nil_r.
  - simpl. replace (seen ++ operation :: rest) with ((seen ++ [operation]) ++ rest)
      by (by rewrite <- app_assoc).
    apply IH. by apply preflight_step_inv.
Qed.

Lemma target_loop_reports stat sourcePaths targets issues target :
  duplicate_reports (foldl (target_step stat sourcePaths) issues targets) target
  = duplicate_reports issues target.
Proof.
  revert issues. induction targets as [|t rest IH]; intros issues; simpl; [done|].
  rewrite IH. unfold target_step. case_decide; [done|].
  destruct (stat t); [|done|];
    rewrite duplicate_reports_snoc;
    (destruct (string_dec _ _) as [E|_]; [discriminate E|]); lia.
Qed.

(** C4, as the code has it.  For every target path, the issues list one
    duplicate-target issue for each operation after the first among those
    that reach the duplicate check (source and target not blank, source
    stat'ed without error, source different from target).  An operation
    stopped by an earlier check neither registers its target nor is
    reported as a duplicate. *)
Theorem preflight_duplicate_reports stat range_set operations target :
  duplicate_reports (preflight_issues stat range_set operations) target
  = pred (contenders stat target operations).
Proof.
  unfold preflight_issues.
  set (issues0 := match operations with
                  | [] => ["no matched file pairs were found"]
                  | _ => []
                  end).
  assert (H0 : preflight_inv stat target (issues0, ∅, ∅) []).
  { unfold preflight_inv, contenders. simpl. split.
    - split; [by intros ?%not_elem_of_empty|lia].
    - unfold issues0. destruct operations; [|done].
      change (duplicate_reports ([] ++ ["no matched file pairs were found"]) target
              = 0).
      rewrite duplicate_reports_snoc.
      destruct (string_dec _ _) as [E|_]; [discriminate E|done]. }
  apply (preflight_loop_inv stat target operations) in H0. simpl in H0.
  destruct (foldl (preflight_step stat) (issues0, ∅, ∅) operations)
    as [[issues sourcePaths] targetPaths].
  destruct H0 as [_ H0]. by rewrite target_loop_reports.
Qed.

(** Two operations with existing sources and one target: one report. *)
Example preflight_duplicate_reported :
  duplicate_reports
    (preflight_issues (os_Stat both_sources) elements_order same_target_operations)
    "/d/Anime - S01E01.mkv" = 1.
Proof. vm_compute. reflexivity. Qed.

(** C4, as stated, fails: when the first of two operations with the same
    target has a missing source, the second is not reported as a
    duplicate; the only issue is the missing source. *)
Lemma duplicate_after_missing_source_counterexample :
  preflight_issues (os_Stat only_subtitle) elements_order same_target_operations
  = [ missing_source_issue "/d/ep 01.mkv" ]
  /\ ~ In (duplicate_issue "/d/Anime - S01E01.mkv")
          (preflight_issues (os_Stat only_subtitle) elements_order
             same_target_operations).
Proof.
  assert (H : preflight_issues (os_Stat only_subtitle) elements_order
                same_target_operations
              = [ missing_source_issue "/d/ep 01.mkv" ]) by (vm_compute; reflexivity).
  split; [exact H|]. rewrite H. intros [E|[]]. discriminate E.
Qed.

(** ** The matcher: what captures hold *)

Lemma str_unstr l : unstr (str l) = l.
Proof. apply list_ascii_of_string_of_list_ascii. Qed.

Lemma unstr_str s : str (unstr s) = s.
Proof. apply string_of_list_ascii_of_string. Qed.

Lemma take_consumed (pre s' : bytes) :
  take (length (pre ++ s') - length s') (pre ++ s') = pre.
Proof.
  rewrite length_app. replace (length pre + length s' - length s') with (length pre) by lia.
  by rewrite take_app_length.
Qed.

Section Soundness.
Context {R : Type}.
Implicit Types (k : bytes -> caps -> option R) (x : R).

(** Unfolding a greedy loop under a property of its step. *)
Lemma star_loop_sound (P : bytes -> caps -> bytes -> caps -> Prop)
    (step : bytes -> caps -> (bytes -> caps -> option R) -> option R) :
  (forall s c, P s c s c) ->
  (forall s c s1 c1 s2 c2, P s c s1 c1 -> P s1 c1 s2 c2 -> P s c s2 c2) ->
  (forall s c k x, step s c k = Some x ->
     exists s' c', P s c s' c' /\ k s' c' = Some x) ->
  forall n s c k x, star_loop step k n s c = Some x ->
    exists s' c', P s c s' c' /\ k s' c' = Some x.
Proof.
  intros Hrefl Htrans Hstep. induction n as [|n IH]; intros s c k x; simpl.
  - intros H. eauto.
  - destruct (step s c _) as [y|] eqn:Hs.
    + intros [= ->]. apply Hstep in Hs as (s1 & c1 & HP & Hk).
      destruct (length s1 <? length s)%nat; [|done].
      apply IH in Hk as (s2 & c2 & HP2 & Hk). eauto.
    + intros H. eauto.
Qed.

(** A digits-only expression consumes digits and leaves the captures. *)
Lemma run_digit_only a :
  digit_only a = true ->
  forall s c k x, run a s c k = Some x ->
    exists s' c', (c' = c /\ exists pre, s = pre ++ s' /\ all_digits pre)
                  /\ k s' c' = Some x.
Proof.
  induction a as [b| | | |a IHa b IHb|a IHa b IHb|a IHa|i a IHa|];
    simpl; try discriminate; intros Hd s c k x.
  - destruct s as [|d s']; [done|]. destruct (isDigit d) eqn:Ed; [|done].
    intros H. exists s', c. split; [|done]. split; [done|].
    exists [d]. split; [done|]. by repeat constructor.
  - intros H. exists s, c. split; [|done]. split; [done|]. exists [].
    split; [done|constructor].
  - apply andb_true_iff in Hd as [Ha Hb]. intros H.
    apply (IHa Ha) in H as (s1 & c1 & (-> & pre1 & -> & Hp1) & H).
    apply (IHb Hb) in H as (s2 & c2 & (-> & pre2 & -> & Hp2) & H).
    exists s2, c. split; [|done]. split; [done|].
    exists (pre1 ++ pre2). split; [by rewrite app_assoc|]. by apply Forall_app.
  - apply andb_true_iff in Hd as [Ha Hb].
    destruct (run a s c k) as [y|] eqn:Hr.
    + intros [= ->]. by apply (IHa Ha) in Hr.
    + intros H. by apply (IHb Hb) in H.
  - apply (star_loop_sound
             (fun s c s' c' => c' = c /\ exists pre, s = pre ++ s' /\ all_digits pre)).
    + intros s0 c0. split; [done|]. exists []. split; [done|constructor].
    + intros s0 c0 s1 c1 s2 c2 (-> & pre1 & -> & Hp1) (-> & pre2 & -> & Hp2).
      split; [done|]. exists (pre1 ++ pre2).
      split; [by rewrite app_assoc|]. by apply Forall_app.
    + intros s0 c0 k0 x0. by apply IHa.
Qed.

(** When every group is digits-only, so is every capture. *)
Lemma run_caps_digits r :
  digit_groups r = true ->
  forall s c k x, run r s c k = Some x ->
    exists s' c', (caps_digits c -> caps_digits c') /\ k s' c' = Some x.
Proof.
  induction r as [b| | | |a IHa b IHb|a IHa b IHb|a IHa|i a IHa|];
    simpl; intros Hd s c k x.
  - destruct s as [|d s']; [done|]. destruct (Ascii.eqb d b); [|done]. eauto.
  - destruct s as [|d s']; [done|]. destruct (isDigit d); [|done]. eauto.
  - destruct s as [|d s']; [done|]. destruct (isSpace d); [|done]. eauto.
  - eauto.
  - apply andb_true_iff in Hd as [Ha Hb]. intros H.
    apply (IHa Ha) in H as (s1 & c1 & H1 & H).
    apply (IHb Hb) in H as (s2 & c2 & H2 & H). eauto 6.
  - apply andb_true_iff in Hd as [Ha Hb].
    destruct (run a s c k) as [y|] eqn:Hr.
    + intros [= ->]. by apply (IHa Ha) in Hr.
    + intros H. by apply (IHb Hb) in H.
  - apply (star_loop_sound (fun s c s' c' => caps_digits c -> caps_digits c')).
    + done.
    + intros s0 c0 s1 c1 s2 c2 H1 H2. auto.
    + intros s0 c0 k0 x0. by apply IHa.
  - intros H. apply (run_digit_only a Hd) in H as (s' & c' & (-> & pre & -> & Hp) & H).
    rewrite take_consumed in H. eexists _, _. split; [|exact H].
    intros Hc. by constructor.
  - destruct s; [|done]. eauto.
Qed.
End Soundness.

Lemma search_caps_digits r s from rest c :
  digit_groups r = true ->
  search r s = Some (from, rest, c) -> caps_digits c.
Proof.
  intros Hd. induction s as [|d s IH]; simpl.
  - destruct (match_here r []) as [m|] eqn:Hm; [|done]. intros [= ->].
    apply (run_caps_digits r Hd) in Hm as (s' & c' & Hc & [= <- <- <-]).
    apply Hc. constructor.
  - destruct (match_here r (d :: s)) as [m|] eqn:Hm; [|exact IH]. intros [= ->].
    apply (run_caps_digits r Hd) in Hm as (s' & c' & Hc & [= <- <- <-]).
    apply Hc. constructor.
Qed.

Lemma capture_digits i c : caps_digits c -> all_digits (capture i c).
Proof.
  induction 1 as [|[j v] c Hv Hc IH]; simpl; [constructor|].
  by destruct (Nat.eqb i j).
Qed.

Lemma parse_digits_nonneg s acc v :
  (0 <= acc)%Z -> parse_digits acc s = Some v -> (0 <= v)%Z.
Proof.
  revert acc. induction s as [|d s IH]; intros acc Hacc; simpl.
  - by intros [= <-].
  - unfold digit_val. destruct (isDigit d) eqn:Ed; [|done].
    apply IH. unfold isDigit in Ed. apply andb_true_iff in Ed as [E1 E2].
    apply N.leb_le in E1. lia.
Qed.

Lemma sign_split_digit d v :
  isDigit d = true -> sign_split (d :: v) = (false, d :: v).
Proof.
  intros H. destruct d as [[] [] [] [] [] [] [] []]; try reflexivity; discriminate H.
Qed.

(** A digit string never parses to a negative number. *)
Lemma Atoi_digits_nonneg v e :
  all_digits v -> Atoi (str v) = Some e -> (0 <= e)%Z.
Proof.
  intros Hv. unfold Atoi. rewrite str_unstr.
  destruct v as [|d v]; [done|].
  apply Forall_cons in Hv as [Hd Hv]. rewrite (sign_split_digit d v Hd).
  destruct (parse_digits 0 (d :: v)) as [v0|] eqn:Hp; [|done].
  destruct (_ && _); [|done]. intros [= <-].
  eapply parse_digits_nonneg; [|exact Hp]. lia.
Qed.

(** ** The extraction cascade *)

Lemma submatch_group whole (f : nat -> string) n i :
  (1 <= i)%nat -> (i <= n)%nat ->
  submatch (whole :: map f (seq 1 n)) i = f i.
Proof.
  intros H1 Hn. unfold submatch. destruct i as [|j]; [lia|]. simpl.
  rewrite (nth_indep _ EmptyString (f 0%nat)) by (rewrite length_map, length_seq; lia).
  rewrite map_nth, seq_nth by lia. done.
Qed.

(** One round of the loop: a well-formed pattern ends the cascade exactly
    when it yields, and with its yield. *)
Lemma extract_from_step pattern rest name :
  well_formed pattern = true ->
  extract_from (pattern :: rest) name =
  match rule_yields pattern name with
  | Some r => r
  | None => extract_from rest name
  end.
Proof.
  unfold well_formed. rewrite !andb_true_iff.
  intros [[[Hd H1] He] Hs]. apply Nat.leb_le in H1, He, Hs.
  simpl. unfold rule_yields, season_of, FindStringSubmatch.
  destruct (search (regex_of pattern) (unstr name)) as [[[from rs] c]|] eqn:Hsearch.
  - set (whole := str (take (length from - length rs) from)).
    set (f := fun i => str (capture i c)).
    set (match_ := whole :: map f (seq 1 (NumSubexp (regex_of pattern)))).
    assert (Hlen : (length match_ <=? episodeIndex pattern)%nat = false).
    { apply Nat.leb_gt. unfold match_. simpl. rewrite length_map, length_seq. lia. }
    rewrite Hlen. unfold match_ at 1 3.
    rewrite (submatch_group whole f _ _ H1 He). unfold f.
    destruct (Atoi (str (capture (episodeIndex pattern) c))) as [episode|] eqn:Ha;
      [|done].
    assert (0 <= episode)%Z as Hnn.
    { eapply Atoi_digits_nonneg; [|exact Ha].
      apply capture_digits. by eapply search_caps_digits. }
    destruct (Z.eqb_spec episode 0) as [->|Hne]; [done|].
    assert ((0 <? episode)%Z = true) as -> by (apply Z.ltb_lt; lia).
    destruct (0 <? seasonIndex pattern)%nat; [|done].
    destruct (Atoi (submatch match_ (seasonIndex pattern))) as [season|]; [|done].
    by rewrite Z.gtb_ltb.
  - done.
Qed.

Lemma extract_from_first_yield rules name :
  forallb well_formed rules = true ->
  extract_from rules name =
  match first_yield rules name with
  | Some r => r
  | None => (1, 0)%Z
  end.
Proof.
  induction rules as [|rule rest IH]; [done|].
  intros [Hw Hrest]%andb_true_iff.
  rewrite extract_from_step by done. simpl.
  destruct (rule_yields rule name); [done|]. by apply IH.
Qed.

(** C2.  The five rules are tried in their fixed order on the name without
    its extension; the result is the yield of the first rule that matches
    with an episode capture parsing to an integer greater than zero (the
    rules before it being skipped), and season 1, episode 0 when no rule
    yields. *)
Theorem extraction_cascade filename :
  map regex_of episodePatterns
  = [re_season_dash; re_season_episode; re_episode; re_dash; re_bare]
  /\ extractSeasonAndEpisode filename =
     match first_yield episodePatterns
             (strings_TrimSuffix filename (filepath_Ext filename)) with
     | Some r => r
     | None => (1, 0)%Z
     end.
Proof.
  split; [reflexivity|].
  unfold extractSeasonAndEpisode. by apply extract_from_first_yield.
Qed.

(** A rule that parses to episode zero is skipped and a later rule decides. *)
Example zero_episode_skipped :
  extractSeasonAndEpisode "Show S00E00 - 07.mkv" = (1, 7)%Z.
Proof. vm_compute. reflexivity. Qed.

(** ** Case of the markers *)

Lemma lower_marker_digit x : isDigit (lower_marker x) = isDigit x.
Proof. destruct x as [[] [] [] [] [] [] [] []]; reflexivity. Qed.

Lemma lower_marker_space x : isSpace (lower_marker x) = isSpace x.
Proof. destruct x as [[] [] [] [] [] [] [] []]; reflexivity. Qed.

Lemma lower_marker_digit_val x : digit_val (lower_marker x) = digit_val x.
Proof. destruct x as [[] [] [] [] [] [] [] []]; reflexivity. Qed.

Lemma lower_marker_dash x :
  Ascii.eqb (lower_marker x) "-"%char = Ascii.eqb x "-"%char.
Proof. destruct x as [[] [] [] [] [] [] [] []]; reflexivity. Qed.

Lemma lower_marker_lparen x :
  Ascii.eqb (lower_marker x) "("%char = Ascii.eqb x "("%char.
Proof. destruct x as [[] [] [] [] [] [] [] []]; reflexivity. Qed.

Lemma lower_marker_rparen x :
  Ascii.eqb (lower_marker x) ")"%char = Ascii.eqb x ")"%char.
Proof. destruct x as [[] [] [] [] [] [] [] []]; reflexivity. Qed.

Lemma lower_marker_slash x :
  Ascii.eqb (lower_marker x) "/"%char = Ascii.eqb x "/"%char.
Proof. destruct x as [[] [] [] [] [] [] [] []]; reflexivity. Qed.

Lemma lower_marker_dot x :
  Ascii.eqb (lower_marker x) "."%char = Ascii.eqb x "."%char.
Proof. destruct x as [[] [] [] [] [] [] [] []]; reflexivity. Qed.

Lemma stable_Byte b :
  (forall x, Ascii.eqb (lower_marker x) b = Ascii.eqb x b) -> stable (Byte b).
Proof.
  intros Hb R R' g s c k k' Hk. destruct s as [|x t]; simpl; [done|].
  rewrite Hb. destruct (Ascii.eqb x b); [apply Hk|done].
Qed.

Lemma stable_Digit : stable Digit.
Proof.
  intros R R' g s c k k' Hk. destruct s as [|x t]; simpl; [done|].
  rewrite lower_marker_digit. destruct (isDigit x); [apply Hk|done].
Qed.

Lemma stable_Space : stable Space.
Proof.
  intros R R' g s c k k' Hk. destruct s as [|x t]; simpl; [done|].
  rewrite lower_marker_space. destruct (isSpace x); [apply Hk|done].
Qed.

Lemma stable_Empty : stable Empty.
Proof. intros R R' g s c k k' Hk. simpl. apply Hk. Qed.

Lemma stable_EndText : stable EndText.
Proof.
  intros R R' g s c k k' Hk. destruct s as [|x t]; simpl; [|done].
  apply (Hk [] c).
Qed.

Lemma stable_Cat a b : stable a -> stable b -> stable (Cat a b).
Proof.
  intros Ha Hb R R' g s c k k' Hk. simpl.
  apply Ha. intros s' c'. by apply Hb.
Qed.

Lemma stable_Alt a b : stable a -> stable b -> stable (Alt a b).
Proof.
  intros Ha Hb R R' g s c k k' Hk. simpl.
  rewrite (Ha R R' g s c k k' Hk).
  destruct (run a s c k); simpl; [done|]. by apply Hb.
Qed.

Lemma stable_Star a : stable a -> stable (Star a).
Proof.
  intros Ha R R' g s c k k' Hk. simpl. rewrite length_map.
  generalize (length s) as n. intros n. revert s c.
  induction n as [|n IH]; intros s c; simpl; [apply Hk|].
  rewrite (Ha R R' g s c
             (fun s' c' => if (length s' <? length s)%nat
                           then star_loop (run a) k n s' c' else None)).
  - destruct (run a s c _); simpl; [done|]. apply Hk.
  - intros s' c'. rewrite !length_map.
    destruct (length s' <? length s)%nat; [apply IH|done].
Qed.

Lemma stable_Group i a : stable a -> stable (Group i a).
Proof.
  intros Ha R R' g s c k k' Hk. simpl.
  apply Ha. intros s' c'. rewrite !length_map, firstn_map.
  apply (Hk s' ((i, take (length s - length s') s) :: c')).
Qed.

Lemma stable_FoldS : stable FoldS.
Proof.
  intros R R' g s c k k' Hk. destruct s as [|x t]; [reflexivity|].
  destruct x as [[] [] [] [] [] [] [] []]; try reflexivity; simpl;
    try (rewrite (Hk t c); destruct (k t c); reflexivity).
  destruct t as [|y u]; [reflexivity|].
  destruct y as [[] [] [] [] [] [] [] []]; try reflexivity; simpl.
  rewrite (Hk u c). destruct (k u c); reflexivity.
Qed.

Lemma stable_FoldE : stable FoldE.
Proof.
  intros R R' g s c k k' Hk. destruct s as [|x t]; [reflexivity|].
  destruct x as [[] [] [] [] [] [] [] []]; try reflexivity; simpl;
    rewrite (Hk t c); destruct (k t c); reflexivity.
Qed.

Lemma stable_Digits : stable Digits.
Proof. apply stable_Cat; [|apply stable_Star]; apply stable_Digit. Qed.

Lemma episodePatterns_stable :
  Forall (fun p => stable (regex_of p)) episodePatterns.
Proof.
  repeat constructor; simpl;
    unfold re_season_dash, re_season_episode, re_episode, re_dash, re_bare, Opt;
    repeat (first [ apply stable_FoldS | apply stable_FoldE | apply stable_Digit
                  | apply stable_Space | apply stable_Empty | apply stable_EndText
                  | apply stable_Cat | apply stable_Alt | apply stable_Group
                  | apply stable_Star
                  | apply stable_Byte, lower_marker_dash
                  | apply stable_Byte, lower_marker_lparen
                  | apply stable_Byte, lower_marker_rparen ]).
Qed.

Lemma match_here_stable r s :
  stable r ->
  match_here r (map lower_marker s) = option_map fold_found (match_here r s).
Proof.
  intros Hr. unfold match_here.
  apply (Hr found found fold_found s []). done.
Qed.

Lemma search_stable r s :
  stable r ->
  search r (map lower_marker s) = option_map fold_found (search r s).
Proof.
  intros Hr. induction s as [|x t IH]; simpl.
  - change [] with (map lower_marker []) at 1. rewrite match_here_stable by done.
    by destruct (match_here r []).
  - change (lower_marker x :: map lower_marker t) with (map lower_marker (x :: t)).
    rewrite match_here_stable by done.
    by destruct (match_here r (x :: t)).
Qed.

Lemma capture_fold i c :
  capture i (fold_caps c) = map lower_marker (capture i c).
Proof.
  induction c as [|[j v] c IH]; simpl; [done|]. by destruct (Nat.eqb i j).
Qed.

Lemma fold_markers_str l : fold_markers (str l) = str (map lower_marker l).
Proof. unfold fold_markers. by rewrite str_unstr. Qed.

Lemma FindStringSubmatch_fold r name :
  stable r ->
  FindStringSubmatch r (fold_markers name)
  = map fold_markers (FindStringSubmatch r name).
Proof.
  intros Hr. unfold FindStringSubmatch, fold_markers at 1.
  rewrite str_unstr, search_stable by done.
  destruct (search r (unstr name)) as [[[from rest] c]|]; simpl; [|done].
  rewrite !length_map, firstn_map, fold_markers_str. f_equal.
  rewrite map_map. apply map_ext. intros i.
  by rewrite fold_markers_str, capture_fold.
Qed.

Lemma sign_split_fold l :
  sign_split (map lower_marker l)
  = ((sign_split l).1, map lower_marker (sign_split l).2).
Proof.
  destruct l as [|x t]; [done|].
  destruct x as [[] [] [] [] [] [] [] []]; reflexivity.
Qed.

Lemma parse_digits_fold l acc :
  parse_digits acc (map lower_marker l) = parse_digits acc l.
Proof.
  revert acc. induction l as [|x t IH]; intros acc; simpl; [done|].
  rewrite lower_marker_digit_val. destruct (digit_val x); [apply IH|done].
Qed.

Lemma Atoi_fold s : Atoi (fold_markers s) = Atoi s.
Proof.
  unfold Atoi, fold_markers. rewrite str_unstr, sign_split_fold.
  destruct (sign_split (unstr s)) as [neg ds]. simpl.
  rewrite parse_digits_fold. by destruct ds.
Qed.

Lemma submatch_fold match_ i :
  submatch (map fold_markers match_) i = fold_markers (submatch match_ i).
Proof. unfold submatch. apply (map_nth fold_markers match_ EmptyString i). Qed.

Lemma extract_from_fold rules name :
  Forall (fun p => stable (regex_of p)) rules ->
  extract_from rules (fold_markers name) = extract_from rules name.
Proof.
  induction 1 as [|rule rest Hr Hrest IH]; simpl; [done|].
  rewrite FindStringSubmatch_fold by done.
  rewrite length_map, !submatch_fold, !Atoi_fold, IH. done.
Qed.

(** *** The extension *)

Lemma ext_scan_fold r acc :
  ext_scan (map lower_marker r) (map lower_marker acc)
  = map lower_marker (ext_scan r acc).
Proof.
  revert acc. induction r as [|x r IH]; intros acc; simpl; [done|].
  rewrite lower_marker_slash, lower_marker_dot.
  destruct (Ascii.eqb x "/"%char); [done|].
  destruct (Ascii.eqb x "."%char); [done|]. apply (IH (x :: acc)).
Qed.

Lemma Ext_bytes_fold s :
  Ext_bytes (map lower_marker s) = map lower_marker (Ext_bytes s).
Proof. unfold Ext_bytes. rewrite <- map_rev. apply (ext_scan_fold _ []). Qed.

Lemma ext_scan_suffix r acc :
  ext_scan r acc = [] \/ exists r1 r2, r = r1 ++ r2 /\ ext_scan r acc = rev r1 ++ acc.
Proof.
  revert acc. induction r as [|x r IH]; intros acc; simpl; [by left|].
  destruct (Ascii.eqb x "/"%char); [by left|].
  destruct (Ascii.eqb x "."%char).
  - right. by exists [x], r.
  - destruct (IH (x :: acc)) as [->|(r1 & r2 & -> & ->)]; [by left|].
    right. exists (x :: r1), r2. split; [done|]. simpl. by rewrite <- app_assoc.
Qed.

(** The extension is a suffix of the path. *)
Lemma Ext_bytes_suffix s : exists pre, s = pre ++ Ext_bytes s.
Proof.
  unfold Ext_bytes. destruct (ext_scan_suffix (rev s) []) as [->|(r1 & r2 & Hs & ->)].
  - exists s. by rewrite app_nil_r.
  - exists (rev r2). rewrite app_nil_r.
    rewrite <- (rev_involutive s), Hs, rev_app_distr. done.
Qed.

Lemma bytes_eqb_refl a : bytes_eqb a a = true.
Proof. induction a as [|x a IH]; simpl; [done|]. by rewrite Ascii.eqb_refl. Qed.

Lemma TrimSuffix_bytes_app pre suffix :
  TrimSuffix_bytes (pre ++ suffix) suffix = pre.
Proof.
  unfold TrimSuffix_bytes, HasSuffix_bytes. rewrite length_app.
  replace (length pre + length suffix - length suffix) with (length pre) by lia.
  rewrite drop_app_length, take_app_length, bytes_eqb_refl.
  assert ((length suffix <=? length pre + length suffix)%nat = true) as ->
    by (apply Nat.leb_le; lia).
  done.
Qed.

(** Stripping the extension keeps the part of the name before it. *)
Lemma strip_ext s :
  TrimSuffix_bytes s (Ext_bytes s) = take (length s - length (Ext_bytes s)) s.
Proof.
  destruct (Ext_bytes_suffix s) as [pre Hs].
  revert Hs. generalize (Ext_bytes s) as e. intros e ->.
  by rewrite TrimSuffix_bytes_app, take_consumed.
Qed.

Lemma extract_fold filename :
  extractSeasonAndEpisode (fold_markers filename) = extractSeasonAndEpisode filename.
Proof.
  unfold extractSeasonAndEpisode, strings_TrimSuffix, filepath_Ext.
  rewrite !str_unstr, !strip_ext.
  unfold fold_markers at 1 2 3. rewrite !str_unstr, Ext_bytes_fold, !length_map.
  rewrite firstn_map, <- fold_markers_str.
  apply extract_from_fold, episodePatterns_stable.
Qed.

Lemma rule_yields_fold rule name :
  stable (regex_of rule) ->
  rule_yields rule (fold_markers name) = rule_yields rule name.
Proof.
  intros Hr. unfold rule_yields, season_of.
  rewrite FindStringSubmatch_fold by done.
  destruct (FindStringSubmatch (regex_of rule) name) as [|whole groups]; [done|].
  cbn [map].
  change (fold_markers whole :: map fold_markers groups)
    with (map fold_markers (whole :: groups)).
  by rewrite !submatch_fold, !Atoi_fold.
Qed.

(** C10.  The markers of the rules are matched without regard to case: two
    names that differ only in the case of S and E letters get the same yield
    from every rule, and as file names the same season and episode. *)
Theorem marker_case_irrelevant f1 f2 :
  fold_markers f1 = fold_markers f2 ->
  Forall (fun rule => rule_yields rule f1 = rule_yields rule f2) episodePatterns
  /\ extractSeasonAndEpisode f1 = extractSeasonAndEpisode f2.
Proof.
  intros H. split.
  - eapply Forall_impl; [exact episodePatterns_stable|]. simpl. intros rule Hr.
    rewrite <- (rule_yields_fold rule f1 Hr), <- (rule_yields_fold rule f2 Hr).
    by rewrite H.
  - rewrite <- (extract_fold f1), <- (extract_fold f2). by rewrite H.
Qed.

Lemma marker_case_irrelevant_witness :
  fold_markers "show s2 - 03.mkv" = fold_markers "show S2 - 03.mkv"
  /\ Forall (fun rule => rule_yields rule "show s2 - 03.mkv"
                         = rule_yields rule "show S2 - 03.mkv") episodePatterns
  /\ extractSeasonAndEpisode "show s2 - 03.mkv"
     = extractSeasonAndEpisode "show S2 - 03.mkv".
Proof.
  split; [reflexivity|].
  apply (marker_case_irrelevant "show s2 - 03.mkv" "show S2 - 03.mkv").
  reflexivity.
Defined.

(** The lower-case forms of the test names give what the upper-case forms
    give. *)
Example lower_case_markers :
  map extractSeasonAndEpisode ["show s2 - 03"; "show s01e12"; "show e09"]
  = [(2, 3); (1, 12); (1, 9)]%Z
  /\ map extractSeasonAndEpisode ["show S2 - 03"; "show S01E12"; "show E09"]
     = [(2, 3); (1, 12); (1, 9)]%Z.
Proof. split; vm_compute; reflexivity. Qed.

(** ** Bare trailing numbers *)

Ltac by_bits c :=
  destruct c as [[] [] [] [] [] [] [] []]; vm_compute; congruence.

Lemma space_not_digit c : isSpace c = true -> isDigit c = false.
Proof. by_bits c. Qed.
Lemma space_not_dash c : isSpace c = true -> Ascii.eqb c "-"%char = false.
Proof. by_bits c. Qed.
Lemma space_not_lparen c : isSpace c = true -> Ascii.eqb c "("%char = false.
Proof. by_bits c. Qed.
Lemma digit_not_space c : isDigit c = true -> isSpace c = false.
Proof. by_bits c. Qed.
Lemma digit_not_dash c : isDigit c = true -> Ascii.eqb c "-"%char = false.
Proof. by_bits c. Qed.
Lemma digit_not_lparen c : isDigit c = true -> Ascii.eqb c "("%char = false.
Proof. by_bits c. Qed.
Lemma lparen_not_digit c : Ascii.eqb c "("%char = true -> isDigit c = false.
Proof. by_bits c. Qed.

Lemma digit_after_blank_tail x t : digit_after_blank (x :: t) -> digit_after_blank t.
Proof. simpl. by intros [_ ?]. Qed.

Lemma digit_after_blank_digits d : all_digits d -> digit_after_blank d.
Proof.
  induction 1 as [|x d Hx Hd IH]; simpl; [done|]. split; [|done].
  destruct d; [done|]. intros _. by rewrite Hx.
Qed.

Lemma head_no_digit_app stem ws d :
  no_digits stem -> isSpace ws = true -> head_no_digit (stem ++ ws :: d).
Proof.
  intros Hstem Hws. destruct Hstem as [|x stem Hx _]; simpl; [|done].
  by apply space_not_digit.
Qed.

(** A name made of a digit-free stem, a white-space byte and digits. *)
Lemma digit_after_blank_name stem ws d :
  no_digits stem -> isSpace ws = true -> all_digits d ->
  digit_after_blank (stem ++ ws :: d).
Proof.
  intros Hstem Hws Hd. induction Hstem as [|x stem Hx Hstem IH]; simpl.
  - split; [|by apply digit_after_blank_digits].
    destruct d; [done|]. intros _. rewrite Hws. apply orb_true_r.
  - split; [|exact IH].
    pose proof (head_no_digit_app stem ws d Hstem Hws) as Hh.
    destruct (stem ++ ws :: d); [done|]. simpl in Hh. congruence.
Qed.

(** Rules 1 and 2 start with an S marker directly followed by a digit. *)
Lemma marker_S_needs_digit {R} i a b s c (k : bytes -> caps -> option R) :
  digit_after_blank s ->
  run (Cat FoldS (Cat (Group i (Cat Digit a)) b)) s c k = None.
Proof.
  intros H. destruct s as [|x [|y t]]; [reflexivity| |].
  - destruct x as [[] [] [] [] [] [] [] []]; reflexivity.
  - destruct x as [[] [] [] [] [] [] [] []]; try reflexivity; simpl in H |- *;
      try (destruct (isDigit y); [|reflexivity];
           destruct H as [H _]; specialize (H eq_refl); discriminate H).
    destruct y as [[] [] [] [] [] [] [] []]; try reflexivity.
    destruct t as [|z u]; [reflexivity|]. simpl in H |- *.
    destruct (isDigit z); [|reflexivity].
    destruct H as [_ [H _]]. specialize (H eq_refl). discriminate H.
Qed.

(** Rule 3 starts with an E marker directly followed by a digit. *)
Lemma marker_E_needs_digit {R} i a s c (k : bytes -> caps -> option R) :
  digit_after_blank s ->
  run (Cat FoldE (Group i (Cat Digit a))) s c k = None.
Proof.
  intros H. destruct s as [|x [|y t]]; [reflexivity| |].
  - destruct x as [[] [] [] [] [] [] [] []]; reflexivity.
  - destruct x as [[] [] [] [] [] [] [] []]; try reflexivity; simpl in H |- *;
      (destruct (isDigit y); [|reflexivity]);
      destruct H as [H _]; specialize (H eq_refl); discriminate H.
Qed.

Lemma search_none (P : bytes -> Prop) r :
  (forall x t, P (x :: t) -> P t) ->
  (forall s, P s -> match_here r s = None) ->
  forall s, P s -> search r s = None.
Proof.
  intros Htail Hnone. induction s as [|x t IH]; intros HP; simpl.
  - by rewrite Hnone.
  - rewrite Hnone by done. apply IH. by eapply Htail.
Qed.

Lemma search_marked_none r s :
  r = re_season_dash \/ r = re_season_episode \/ r = re_episode ->
  digit_after_blank s -> search r s = None.
Proof.
  intros Hr. apply (search_none digit_after_blank).
  - apply digit_after_blank_tail.
  - intros s' Hs'. unfold match_here.
    destruct Hr as [->|[->| ->]].
    + by apply marker_S_needs_digit.
    + by apply marker_S_needs_digit.
    + by apply marker_E_needs_digit.
Qed.

(** Rule 5 needs a digit right after the white-space byte. *)
Lemma bare_needs_digit x t : head_no_digit t -> match_here re_bare (x :: t) = None.
Proof.
  intros H. unfold match_here, re_bare. simpl.
  destruct (isSpace x); [|done]. destruct t as [|y u]; [done|].
  simpl in H. by rewrite H.
Qed.

Lemma bare_match_number ws d :
  isSpace ws = true -> all_digits d -> length d = 2 \/ length d = 3 ->
  search re_bare (ws :: d) = Some (ws :: d, [], [(1, d)]).
Proof.
  intros Hws Hd Hlen.
  destruct d as [|d1 [|d2 [|d3 [|d4 d]]]]; simpl in Hlen; try lia.
  - apply Forall_cons in Hd as [H1 Hd]. apply Forall_cons in Hd as [H2 _].
    cbn. rewrite Hws. cbn. rewrite H1. cbn. rewrite H2. cbn.
    reflexivity.
  - apply Forall_cons in Hd as [H1 Hd]. apply Forall_cons in Hd as [H2 Hd].
    apply Forall_cons in Hd as [H3 _].
    cbn. rewrite Hws. cbn. rewrite H1. cbn. rewrite H2. cbn. rewrite H3. cbn.
    reflexivity.
Qed.

(** Rule 4 on such a name either fails or captures the whole number. *)
Lemma dash_match_here x stem ws d :
  no_digits stem -> isSpace ws = true -> all_digits d ->
  length d = 2 \/ length d = 3 ->
  match_here re_dash (x :: stem ++ ws :: d) = None
  \/ match_here re_dash (x :: stem ++ ws :: d)
     = Some (x :: stem ++ ws :: d, [], [(1, d)]).
Proof.
  intros Hstem Hws Hd Hlen.
  pose proof (space_not_digit ws Hws) as Hws1.
  pose proof (space_not_dash ws Hws) as Hws2.
  pose proof (space_not_lparen ws Hws) as Hws3.
  unfold match_here, re_dash.
  destruct stem as [|a [|b rest]].
  - left. cbn. destruct (isSpace x); [|done]. by rewrite Hws2.
  - destruct d as [|d1 [|d2 [|d3 [|d4 d]]]]; simpl in Hlen; try lia.
    + apply Forall_cons in Hd as [H1 Hd]. apply Forall_cons in Hd as [H2 _].
      pose proof (digit_not_lparen d1 H1) as H1p.
      cbn. destruct (isSpace x); [|by left]. destruct (Ascii.eqb a "-"); [|by left].
      rewrite Hws. cbn. rewrite H1p. cbn. rewrite H1. cbn. rewrite H2. cbn.
      by right.
    + apply Forall_cons in Hd as [H1 Hd]. apply Forall_cons in Hd as [H2 Hd].
      apply Forall_cons in Hd as [H3 _].
      pose proof (digit_not_lparen d1 H1) as H1p.
      cbn. destruct (isSpace x); [|by left]. destruct (Ascii.eqb a "-"); [|by left].
      rewrite Hws. cbn. rewrite H1p. cbn. rewrite H1. cbn. rewrite H2. cbn.
      rewrite H3. cbn. by right.
  - left. apply Forall_cons in Hstem as [Ha Hstem].
    apply Forall_cons in Hstem as [Hb Hrest].
    pose proof (head_no_digit_app rest ws d Hrest Hws) as Hh.
    cbn. destruct (isSpace x); [|done]. destruct (Ascii.eqb a "-"); [|done].
    destruct (isSpace b); [|done].
    destruct (rest ++ ws :: d) as [|n1 more] eqn:E; [done|].
    simpl in Hh. cbn. rewrite Hh.
    destruct (Ascii.eqb n1 "(") eqn:En; [|done].
    assert (head_no_digit more) as Hm.
    { destruct rest as [|r0 rest'].
      - injection E as <- <-. by rewrite Hws3 in En.
      - injection E as <- <-. apply Forall_cons in Hrest as [_ Hrest].
        by apply head_no_digit_app. }
    destruct more as [|n2 more']; [done|]. simpl in Hm. cbn. by rewrite Hm.
Qed.

Lemma dash_search_digits t : all_digits t -> search re_dash t = None.
Proof.
  induction 1 as [|y t Hy Ht IHt]; [reflexivity|].
  cbn [search]. unfold match_here, re_dash. cbn [run].
  by rewrite (digit_not_space y Hy).
Qed.

Lemma dash_search stem ws d :
  no_digits stem -> isSpace ws = true -> all_digits d ->
  length d = 2 \/ length d = 3 ->
  search re_dash (stem ++ ws :: d) = None
  \/ exists from, search re_dash (stem ++ ws :: d) = Some (from, [], [(1, d)]).
Proof.
  intros Hstem Hws Hd Hlen. induction Hstem as [|x stem Hx Hstem IH].
  - left. cbn [app search]. rewrite (dash_search_digits d Hd).
    unfold match_here, re_dash. cbn [run]. rewrite Hws.
    destruct d as [|d1 d']; [done|].
    apply Forall_cons in Hd as [H1 Hd]. by rewrite (digit_not_dash d1 H1).
  - cbn [app search].
    destruct (dash_match_here x stem ws d Hstem Hws Hd Hlen) as [->| ->].
    + exact IH.
    + right. eauto.
Qed.

Lemma bare_search stem ws d :
  no_digits stem -> isSpace ws = true -> all_digits d ->
  length d = 2 \/ length d = 3 ->
  search re_bare (stem ++ ws :: d) = Some (ws :: d, [], [(1, d)]).
Proof.
  intros Hstem Hws Hd Hlen. induction Hstem as [|x stem Hx Hstem IH].
  - by apply bare_match_number.
  - cbn [app search].
    rewrite bare_needs_digit by (by apply head_no_digit_app). exact IH.
Qed.

(** *** The value of a short digit string *)

Lemma parse_digits_value d acc :
  all_digits d ->
  parse_digits acc d
  = Some (fold_left (fun a x => (a * 10 + (Z.of_N (byte_code x) - 48))%Z) d acc).
Proof.
  intros Hd. revert acc. induction Hd as [|x d Hx Hd IH]; intros acc; simpl; [done|].
  unfold digit_val. rewrite Hx. apply IH.
Qed.

Lemma digit_range x : isDigit x = true -> (0 <= Z.of_N (byte_code x) - 48 <= 9)%Z.
Proof.
  unfold isDigit. intros [H1 H2]%andb_true_iff.
  apply N.leb_le in H1, H2. lia.
Qed.

Lemma fold_digits_bound d acc :
  all_digits d -> (0 <= acc)%Z ->
  (0 <= fold_left (fun a x => (a * 10 + (Z.of_N (byte_code x) - 48))%Z) d acc
   < (acc + 1) * 10 ^ Z.of_nat (length d))%Z.
Proof.
  intros Hd. revert acc. induction Hd as [|x d Hx Hd IH]; intros acc Hacc.
  - simpl. lia.
  - cbn [fold_left length]. pose proof (digit_range x Hx) as Hr.
    specialize (IH (acc * 10 + (Z.of_N (byte_code x) - 48))%Z ltac:(lia)).
    rewrite Nat2Z.inj_succ, Z.pow_succ_r by lia.
    assert (0 < 10 ^ Z.of_nat (length d))%Z by (apply Z.pow_pos_nonneg; lia).
    split; [lia|]. eapply Z.lt_le_trans; [apply IH|]. nia.
Qed.

Lemma Atoi_short d :
  all_digits d -> (1 <= length d <= 3)%nat -> Atoi (str d) = Some (digits_value d).
Proof.
  intros Hd Hlen. unfold Atoi. rewrite str_unstr.
  destruct d as [|x d']; [simpl in Hlen; lia|].
  rewrite (sign_split_digit x d') by (by apply Forall_cons in Hd as [? _]).
  rewrite (parse_digits_value _ _ Hd). fold (digits_value (x :: d')).
  pose proof (fold_digits_bound (x :: d') 0 Hd ltac:(lia)) as Hb.
  fold (digits_value (x :: d')) in Hb.
  assert (10 ^ Z.of_nat (length (x :: d')) <= 1000)%Z as Hp.
  { change 1000%Z with (10 ^ 3)%Z. apply Z.pow_le_mono_r; lia. }
  assert ((min_int <=? digits_value (x :: d'))%Z
          && (digits_value (x :: d') <=? max_int)%Z = true) as ->; [|done].
  apply andb_true_iff. split; apply Z.leb_le; unfold min_int, max_int; lia.
Qed.

Lemma rule_yields_none rule name :
  search (regex_of rule) (unstr name) = None -> rule_yields rule name = None.
Proof. intros H. unfold rule_yields, FindStringSubmatch. by rewrite H. Qed.

(** The yield of a matching rule with one group and no season index. *)
Lemma rule_yields_single rule name from rest c :
  seasonIndex rule = 0%nat -> episodeIndex rule = 1%nat ->
  NumSubexp (regex_of rule) = 1%nat ->
  search (regex_of rule) (unstr name) = Some (from, rest, c) ->
  rule_yields rule name
  = match Atoi (str (capture 1 c)) with
    | Some episode => if (0 <? episode)%Z then Some (1, episode)%Z else None
    | None => None
    end.
Proof.
  intros Hs He Hn H. unfold rule_yields, season_of, FindStringSubmatch.
  rewrite H, Hs, He, Hn. reflexivity.
Qed.

Lemma ext_scan_plain r acc rest :
  Forall (fun x => Ascii.eqb x "/"%char = false /\ Ascii.eqb x "."%char = false) r ->
  ext_scan (r ++ "."%char :: rest) acc = "."%char :: rev r ++ acc.
Proof.
  intros Hr. revert acc. induction Hr as [|x r [Hx1 Hx2] Hr IH]; intros acc.
  - reflexivity.
  - simpl. rewrite Hx1, Hx2, IH. by rewrite <- app_assoc.
Qed.

(** The extension of a name that ends with a dot and bytes other than dots
    and separators. *)
Lemma Ext_bytes_dotted name e :
  Forall (fun x => Ascii.eqb x "/"%char = false /\ Ascii.eqb x "."%char = false) e ->
  Ext_bytes (name ++ "."%char :: e) = "."%char :: e.
Proof.
  intros He. unfold Ext_bytes. rewrite rev_app_distr. simpl.
  rewrite <- app_assoc. simpl.
  rewrite (ext_scan_plain (rev e) [] (rev name)) by (by apply Forall_rev).
  by rewrite rev_involutive, app_nil_r.
Qed.

(** C7, as the code has it.  The extension is stripped before any rule is
    tried, and a name whose only digits are a run of two or three right
    before the extension, preceded by a white-space byte, gets season 1 and
    that number as episode. *)
Theorem bare_trailing_number stem ws d ext :
  no_digits stem ->
  isSpace ws = true ->
  all_digits d ->
  (2 <= length d <= 3)%nat ->
  Ext_bytes (stem ++ ws :: d ++ ext) = ext ->
  strings_TrimSuffix (str (stem ++ ws :: d ++ ext))
    (filepath_Ext (str (stem ++ ws :: d ++ ext))) = str (stem ++ ws :: d)
  /\ extractSeasonAndEpisode (str (stem ++ ws :: d ++ ext)) = (1, digits_value d)%Z.
Proof.
  intros Hstem Hws Hd Hlen Hext.
  assert (Hlen' : length d = 2 \/ length d = 3) by lia.
  assert (Hstrip : strings_TrimSuffix (str (stem ++ ws :: d ++ ext))
                     (filepath_Ext (str (stem ++ ws :: d ++ ext)))
                   = str (stem ++ ws :: d)).
  { unfold strings_TrimSuffix, filepath_Ext. rewrite !str_unstr, Hext.
    replace (stem ++ ws :: d ++ ext) with ((stem ++ ws :: d) ++ ext)
      by (by rewrite <- app_assoc).
    by rewrite TrimSuffix_bytes_app. }
  split; [exact Hstrip|].
  unfold extractSeasonAndEpisode. rewrite Hstrip.
  rewrite extract_from_first_yield by reflexivity.
  pose proof (digit_after_blank_name stem ws d Hstem Hws Hd) as Hshape.
  unfold episodePatterns. cbn [first_yield].
  rewrite !rule_yields_none
    by (cbn [regex_of]; rewrite str_unstr; apply search_marked_none; auto).
  pose proof (Atoi_short d Hd ltac:(lia)) as Hval.
  pose proof (fold_digits_bound d 0 Hd ltac:(lia)) as [Hnn _].
  fold (digits_value d) in Hnn.
  assert (Hbare : rule_yields
                    {| regex_of := re_bare; seasonIndex := 0; episodeIndex := 1 |}
                    (str (stem ++ ws :: d))
                  = if (0 <? digits_value d)%Z then Some (1, digits_value d)%Z
                    else None).
  { erewrite rule_yields_single; try reflexivity.
    2:{ cbn [regex_of]. rewrite str_unstr. by apply bare_search. }
    cbn [capture Nat.eqb]. by rewrite Hval. }
  destruct (dash_search stem ws d Hstem Hws Hd Hlen') as [Hnone|[from Hfound]].
  - rewrite rule_yields_none
      by (cbn [regex_of]; rewrite str_unstr; exact Hnone).
    rewrite Hbare. destruct (Z.ltb_spec 0 (digits_value d)); [done|].
    f_equal. lia.
  - erewrite rule_yields_single; try reflexivity.
    2:{ cbn [regex_of]. rewrite str_unstr. exact Hfound. }
    cbn [capture Nat.eqb]. rewrite Hval, Hbare.
    destruct (Z.ltb_spec 0 (digits_value d)); [done|]. f_equal. lia.
Qed.

Lemma bare_trailing_number_witness :
  (no_digits (unstr "Show")
   /\ isSpace " "%char = true
   /\ all_digits (unstr "021")
   /\ (2 <= length (unstr "021") <= 3)%nat
   /\ Ext_bytes (unstr "Show" ++ " "%char :: unstr "021" ++ unstr ".srt")
      = unstr ".srt")
  /\ strings_TrimSuffix "Show 021.srt" (filepath_Ext "Show 021.srt") = "Show 021"
  /\ extractSeasonAndEpisode "Show 021.srt" = (1, 21)%Z.
Proof.
  assert (H1 : no_digits (unstr "Show")) by (repeat constructor).
  assert (H2 : isSpace " "%char = true) by reflexivity.
  assert (H3 : all_digits (unstr "021")) by (repeat constructor).
  assert (H4 : (2 <= length (unstr "021") <= 3)%nat) by (simpl; lia).
  assert (H5 : Ext_bytes (unstr "Show" ++ " "%char :: unstr "021" ++ unstr ".srt")
               = unstr ".srt") by reflexivity.
  split; [exact (conj H1 (conj H2 (conj H3 (conj H4 H5))))|].
  exact (bare_trailing_number (unstr "Show") " "%char (unstr "021") (unstr ".srt")
           H1 H2 H3 H4 H5).
Defined.

(** C7, as stated, fails: a name that is nothing but a three-digit number
    and an extension has that number as its only numeric cue, yet no rule
    matches it, there being no white space before the number. *)
Lemma bare_number_counterexample :
  ~ (forall stem d ext,
       no_digits stem -> all_digits d -> (2 <= length d <= 3)%nat ->
       Ext_bytes (stem ++ d ++ ext) = ext ->
       extractSeasonAndEpisode (str (stem ++ d ++ ext)) = (1, digits_value d)%Z).
Proof.
  intros H.
  specialize (H [] (unstr "021") (unstr ".srt")).
  assert (E : extractSeasonAndEpisode (str ([] ++ unstr "021" ++ unstr ".srt"))
              = (1, 0)%Z) by (vm_compute; reflexivity).
  rewrite E in H.
  assert (H' : (1, 0)%Z = (1%Z, digits_value (unstr "021"))).
  { apply H; [constructor|repeat constructor|simpl; lia|reflexivity]. }
  vm_compute in H'. discriminate H'.
Qed.

Example number_without_blank :
  extractSeasonAndEpisode "021.srt" = (1, 0)%Z
  /\ extractSeasonAndEpisode "Show021.srt" = (1, 0)%Z.
Proof. split; vm_compute; reflexivity. Qed.

(** ** Rollback *)

Lemma slots_app l1 l2 : slots (l1 ++ l2) = slots l1 ++ slots l2.
Proof. apply flat_map_app. Qed.

Lemma slots_cons st l : slots (st :: l) = slot st ++ slots l.
Proof. reflexivity. Qed.

Lemma elem_of_slots p states :
  p ∈ slots states <-> exists state, state ∈ states /\ p ∈ slot state.
Proof.
  unfold slots. rewrite list_elem_of_In, in_flat_map. split.
  - intros (st & Hst & Hp). exists st. by rewrite !list_elem_of_In.
  - intros (st & Hst & Hp). exists st. by rewrite <- !list_elem_of_In.
Qed.

Lemma slots_set_current l1 st dest l2 :
  slots (l1 ++ set_CurrentPath st dest :: l2) = slots (l1 ++ st :: l2).
Proof. by rewrite !slots_app, !slots_cons. Qed.

Lemma slots_apart l1 st l2 p state :
  NoDup (slots (l1 ++ st :: l2)) ->
  p ∈ slot st -> state ∈ l1 ++ l2 -> p ∉ slot state.
Proof.
  rewrite slots_app, slots_cons. intros Hnd Hp Hin Hp'.
  apply NoDup_app in Hnd as (_ & H1 & Hnd).
  apply NoDup_app in Hnd as (_ & H2 & _).
  apply elem_of_app in Hin as [Hin|Hin].
  - apply (H1 p); [apply elem_of_slots; eauto|]. apply elem_of_app. by left.
  - apply (H2 p Hp). apply elem_of_slots. eauto.
Qed.

Lemma occupied_middle l1 st l2 p :
  occupied (l1 ++ st :: l2) p <->
  CurrentPath st = p \/ occupied (l1 ++ l2) p.
Proof.
  unfold occupied. rewrite !Exists_app, Exists_cons. tauto.
Qed.

Lemma occupied_elem states p :
  occupied states p <-> exists state, state ∈ states /\ CurrentPath state = p.
Proof. unfold occupied. rewrite Exists_exists. done. Qed.

(** Moving one file of the batch to another path of its own slot. *)
Lemma layout_move fs0 fs l1 st l2 dest :
  NoDup (slots (l1 ++ st :: l2)) ->
  settled (l1 ++ st :: l2) ->
  layout fs0 fs (l1 ++ st :: l2) ->
  is_Some (fs0 !! OldPath (operation_of st)) ->
  dest ∈ slot st -> dest <> CurrentPath st ->
  exists fs', os_Rename (CurrentPath st) dest fs = (None, fs')
              /\ layout fs0 fs' (l1 ++ set_CurrentPath st dest :: l2).
Proof.
  intros Hnd Hset [Hat Hfree] [data Hdata] Hdest Hne. unfold settled in Hset.
  assert (Hcur : CurrentPath st ∈ slot st).
  { rewrite Forall_app, Forall_cons in Hset. tauto. }
  assert (Hhere : fs !! CurrentPath st = Some data).
  { rewrite Forall_app, Forall_cons in Hat. destruct Hat as (_ & -> & _). done. }
  assert (Hothers : forall state, state ∈ l1 ++ l2 ->
            CurrentPath state <> dest /\ CurrentPath state <> CurrentPath st).
  { intros state Hin.
    assert (CurrentPath state ∈ slot state) as Hc.
    { rewrite Forall_forall in Hset. apply Hset.
      apply elem_of_app in Hin as [?|?]; apply elem_of_app; [by left|].
      right. by right. }
    split; intros E; rewrite E in Hc.
    - exact (slots_apart l1 st l2 dest state Hnd Hdest Hin Hc).
    - exact (slots_apart l1 st l2 _ state Hnd Hcur Hin Hc). }
  unfold os_Rename. rewrite Hhere. eexists. split; [done|]. split.
  - rewrite Forall_app, Forall_cons in Hat |- *. destruct Hat as (H1 & _ & H2).
    split; [|split].
    + apply Forall_forall. intros state Hin. rewrite Forall_forall in H1.
      destruct (Hothers state) as [N1 N2]; [apply elem_of_app; by left|].
      rewrite lookup_insert_ne, lookup_delete_ne by done. by apply H1.
    + simpl. rewrite lookup_insert_eq. done.
    + apply Forall_forall. intros state Hin. rewrite Forall_forall in H2.
      destruct (Hothers state) as [N1 N2]; [apply elem_of_app; by right|].
      rewrite lookup_insert_ne, lookup_delete_ne by done. by apply H2.
  - intros p Hp. rewrite slots_set_current.
    rewrite occupied_middle in Hp. simpl in Hp.
    assert (p <> dest) as Npd by (intros ->; apply Hp; by left).
    rewrite lookup_insert_ne by done.
    destruct (decide (p = CurrentPath st)) as [->|Npc].
    + rewrite lookup_delete_eq. rewrite decide_True; [done|].
      apply elem_of_slots. exists st. split; [|done].
      apply elem_of_app. right. by left.
    + rewrite lookup_delete_ne by done. apply Hfree.
      rewrite occupied_middle. intros [E|E]; [by apply Npc|]. apply Hp. by right.
Qed.

Lemma batch_ok_move fs0 l1 st l2 dest :
  batch_ok fs0 (l1 ++ st :: l2) -> dest ∈ slot st ->
  batch_ok fs0 (l1 ++ set_CurrentPath st dest :: l2).
Proof.
  intros (Hnd & Hset & Hsrc & Hvac) Hdest. unfold batch_ok, settled, vacant_targets in *.
  rewrite slots_set_current. split; [done|].
  rewrite !Forall_app, !Forall_cons in *. simpl. tauto.
Qed.

Lemma invoke_cases renameFn oldPath newPath w :
  well_behaved renameFn ->
  invoke renameFn oldPath newPath w
  = (let '(err, fs') := os_Rename oldPath newPath (fs w) in
     (err, {| fs := fs'; stdout := stdout w;
              invocations := invocations w ++ [(oldPath, newPath)] |}))
  \/ exists e, invoke renameFn oldPath newPath w
               = (Some e, {| fs := fs w; stdout := stdout w;
                             invocations := invocations w ++ [(oldPath, newPath)] |}).
Proof.
  intros Hwb. unfold invoke.
  destruct (Hwb oldPath newPath (fs w)) as [->|[e ->]]; [by left|].
  right. by exists e.
Qed.

(** A phase either moves every state that was still to move, or stops at
    one and hands the states, as they are, to the rollback. *)
Lemma run_phase_layout phase dest renameFn fs0 :
  well_behaved renameFn ->
  forall todo done w,
    batch_ok fs0 (done ++ todo) ->
    layout fs0 (fs w) (done ++ todo) ->
    Forall (fun st => dest st ∈ slot st /\ dest st <> CurrentPath st) todo ->
    match run_phase phase dest done todo renameFn w with
    | (inl states', w') =>
        states' = done ++ map (fun st => set_CurrentPath st (dest st)) todo
        /\ batch_ok fs0 states' /\ layout fs0 (fs w') states'
    | (inr res, w') =>
        exists states from to e w1,
          batch_ok fs0 states /\ layout fs0 (fs w1) states
          /\ fail_and_rollback (RenameExecutionError phase from to e)
               states renameFn w1 = (res, w')
    end.
Proof.
  intros Hwb. induction todo as [|st rest IH]; intros done w Hgood Hlay Hdest.
  - simpl. rewrite app_nil_r in *. done.
  - apply Forall_cons in Hdest as [[Hd Hne] Hrest]. simpl.
    destruct (invoke_cases renameFn (CurrentPath st) (dest st) w Hwb) as [E|[e E]];
      rewrite E; clear E.
    + pose proof Hgood as (Hnd & Hset & Hsrc & _).
      assert (is_Some (fs0 !! OldPath (operation_of st))) as Hsome.
      { rewrite Forall_app, Forall_cons in Hsrc. tauto. }
      destruct (layout_move fs0 (fs w) done st rest (dest st) Hnd Hset Hlay Hsome Hd Hne)
        as (fs' & -> & Hlay').
      specialize (IH (done ++ [set_CurrentPath st (dest st)])
                    {| fs := fs'; stdout := stdout w;
                       invocations := invocations w ++ [(CurrentPath st, dest st)] |}).
      rewrite <- !app_assoc in IH. simpl in IH.
      apply IH; [by apply batch_ok_move| exact Hlay' | exact Hrest].
    + destruct (fail_and_rollback _ _ _ _) as [res w''] eqn:Hfr.
      exists (done ++ st :: rest), (CurrentPath st), (dest st), e.
      eexists. split; [exact Hgood|]. split; [|exact Hfr]. exact Hlay.
Qed.

Lemma rollback_from_grows states renameFn errs w :
  length errs <= length (rollback_from states renameFn errs w).1.
Proof.
  revert errs w. induction states as [|st rest IH]; intros errs w; simpl; [done|].
  destruct (String.eqb _ _); [apply IH|].
  destruct (os_Stat (fs w) (CurrentPath st)).
  - destruct (invoke _ _ _ _) as [[e|] w'].
    + etrans; [|apply IH]. rewrite length_app. simpl. lia.
    + apply IH.
  - etrans; [|apply IH]. rewrite length_app. simpl. lia.
  - etrans; [|apply IH]. rewrite length_app. simpl. lia.
Qed.

Lemma rollback_from_nil states renameFn errs w w' :
  rollback_from states renameFn errs w = ([], w') -> errs = [].
Proof.
  intros H. pose proof (rollback_from_grows states renameFn errs w) as Hg.
  rewrite H in Hg. simpl in Hg. destruct errs; [done|simpl in Hg; lia].
Qed.

Lemma to_old_id st :
  CurrentPath st = OldPath (operation_of st) -> to_old st = st.
Proof. destruct st as [o t c]. unfold to_old, set_CurrentPath. simpl. by intros ->. Qed.

(** A rollback without errors brings every state back to its source. *)
Lemma rollback_from_layout renameFn fs0 :
  well_behaved renameFn ->
  forall rs post w w',
    batch_ok fs0 (rev rs ++ post) ->
    layout fs0 (fs w) (rev rs ++ post) ->
    rollback_from rs renameFn [] w = ([], w') ->
    layout fs0 (fs w') (map to_old (rev rs) ++ post).
Proof.
  intros Hwb. induction rs as [|st rest IH]; intros post w w' Hgood Hlay Hrun.
  - simpl in *. by injection Hrun as <-.
  - simpl in Hgood, Hlay, Hrun |- *. rewrite <- app_assoc in Hgood, Hlay. simpl in *.
    rewrite map_app, <- app_assoc. simpl.
    destruct (String.eqb (CurrentPath st) (OldPath (operation_of st))) eqn:Heqb.
    { apply String.eqb_eq in Heqb. rewrite (to_old_id st Heqb).
      by apply (IH (st :: post) w w'). }
    apply String.eqb_neq in Heqb. rename Heqb into Hne.
    pose proof Hgood as (Hnd & Hset & Hsrc & _).
    assert (is_Some (fs0 !! OldPath (operation_of st))) as Hsome.
    { rewrite Forall_app, Forall_cons in Hsrc. tauto. }
    assert (fs w !! CurrentPath st = fs0 !! OldPath (operation_of st)) as Hhere.
    { destruct Hlay as [Hat _]. rewrite Forall_app, Forall_cons in Hat. tauto. }
    unfold os_Stat in Hrun. rewrite Hhere in Hrun. destruct Hsome as [data Hdata].
    rewrite Hdata in Hrun.
    destruct (invoke_cases renameFn (CurrentPath st) (OldPath (operation_of st)) w Hwb)
      as [E|[e E]]; rewrite E in Hrun; clear E.
    + assert (OldPath (operation_of st) ∈ slot st) as Hin by (by left).
      destruct (layout_move fs0 (fs w) (rev rest) st post _ Hnd Hset Hlay
                  (ex_intro _ data Hdata) Hin (not_eq_sym Hne))
        as (fs' & E & Hlay').
      rewrite E in Hrun. apply (IH (to_old st :: post)) in Hrun; [exact Hrun| |exact Hlay'].
      apply batch_ok_move; [|exact Hin]. done.
    + by apply rollback_from_nil in Hrun.
Qed.

Lemma rollbackRenameStates_layout renameFn fs0 states w w' :
  well_behaved renameFn ->
  batch_ok fs0 states -> layout fs0 (fs w) states ->
  rollbackRenameStates states renameFn w = (None, w') ->
  layout fs0 (fs w') (map to_old states).
Proof.
  intros Hwb Hgood Hlay. unfold rollbackRenameStates.
  destruct (rollback_from (rev states) renameFn [] w) as [[|e errs] w1] eqn:Hrun;
    [|done].
  intros [= <-]. 
  pose proof (rollback_from_layout renameFn fs0 Hwb (rev states) [] w w1) as H.
  rewrite rev_involutive, !app_nil_r in H. by apply H.
Qed.

(** Once every state is back at its source the file system is as at the
    start. *)
Lemma layout_at_sources fs0 fs states :
  vacant_targets fs0 states ->
  layout fs0 fs (map to_old states) -> fs = fs0.
Proof.
  intros Hvac [Hat Hfree]. apply map_eq. intros p.
  destruct (decide (occupied (map to_old states) p)) as [Hocc|Hocc].
  - apply occupied_elem in Hocc as (st & Hin & <-).
    rewrite Forall_forall in Hat. rewrite (Hat st Hin).
    apply list_elem_of_In, in_map_iff in Hin as (st0 & <- & _). done.
  - rewrite (Hfree p Hocc). case_decide as Hp; [|done].
    apply elem_of_slots in Hp as (st & Hin & Hp).
    apply list_elem_of_In, in_map_iff in Hin as (st0 & <- & Hin0).
    apply list_elem_of_In in Hin0.
    unfold vacant_targets in Hvac. rewrite Forall_forall in Hvac.
    destruct (Hvac st0 Hin0) as [Hv1 Hv2].
    unfold slot in Hp. simpl in Hp.
    apply elem_of_cons in Hp as [->|Hp].
    { exfalso. apply Hocc. apply occupied_elem. exists (to_old st0).
      split; [|done]. apply list_elem_of_In, in_map, list_elem_of_In, Hin0. }
    apply elem_of_cons in Hp as [->|Hp]; [done|].
    apply elem_of_cons in Hp as [->|Hp]; [done|]. by apply elem_of_nil in Hp.
Qed.

Lemma plan_states_at_source pid operations index states w states' :
  fst (plan_states pid operations index states w) = inl states' ->
  Forall (fun st => CurrentPath st = OldPath (operation_of st)) states ->
  Forall (fun st => CurrentPath st = OldPath (operation_of st)) states'.
Proof.
  revert index states w.
  induction operations as [|operation rest IH]; intros index states w; simpl.
  - by intros [= <-].
  - destruct (String.eqb (OldPath operation) (NewPath operation)); [apply IH|].
    destruct (buildTempPath pid (fs w) (OldPath operation) index); [|done].
    intros H Hall. eapply IH; [exact H|].
    apply Forall_app. split; [done|]. by repeat constructor.
Qed.

Lemma layout_start fs0 states :
  Forall (fun st => CurrentPath st = OldPath (operation_of st)) states ->
  vacant_targets fs0 states ->
  layout fs0 fs0 states.
Proof.
  intros Hsrc Hvac. split.
  - eapply Forall_impl; [exact Hsrc|]. simpl. by intros st ->.
  - intros p Hocc. case_decide as Hp; [|done].
    apply elem_of_slots in Hp as (st & Hin & Hp).
    rewrite Forall_forall in Hsrc. unfold vacant_targets in Hvac.
    rewrite Forall_forall in Hvac. destruct (Hvac st Hin) as [Hv1 Hv2].
    unfold slot in Hp.
    apply elem_of_cons in Hp as [->|Hp].
    { exfalso. apply Hocc, occupied_elem. exists st. split; [done|]. by apply Hsrc. }
    apply elem_of_cons in Hp as [->|Hp]; [done|].
    apply elem_of_cons in Hp as [->|Hp]; [done|]. by apply elem_of_nil in Hp.
Qed.

Lemma slot_NoDup states st :
  NoDup (slots states) -> st ∈ states -> NoDup (slot st).
Proof.
  intros Hnd Hin. apply list_elem_of_split in Hin as (l1 & l2 & ->).
  rewrite slots_app, slots_cons in Hnd.
  apply NoDup_app in Hnd as (_ & _ & Hnd). by apply NoDup_app in Hnd as (? & _ & _).
Qed.

Lemma slot_distinct states st :
  NoDup (slots states) -> st ∈ states ->
  OldPath (operation_of st) <> TempPath st
  /\ TempPath st <> NewPath (operation_of st)
  /\ OldPath (operation_of st) <> NewPath (operation_of st).
Proof.
  intros Hnd Hin. pose proof (slot_NoDup states st Hnd Hin) as H.
  unfold slot in H. apply NoDup_cons in H as [H1 H].
  apply NoDup_cons in H as [H2 _].
  split; [|split]; intros E.
  - apply H1. rewrite E. by left.
  - apply H2. rewrite E. by left.
  - apply H1. rewrite E. right. by left.
Qed.

(** For a batch whose source, temporary and target paths are pairwise
    distinct, with the sources present and the other paths free at the
    start, and a rename function that either renames or fails without
    effect: when phase two fails and the rollback reports no error, the
    file system is again as it was at the start. *)
Lemma rollback_restores_distinct_paths pid operations renameFn w states
    from to e w' :
  well_behaved renameFn ->
  fst (plan_states pid operations 0 [] w) = inl states ->
  NoDup (slots states) ->
  Forall (fun st => is_Some (fs w !! OldPath (operation_of st))) states ->
  vacant_targets (fs w) states ->
  executeRenameOperationsWith pid operations false renameFn w
  = (Some (RenameExecutionError "phase-two" from to e), w') ->
  fs w' = fs w.
Proof.
  intros Hwb Hplan Hnd Hsrc Hvac. unfold executeRenameOperationsWith.
  pose proof (plan_states_frame pid operations 0 [] w) as [Hfs _].
  pose proof (plan_states_at_source pid operations 0 [] w states Hplan
                (Forall_nil_2 _)) as Hat.
  destruct (plan_states pid operations 0 [] w) as [r w1]. simpl in Hplan, Hfs.
  subst r. destruct states as [|st0 states0]; [done|].
  set (states := st0 :: states0) in *.
  assert (Hgood : batch_ok (fs w) ([] ++ states)).
  { split; [done|]. split; [|by split]. unfold settled.
    eapply Forall_impl; [exact Hat|]. simpl. intros st ->. by left. }
  assert (Hlay : layout (fs w) (fs w1) ([] ++ states)).
  { rewrite Hfs. by apply layout_start. }
  clear Hsrc Hvac.
  pose proof (run_phase_layout "phase-one" TempPath renameFn (fs w) Hwb
                states [] w1 Hgood Hlay) as H1.
  destruct (run_phase "phase-one" TempPath [] states renameFn w1) as [[states1|res] w2].
  2:{ destruct H1 as (sts & f1 & t1 & e1 & w1' & _ & _ & Hfr).
      { apply Forall_forall. intros st Hin. split; [right; by left|].
        rewrite Forall_forall in Hat. rewrite (Hat st Hin).
        destruct (slot_distinct states st Hnd Hin) as (? & _ & _). done. }
      unfold fail_and_rollback in Hfr.
      destruct (rollbackRenameStates sts renameFn w1') as [[rb|] w3];
        injection Hfr as <- <-; intros [= ? ? ?]; discriminate. }
  destruct H1 as (-> & Hgood1 & Hlay1).
  { apply Forall_forall. intros st Hin. split; [right; by left|].
    rewrite Forall_forall in Hat. rewrite (Hat st Hin).
    destruct (slot_distinct states st Hnd Hin) as (? & _ & _). done. }
  pose proof (run_phase_layout "phase-two" (fun state => NewPath (operation_of state))
                renameFn (fs w) Hwb
                (map (fun st => set_CurrentPath st (TempPath st)) states) [] w2) as H2.
  simpl app in *.
  destruct (run_phase "phase-two" _ [] _ renameFn w2) as [[states2|res] w3];
    [done|].
  destruct H2 as (sts & f2 & t2 & e2 & w2' & Hgood2 & Hlay2 & Hfr).
  { exact Hgood1. }
  { exact Hlay1. }
  { apply Forall_forall. intros st Hin.
    apply list_elem_of_In, in_map_iff in Hin as (st' & <- & Hin').
    apply list_elem_of_In in Hin'. simpl.
    split; [right; right; by left|].
    destruct (slot_distinct states st' Hnd Hin') as (_ & ? & _). done. }
  unfold fail_and_rollback in Hfr.
  destruct (rollbackRenameStates sts renameFn w2') as [[rb|] w4] eqn:Hrb;
    injection Hfr as <- <-; [done|].
  intros Hfin. injection Hfin as _ _ _ <-.
  apply (rollbackRenameStates_layout renameFn (fs w) sts w2' w4 Hwb Hgood2 Hlay2) in Hrb.
  eapply layout_at_sources; [|exact Hrb]. by destruct Hgood2 as (_ & _ & _ & ?).
Qed.

Lemma os_Rename_well_behaved : well_behaved os_Rename.
Proof. intros oldPath newPath fs. by left. Qed.

Lemma fail_on_target_well_behaved target : well_behaved (fail_on_target target).
Proof.
  intros oldPath newPath fs. unfold fail_on_target.
  destruct (String.eqb newPath target); [right; eauto|by left].
Qed.

Lemma fail_once_well_behaved from to : well_behaved (fail_once from to).
Proof.
  intros oldPath newPath fs. unfold fail_once.
  destruct (_ && _); [right; eauto|by left].
Qed.

(** The batch of the rollback test meets the conditions of the theorem. *)
Example episode_batch_restored w' e from to :
  executeRenameOperationsWith 42 episode_operations false
    (fail_on_target "/t/Anime - S01E01.srt") (world_of episode_files)
  = (Some (RenameExecutionError "phase-two" from to e), w') ->
  fs w' = episode_files.
Proof.
  set (states :=
         [ {| operation_of := {| OldPath := "/t/episode-01.mkv";
                                 NewPath := "/t/Anime - S01E01.mkv" |};
              TempPath := "/t/.anime-renamer-tmp-42-0-episode-01.mkv";
              CurrentPath := "/t/episode-01.mkv" |};
           {| operation_of := {| OldPath := "/t/episode-01.srt";
                                 NewPath := "/t/Anime - S01E01.srt" |};
              TempPath := "/t/.anime-renamer-tmp-42-1000-episode-01.srt";
              CurrentPath := "/t/episode-01.srt" |} ]).
  apply (rollback_restores_distinct_paths 42 episode_operations _
           (world_of episode_files) states).
  - apply fail_on_target_well_behaved.
  - vm_compute. reflexivity.
  - apply (bool_decide_unpack _). vm_compute. exact I.
  - repeat constructor; vm_compute; eauto.
  - repeat constructor; vm_compute; reflexivity.
Qed.

(** The scenario of [TestExecuteRenameOperationsWithRollback]: the second
    move of phase two fails, the rollback succeeds, and both files are back
    under their original names, nothing being left at a target or a
    temporary path. *)
Example rollback_restores_episode :
  let '(err, w') :=
    executeRenameOperationsWith 42 episode_operations false
      (fail_on_target "/t/Anime - S01E01.srt") (world_of episode_files) in
  err = Some (RenameExecutionError "phase-two"
                "/t/.anime-renamer-tmp-42-1000-episode-01.srt"
                "/t/Anime - S01E01.srt"
                (errorString "forced failure for rollback test"))
  /\ fs w' = episode_files.
Proof. vm_compute. split; reflexivity. Qed.

(** C1 fails on the code.  Two files are to swap names; phase one moves
    both to temporary names, phase two moves the first to its target and
    fails on the second.  The rollback, going backwards over the states,
    first moves the second file from its temporary name onto its original
    name, where the first file now lives, and so replaces it; it then moves
    what is at that name to the first file's original name.  Every rollback
    move succeeds and only the phase-two error is returned, but the first
    file is gone and the second one sits at the first one's original path. *)
Theorem rollback_after_swap_loses_file :
  let '(err, w') :=
    executeRenameOperationsWith 42 swap_operations false
      (fail_once "/d/.anime-renamer-tmp-42-1000-b.mkv" "/d/a.mkv")
      (world_of swap_files) in
  err = Some (RenameExecutionError "phase-two"
                "/d/.anime-renamer-tmp-42-1000-b.mkv" "/d/a.mkv"
                (errorString "forced failure"))
  /\ invocations w'
     = [ ("/d/a.mkv", "/d/.anime-renamer-tmp-42-0-a.mkv");
         ("/d/b.mkv", "/d/.anime-renamer-tmp-42-1000-b.mkv");
         ("/d/.anime-renamer-tmp-42-0-a.mkv", "/d/b.mkv");
         ("/d/.anime-renamer-tmp-42-1000-b.mkv", "/d/a.mkv");
         ("/d/.anime-renamer-tmp-42-1000-b.mkv", "/d/b.mkv");
         ("/d/b.mkv", "/d/a.mkv") ]
  /\ fs w' = {[ "/d/a.mkv" := "video B" ]}
  /\ fs w' !! "/d/a.mkv" <> swap_files !! "/d/a.mkv"
  /\ fs w' !! "/d/b.mkv" = None.
Proof. vm_compute. repeat split; try reflexivity. discriminate. Qed.

(** The swap passes the preflight checks: a target that is the source of
    another operation of the batch is accepted. *)
Example swap_passes_preflight :
  preflightRenameOperations (os_Stat swap_files) elements_order swap_operations
  = None.
Proof. vm_compute. reflexivity. Qed.

(* ===================================================================== *)
(** * Further properties *)
(* ===================================================================== *)

(** ** The range of the extraction *)

Lemma Atoi_range s n : Atoi s = Some n -> (min_int <= n <= max_int)%Z.
Proof.
  unfold Atoi. destruct (sign_split (unstr s)) as [neg ds].
  destruct ds as [|d ds]; [done|].
  destruct (parse_digits 0 (d :: ds)) as [v|]; [|done].
  destruct (_ && _) eqn:E; [|done]. intros [= <-].
  apply andb_true_iff in E as [E1 E2]. apply Z.leb_le in E1, E2. lia.
Qed.

Lemma season_of_range rule match_ :
  (1 <= season_of rule match_ <= max_int)%Z.
Proof.
  unfold season_of. destruct (0 <? seasonIndex rule)%nat; [|by vm_compute].
  destruct (Atoi _) as [season|] eqn:E; [|by vm_compute].
  apply Atoi_range in E. destruct (Z.ltb_spec 0 season); [lia|by vm_compute].
Qed.

Lemma rule_yields_range rule name season episode :
  rule_yields rule name = Some (season, episode) ->
  (1 <= season <= max_int)%Z /\ (1 <= episode <= max_int)%Z.
Proof.
  unfold rule_yields. destruct (FindStringSubmatch _ _) as [|whole groups]; [done|].
  destruct (Atoi _) as [e|] eqn:E; [|done]. apply Atoi_range in E.
  destruct (Z.ltb_spec 0 e); [|done]. intros [= <- <-].
  split; [apply season_of_range|lia].
Qed.

Lemma first_yield_range rules name season episode :
  first_yield rules name = Some (season, episode) ->
  (1 <= season <= max_int)%Z /\ (1 <= episode <= max_int)%Z.
Proof.
  induction rules as [|rule rest IH]; simpl; [done|].
  destruct (rule_yields rule name) as [[s e]|] eqn:E; [|exact IH].
  intros [= <- <-]. by eapply rule_yields_range.
Qed.

(** X1.  Whatever the file name, the season extracted is at least 1, the
    episode is never negative, both fit an [int], and episode 0 (no episode
    found) always comes with season 1. *)
Theorem extract_range filename :
  let '(season, episode) := extractSeasonAndEpisode filename in
  (1 <= season <= max_int)%Z /\ (0 <= episode <= max_int)%Z
  /\ (episode = 0%Z -> season = 1%Z).
Proof.
  unfold extractSeasonAndEpisode.
  rewrite extract_from_first_yield by reflexivity.
  destruct (first_yield _ _) as [[season episode]|] eqn:E.
  - apply first_yield_range in E. lia.
  - vm_compute. repeat split; congruence.
Qed.

(** ** buildTempPath *)

Lemma temp_attempts_first left attempt pid fs oldPath index :
  match temp_attempts left attempt pid fs oldPath (filepath_Dir oldPath)
          (filepath_Base oldPath) index with
  | inl p =>
      fs !! p = None
      /\ exists k, (k < left)%nat
           /\ p = candidate pid oldPath index (attempt + Z.of_nat k)
           /\ forall j, (j < k)%nat ->
                is_Some (fs !! candidate pid oldPath index (attempt + Z.of_nat j))
  | inr e =>
      e = errorString ("failed to allocate temp path for " +:+ oldPath)
      /\ forall j, (j < left)%nat ->
           is_Some (fs !! candidate pid oldPath index (attempt + Z.of_nat j))
  end.
Proof.
  revert attempt. induction left as [|left IH]; intros attempt; simpl.
  - split; [done|]. intros j Hj. lia.
  - fold (candidate pid oldPath index attempt). unfold os_Stat.
    destruct (fs !! candidate pid oldPath index attempt) as [data|] eqn:E.
    + specialize (IH (attempt + 1)%Z).
      destruct (temp_attempts left (attempt + 1) pid fs oldPath _ _ index) as [p|e].
      * destruct IH as (Hp & k & Hk & -> & Hbefore). split; [done|].
        exists (S k). split; [lia|]. split; [f_equal; lia|].
        intros [|j] Hj.
        -- rewrite Z.add_0_r. eauto.
        -- replace (attempt + Z.of_nat (S j))%Z with (attempt + 1 + Z.of_nat j)%Z by lia.
           apply Hbefore. lia.
      * destruct IH as (-> & Hall). split; [done|].
        intros [|j] Hj.
        -- rewrite Z.add_0_r. eauto.
        -- replace (attempt + Z.of_nat (S j))%Z with (attempt + 1 + Z.of_nat j)%Z by lia.
           apply Hall. lia.
    + split; [done|]. exists 0%nat. split; [lia|]. rewrite Z.add_0_r.
      split; [done|]. intros j Hj. lia.
Qed.


(** ** The states of a live run *)

Lemma plan_states_temp_free pid operations index states w states' :
  fst (plan_states pid operations index states w) = inl states' ->
  Forall (fun st => fs w !! TempPath st = None) states ->
  Forall (fun st => fs w !! TempPath st = None) states'.
Proof.
  revert index states w.
  induction operations as [|operation rest IH]; intros index states w; simpl.
  - by intros [= <-].
  - destruct (String.eqb (OldPath operation) (NewPath operation)).
    { intros H Hall. exact (IH _ _ _ H Hall). }
    unfold buildTempPath.
    pose proof (temp_attempts_first 1000 0 pid (fs w) (OldPath operation) index) as Hb.
    destruct (temp_attempts 1000 0 pid (fs w) (OldPath operation) _ _ index)
      as [p|e]; [|done].
    destruct Hb as [Hp _]. intros H Hall. eapply IH; [exact H|].
    apply Forall_app. split; [done|]. by repeat constructor.
Qed.

(** X3.  The states a live run works on are the operations that are not
    no-ops, in their order; each starts at its source, with a temporary
    path at which nothing exists; building them leaves the file system
    alone. *)
Theorem plan_states_spec pid operations w states :
  fst (plan_states pid operations 0 [] w) = inl states ->
  map operation_of states = List.filter (fun o => negb (is_noop o)) operations
  /\ Forall (fun st => CurrentPath st = OldPath (operation_of st)) states
  /\ Forall (fun st => fs w !! TempPath st = None) states
  /\ fs (snd (plan_states pid operations 0 [] w)) = fs w.
Proof.
  intros H. split; [|split; [|split]].
  - by apply (plan_states_operations pid operations 0 [] w).
  - by apply (plan_states_at_source pid operations 0 [] w).
  - by apply (plan_states_temp_free pid operations 0 [] w).
  - apply plan_states_frame.
Qed.

(** ** A phase with [os.Rename] *)

Lemma os_Rename_lookup oldPath newPath (fs : gmap string string) data p :
  fs !! oldPath = Some data ->
  (os_Rename oldPath newPath fs).2 !! p
  = if decide (p = newPath) then Some data
    else if decide (p = oldPath) then None else fs !! p.
Proof.
  intros H. unfold os_Rename. rewrite H. simpl.
  case_decide as E1; [subst; by rewrite lookup_insert_eq|].
  rewrite lookup_insert_ne by done.
  case_decide as E2; [subst; by rewrite lookup_delete_eq|].
  by rewrite lookup_delete_ne.
Qed.

(** Moves with pairwise distinct paths, the sources being there: each
    destination gets what was at its source, each source is left empty, and
    no other path changes. *)
Lemma rename_all_lookup moves (fs : gmap string string) :
  NoDup (moves.*1 ++ moves.*2) ->
  Forall (fun m => is_Some (fs !! m.1)) moves ->
  (forall m, m ∈ moves -> rename_all moves fs !! m.2 = fs !! m.1)
  /\ (forall m, m ∈ moves -> rename_all moves fs !! m.1 = None)
  /\ (forall p, p ∉ moves.*1 -> p ∉ moves.*2 -> rename_all moves fs !! p = fs !! p).
Proof.
  revert fs. induction moves as [|[o n] rest IH]; intros fs Hnd Hsrc.
  - split; [|split]; [by intros m ?%elem_of_nil..|done].
  - apply Forall_cons in Hsrc as [[data Hdata] Hsrc]. simpl in Hdata.
    simpl in Hnd. apply NoDup_cons in Hnd as [Ho Hnd].
    assert (Hnd' : NoDup (rest.*1 ++ rest.*2)).
    { apply NoDup_app in Hnd as (H1 & H2 & H3). apply NoDup_cons in H3 as [_ H3].
      apply NoDup_app. split; [done|]. split; [|done].
      intros x Hx Hx'. apply (H2 x Hx). by right. }
    assert (Hn1 : n ∉ rest.*1).
    { apply NoDup_app in Hnd as (_ & H2 & _). intros Hx. apply (H2 n Hx). by left. }
    assert (Hn2 : n ∉ rest.*2).
    { apply NoDup_app in Hnd as (_ & _ & H3). by apply NoDup_cons in H3 as [? _]. }
    assert (Ho1 : o ∉ rest.*1).
    { intros Hx. apply Ho. apply elem_of_app. by left. }
    assert (Ho2 : o ∉ rest.*2).
    { intros Hx. apply Ho. apply elem_of_app. right. by right. }
    assert (Hon : o <> n).
    { intros ->. apply Ho. apply elem_of_app. right. by left. }
    set (fs1 := (os_Rename o n fs).2).
    assert (Hfs1 : forall p, fs1 !! p = if decide (p = n) then Some data
                              else if decide (p = o) then None else fs !! p).
    { intros p. by apply os_Rename_lookup. }
    assert (Hsrc1 : Forall (fun m => is_Some (fs1 !! m.1)) rest).
    { apply Forall_forall. intros m Hm. rewrite Forall_forall in Hsrc.
      assert (m.1 ∈ rest.*1) as Hin by (by apply list_elem_of_fmap_2).
      assert (m.1 <> n) by (intros E; apply Hn1; by rewrite <- E).
      assert (m.1 <> o) by (intros E; apply Ho1; by rewrite <- E).
      rewrite Hfs1, !decide_False by done. by apply Hsrc. }
    destruct (IH fs1 Hnd' Hsrc1) as (Ha & Hb & Hc).
    change (rename_all ((o, n) :: rest) fs) with (rename_all rest fs1).
    split; [|split].
    + intros m [->|Hm]%elem_of_cons; simpl.
      * rewrite Hc, Hfs1 by done. by rewrite decide_True.
      * rewrite (Ha m Hm), Hfs1.
        assert (m.1 ∈ rest.*1) as Hin by (by apply list_elem_of_fmap_2).
        assert (m.1 <> n) by (intros E; apply Hn1; by rewrite <- E).
        assert (m.1 <> o) by (intros E; apply Ho1; by rewrite <- E).
        by rewrite !decide_False.
    + intros m [->|Hm]%elem_of_cons; simpl.
      * rewrite Hc, Hfs1 by done. rewrite decide_False by done.
        by rewrite decide_True.
      * by apply Hb.
    + intros p Hp1 Hp2. simpl in Hp1, Hp2.
      rewrite not_elem_of_cons in Hp1, Hp2. destruct Hp1 as [? ?], Hp2 as [? ?].
      rewrite Hc, Hfs1 by done. by rewrite !decide_False.
Qed.

(** With [os.Rename], a phase whose sources exist and whose paths are
    pairwise distinct moves every state. *)
Lemma run_phase_os_Rename phase dest todo done w :
  NoDup ((moves_of dest todo).*1 ++ (moves_of dest todo).*2) ->
  Forall (fun st => is_Some (fs w !! CurrentPath st)) todo ->
  run_phase phase dest done todo os_Rename w
  = (inl (done ++ map (move_to dest) todo),
     {| fs := rename_all (moves_of dest todo) (fs w);
        stdout := stdout w;
        invocations := invocations w ++ moves_of dest todo |}).
Proof.
  revert done w. induction todo as [|st rest IH]; intros done w Hnd Hsrc.
  - simpl. rewrite !app_nil_r. by destruct w.
  - apply Forall_cons in Hsrc as [[data Hdata] Hsrc].
    simpl in Hnd. apply NoDup_cons in Hnd as [Ho Hnd].
    assert (Hnd' : NoDup ((moves_of dest rest).*1 ++ (moves_of dest rest).*2)).
    { apply NoDup_app in Hnd as (H1 & H2 & H3). apply NoDup_cons in H3 as [_ H3].
      apply NoDup_app. split; [done|]. split; [|done].
      intros x Hx Hx'. apply (H2 x Hx). by right. }
    cbn [run_phase]. unfold invoke. unfold os_Rename at 1. rewrite Hdata.
    rewrite IH; [| exact Hnd' |].
    + cbn [fs stdout invocations]. f_equal.
      * f_equal. rewrite <- app_assoc. done.
      * f_equal.
        -- cbn [moves_of map rename_all foldl fst snd]. unfold os_Rename at 2.
           by rewrite Hdata.
        -- rewrite <- app_assoc. done.
    + cbn [fs]. apply Forall_forall. intros st' Hin. rewrite Forall_forall in Hsrc.
      assert (CurrentPath st' ∈ (moves_of dest rest).*1) as Hc.
      { unfold moves_of. rewrite <- list_fmap_compose.
        by apply (list_elem_of_fmap_2 (fun s => CurrentPath s)). }
      rewrite lookup_insert_ne, lookup_delete_ne; [by apply Hsrc| |].
      * intros E. apply Ho. rewrite E. apply elem_of_app. by left.
      * intros E. apply NoDup_app in Hnd as (_ & H2 & _).
        apply (H2 _ Hc). rewrite <- E. by left.
Qed.

Lemma report_renamed_world states w :
  fs (report_renamed states w) = fs w
  /\ invocations (report_renamed states w) = invocations w.
Proof.
  revert w. induction states as [|st rest IH]; intros w; simpl; [done|].
  destruct (IH (print ("Renamed: " +:+ OldPath (operation_of st) +:+ " -> "
                         +:+ NewPath (operation_of st)) w)) as [-> ->]. done.
Qed.

Lemma moves_of_fst dest states :
  (moves_of dest states).*1 = map CurrentPath states.
Proof.
  unfold moves_of. induction states as [|st l IH]; [done|].
  cbn. f_equal. exact IH.
Qed.

Lemma moves_of_snd dest states : (moves_of dest states).*2 = map dest states.
Proof.
  unfold moves_of. induction states as [|st l IH]; [done|].
  cbn. f_equal. exact IH.
Qed.

Lemma moves_of_sources_exist dest states (fs : gmap string string) :
  Forall (fun st => is_Some (fs !! CurrentPath st)) states ->
  Forall (fun m => is_Some (fs !! m.1)) (moves_of dest states).
Proof. induction 1; simpl; by constructor. Qed.

Lemma map_CurrentPath_at_source states :
  Forall (fun st => CurrentPath st = OldPath (operation_of st)) states ->
  map CurrentPath states = sources states.
Proof.
  unfold sources. induction 1 as [|st l Hst Hl IH]; simpl; [done|].
  by rewrite Hst, IH.
Qed.

Lemma map_CurrentPath_move_to dest states :
  map CurrentPath (map (move_to dest) states) = map dest states.
Proof. induction states as [|st l IH]; simpl; [done|]. by rewrite IH. Qed.

Lemma targets_move_to dest states :
  map (fun st => NewPath (operation_of st)) (map (move_to dest) states)
  = targets states.
Proof. unfold targets. induction states as [|st l IH]; simpl; [done|]. by rewrite IH. Qed.

Lemma execute_live_unfold pid operations renameFn w states w1 :
  plan_states pid operations 0 [] w = (inl states, w1) ->
  states <> [] ->
  executeRenameOperationsWith pid operations false renameFn w
  = match run_phase "phase-one" TempPath [] states renameFn w1 with
    | (inr res, w2) => (res, w2)
    | (inl states1, w2) =>
        match run_phase "phase-two" (fun state => NewPath (operation_of state))
                [] states1 renameFn w2 with
        | (inr res, w3) => (res, w3)
        | (inl states2, w3) => (None, report_renamed states2 w3)
        end
    end.
Proof.
  intros Hplan Hne. unfold executeRenameOperationsWith. rewrite Hplan.
  destruct states; [done|]. reflexivity.
Qed.

Lemma live_run_moves pid operations w states :
  fst (plan_states pid operations 0 [] w) = inl states ->
  NoDup (sources states) ->
  NoDup (temps states ++ targets states) ->
  Forall (fun st => is_Some (fs w !! OldPath (operation_of st))) states ->
  let '(err, w') := executeRenameOperations pid operations false w in
  err = None
  /\ (forall st, st ∈ states ->
        fs w' !! NewPath (operation_of st) = fs w !! OldPath (operation_of st))
  /\ (forall p, p ∉ targets states ->
        fs w' !! p = if decide (p ∈ sources states) then None else fs w !! p)
  /\ invocations w'
     = invocations w
       ++ map (fun st => (OldPath (operation_of st), TempPath st)) states
       ++ map (fun st => (TempPath st, NewPath (operation_of st))) states.
Proof.
  intros Hplan Hsrc_nd Htt_nd Hsrc.
  pose proof (plan_states_at_source pid operations 0 [] w states Hplan
                (Forall_nil_2 _)) as Hat.
  pose proof (plan_states_temp_free pid operations 0 [] w states Hplan
                (Forall_nil_2 _)) as Hfree.
  pose proof (plan_states_frame pid operations 0 [] w) as [Hfs Hinv].
  unfold executeRenameOperations.
  destruct (plan_states pid operations 0 [] w) as [r w1] eqn:Hrun.
  simpl in Hplan, Hfs, Hinv. subst r. destruct states as [|st0 states0].
  { unfold executeRenameOperationsWith. rewrite Hrun.
    cbn [fs print invocations]. split; [done|]. split; [|split].
    - by intros st ?%elem_of_nil.
    - intros p _. rewrite Hfs. case_decide as E; [by apply elem_of_nil in E|done].
    - by rewrite Hinv, app_nil_r. }
  rewrite (execute_live_unfold _ _ _ _ _ _ Hrun) by done.
  set (states := st0 :: states0) in *.
  assert (Htemps_nd : NoDup (temps states)) by (by apply NoDup_app in Htt_nd as (? & _ & _)).
  assert (Hfresh : forall p, p ∈ temps states -> fs w !! p = None).
  { intros p Hp. apply list_elem_of_fmap in Hp as (st & -> & Hin).
    rewrite Forall_forall in Hfree. by apply Hfree. }
  assert (Hthere : forall p, p ∈ sources states -> is_Some (fs w !! p)).
  { intros p Hp. apply list_elem_of_fmap in Hp as (st & -> & Hin).
    rewrite Forall_forall in Hsrc. by apply Hsrc. }
  (* phase one *)
  assert (Hm1a : (moves_of TempPath states).*1 = sources states).
  { by rewrite moves_of_fst, map_CurrentPath_at_source. }
  assert (Hm1b : (moves_of TempPath states).*2 = temps states) by apply moves_of_snd.
  assert (Hnd1 : NoDup ((moves_of TempPath states).*1 ++ (moves_of TempPath states).*2)).
  { rewrite Hm1a, Hm1b. apply NoDup_app. split; [done|]. split; [|done].
    intros p Hp Hp'. apply Hthere in Hp as [? Hp]. apply Hfresh in Hp'. congruence. }
  assert (Hsrc1 : Forall (fun st => is_Some (fs w1 !! CurrentPath st)) states).
  { rewrite Hfs. apply Forall_forall. intros st Hin.
    rewrite Forall_forall in Hat, Hsrc. rewrite (Hat st Hin). by apply Hsrc. }
  rewrite (run_phase_os_Rename "phase-one" TempPath states [] w1 Hnd1 Hsrc1).
  cbv beta iota. rewrite app_nil_l.
  destruct (rename_all_lookup (moves_of TempPath states) (fs w1) Hnd1)
    as (H1a & H1b & H1c).
  { by apply moves_of_sources_exist. }
  set (fs1 := rename_all (moves_of TempPath states) (fs w1)) in *.
  set (states1 := map (move_to TempPath) states).
  (* phase two *)
  assert (Hm2a : (moves_of (fun st => NewPath (operation_of st)) states1).*1
                 = temps states).
  { rewrite moves_of_fst. apply map_CurrentPath_move_to. }
  assert (Hm2b : (moves_of (fun st => NewPath (operation_of st)) states1).*2
                 = targets states).
  { rewrite moves_of_snd. apply targets_move_to. }
  assert (Hfs1_temp : forall st, st ∈ states ->
            fs1 !! TempPath st = fs w !! OldPath (operation_of st)).
  { intros st Hin. rewrite <- Hfs.
    rewrite Forall_forall in Hat. rewrite <- (Hat st Hin).
    apply (H1a (CurrentPath st, TempPath st)).
    unfold moves_of. by apply (list_elem_of_fmap_2 (fun s => (CurrentPath s, TempPath s))). }
  assert (Hnd2 : NoDup ((moves_of (fun st => NewPath (operation_of st)) states1).*1
                        ++ (moves_of (fun st => NewPath (operation_of st)) states1).*2)).
  { by rewrite Hm2a, Hm2b. }
  assert (Hsrc2 : Forall (fun st => is_Some (fs1 !! CurrentPath st)) states1).
  { unfold states1. apply Forall_forall. intros st' Hin.
    apply list_elem_of_In, in_map_iff in Hin as (st & <- & Hin).
    apply list_elem_of_In in Hin.
    simpl. rewrite (Hfs1_temp st Hin). rewrite Forall_forall in Hsrc. by apply Hsrc. }
  fold states1.
  rewrite (run_phase_os_Rename "phase-two" _ states1 []
             {| fs := fs1; stdout := stdout w1;
                invocations := invocations w1 ++ moves_of TempPath states |}
             Hnd2 Hsrc2).
  cbv beta iota. rewrite app_nil_l. cbn [fs stdout invocations].
  destruct (rename_all_lookup (moves_of (fun st => NewPath (operation_of st)) states1)
              fs1 Hnd2) as (H2a & H2b & H2c).
  { by apply moves_of_sources_exist. }
  match goal with
  | |- context [report_renamed ?X ?W] =>
      destruct (report_renamed_world X W) as [Hrf Hri]
  end.
  rewrite Hrf, Hri. cbn [fs invocations].
  split; [done|]. split; [|split].
  - intros st Hin. rewrite <- (Hfs1_temp st Hin).
    apply (H2a (TempPath st, NewPath (operation_of st))).
    unfold moves_of, states1. rewrite <- list_fmap_compose.
    by apply (list_elem_of_fmap_2
                (fun s => (TempPath s, NewPath (operation_of s)))).
  - intros p Hp. destruct (decide (p ∈ temps states)) as [Ht|Ht].
    + assert (rename_all (moves_of (fun st => NewPath (operation_of st)) states1) fs1
              !! p = None) as ->.
      { apply list_elem_of_fmap in Ht as (st & -> & Hin).
        apply (H2b (TempPath st, NewPath (operation_of st))).
        unfold moves_of, states1. rewrite <- list_fmap_compose.
        by apply (list_elem_of_fmap_2
                    (fun s => (TempPath s, NewPath (operation_of s)))). }
      case_decide; [done|]. symmetry. by apply Hfresh.
    + rewrite H2c by (by rewrite ?Hm2a, ?Hm2b).
      case_decide as Hs.
      * apply list_elem_of_fmap in Hs as (st & -> & Hin).
        rewrite Forall_forall in Hat. rewrite <- (Hat st Hin).
        apply (H1b (CurrentPath st, TempPath st)).
        unfold moves_of.
        by apply (list_elem_of_fmap_2 (fun s => (CurrentPath s, TempPath s))).
      * unfold fs1. rewrite H1c by (by rewrite ?Hm1a, ?Hm1b). by rewrite Hfs.
  - rewrite <- app_assoc, Hinv. f_equal. f_equal.
    + unfold moves_of. apply map_ext_Forall. eapply Forall_impl; [exact Hat|].
      simpl. by intros st ->.
    + unfold moves_of, states1. by rewrite map_map.
Qed.

(** X4.  The live run with [os.Rename], when the sources are pairwise
    distinct and present, and the temporary and target paths are pairwise
    distinct: it returns nil, every file ends at its target with its
    contents (also when targets are sources of other operations, as in a
    swap), nothing is left at a source that is not a target or at a
    temporary path, every other path is as before, and the rename function
    was called twice per state: source to temporary path in the first
    phase, temporary path to target in the second. *)
Theorem two_phase_moves pid operations w states :
  fst (plan_states pid operations 0 [] w) = inl states ->
  NoDup (sources states) ->
  NoDup (temps states ++ targets states) ->
  Forall (fun st => is_Some (fs w !! OldPath (operation_of st))) states ->
  let '(err, w') := executeRenameOperations pid operations false w in
  err = None
  /\ (forall st, st ∈ states ->
        fs w' !! NewPath (operation_of st) = fs w !! OldPath (operation_of st))
  /\ (forall p, p ∉ targets states ->
        fs w' !! p = if decide (p ∈ sources states) then None else fs w !! p)
  /\ invocations w'
     = invocations w
       ++ map (fun st => (OldPath (operation_of st), TempPath st)) states
       ++ map (fun st => (TempPath st, NewPath (operation_of st))) states.
Proof. exact (live_run_moves pid operations w states). Qed.

(** ** What a run may touch *)

Lemma os_Rename_frame oldPath newPath (fs : gmap string string) p :
  p <> oldPath -> p <> newPath ->
  (os_Rename oldPath newPath fs).2 !! p = fs !! p.
Proof.
  intros H1 H2. unfold os_Rename. destruct (fs !! oldPath); [|done]. simpl.
  by rewrite lookup_insert_ne, lookup_delete_ne.
Qed.

Lemma invoke_frame renameFn oldPath newPath w p :
  well_behaved renameFn -> p <> oldPath -> p <> newPath ->
  fs (invoke renameFn oldPath newPath w).2 !! p = fs w !! p.
Proof.
  intros Hwb H1 H2. unfold invoke.
  destruct (Hwb oldPath newPath (fs w)) as [E|[e E]]; rewrite E.
  - pose proof (os_Rename_frame oldPath newPath (fs w) p H1 H2) as H.
    by destruct (os_Rename oldPath newPath (fs w)).
  - done.
Qed.

Lemma apart_move_to p dest state :
  apart p state -> dest state ∈ slot state -> apart p (move_to dest state).
Proof.
  intros [H1 H2] Hd. split; [|done]. simpl. intros ->. by apply H2.
Qed.

Lemma rollback_from_frame renameFn p states errs w :
  well_behaved renameFn -> Forall (apart p) states ->
  fs (rollback_from states renameFn errs w).2 !! p = fs w !! p.
Proof.
  intros Hwb Hall. revert errs w.
  induction Hall as [|st rest [H1 H2] Hall IH]; intros errs w; simpl; [done|].
  destruct (String.eqb _ _); [apply IH|].
  destruct (os_Stat (fs w) (CurrentPath st)); try apply IH.
  pose proof (invoke_frame renameFn (CurrentPath st) (OldPath (operation_of st)) w p
                Hwb H1) as Hf.
  destruct (invoke _ _ _ _) as [[e|] w1]; rewrite IH; apply Hf;
    intros ->; apply H2; by left.
Qed.

Lemma fail_and_rollback_frame renameFn p ex states w :
  well_behaved renameFn -> Forall (apart p) states ->
  fs (fail_and_rollback ex states renameFn w).2 !! p = fs w !! p.
Proof.
  intros Hwb Hall. unfold fail_and_rollback, rollbackRenameStates.
  pose proof (rollback_from_frame renameFn p (rev states) [] w Hwb) as H.
  destruct (rollback_from (rev states) renameFn [] w) as [[|e errs] w1];
    simpl in *; apply H; by apply Forall_rev.
Qed.

Lemma run_phase_frame phase dest renameFn p todo done w :
  well_behaved renameFn ->
  Forall (apart p) (done ++ todo) ->
  Forall (fun st => dest st ∈ slot st) todo ->
  fs (run_phase phase dest done todo renameFn w).2 !! p = fs w !! p
  /\ match (run_phase phase dest done todo renameFn w).1 with
     | inl states' => Forall (apart p) states'
     | inr _ => True
     end.
Proof.
  intros Hwb. revert done w.
  induction todo as [|st rest IH]; intros done w Hall Hdest.
  - simpl. by rewrite app_nil_r in Hall.
  - apply Forall_cons in Hdest as [Hd Hdest]. cbn [run_phase].
    assert (apart p st) as [H1 H2].
    { rewrite Forall_app, Forall_cons in Hall. tauto. }
    pose proof (invoke_frame renameFn (CurrentPath st) (dest st) w p Hwb H1) as Hf.
    destruct (invoke renameFn (CurrentPath st) (dest st) w) as [[e|] w1].
    + pose proof (fail_and_rollback_frame renameFn p
                    (RenameExecutionError phase (CurrentPath st) (dest st) e)
                    (done ++ st :: rest) w1 Hwb Hall) as Hr.
      destruct (fail_and_rollback _ _ _ _) as [res w2]. simpl in *.
      split; [|done]. rewrite Hr. apply Hf. intros ->. by apply H2.
    + destruct (IH (done ++ [set_CurrentPath st (dest st)]) w1) as [Hfs Hst].
      * rewrite <- app_assoc. simpl.
        rewrite Forall_app, Forall_cons in Hall |- *.
        destruct Hall as (? & ? & ?). repeat split; try done.
        by apply (apart_move_to p dest st).
      * done.
      * split; [|exact Hst]. rewrite Hfs. apply Hf. intros ->. by apply H2.
Qed.

Lemma dry_run_fs operations w : fs (dry_run operations w) = fs w.
Proof. by rewrite dry_run_spec. Qed.

(** X5.  Whatever the operations, the mode and the outcome, and whatever a
    rename function that either renames or fails without effect does, a run
    changes nothing at a path that is not a source, temporary or target
    path of one of its states. *)
Theorem execute_touches_only_batch pid operations dryRun renameFn w p :
  well_behaved renameFn ->
  (forall states, fst (plan_states pid operations 0 [] w) = inl states ->
     p ∉ slots states) ->
  fs (executeRenameOperationsWith pid operations dryRun renameFn w).2 !! p
  = fs w !! p.
Proof.
  intros Hwb Hp. unfold executeRenameOperationsWith.
  destruct dryRun; [simpl; by rewrite dry_run_fs|].
  pose proof (plan_states_frame pid operations 0 [] w) as [Hfs _].
  pose proof (plan_states_at_source pid operations 0 [] w) as Hat.
  destruct (plan_states pid operations 0 [] w) as [[states|e] w1];
    cbn [fst snd] in *; rewrite <- Hfs; [|done].
  specialize (Hp states eq_refl). specialize (Hat states eq_refl (Forall_nil_2 _)).
  assert (Hall : Forall (apart p) ([] ++ states)).
  { apply Forall_forall. intros st Hin. rewrite Forall_forall in Hat.
    assert (p ∉ slot st) as Hs.
    { intros Hs. apply Hp, elem_of_slots. eauto. }
    split; [|done]. rewrite (Hat st Hin). intros ->. apply Hs. by left. }
  destruct states as [|st0 states0]; [done|].
  remember (st0 :: states0) as states eqn:Est. clear Est.
  destruct (run_phase_frame "phase-one" TempPath renameFn p states [] w1 Hwb Hall)
    as [Hf1 Hs1].
  { apply Forall_forall. intros st _. right. by left. }
  destruct (run_phase "phase-one" TempPath [] states renameFn w1) as [[states1|res] w2];
    cbn [fst snd] in *; [|done].
  destruct (run_phase_frame "phase-two" (fun st => NewPath (operation_of st))
              renameFn p states1 [] w2 Hwb Hs1) as [Hf2 Hs2].
  { apply Forall_forall. intros st _. right. right. by left. }
  destruct (run_phase "phase-two" _ [] states1 renameFn w2) as [[states2|res] w3];
    cbn [fst snd] in *.
  - destruct (report_renamed_world states2 w3) as [-> _]. by rewrite Hf2, Hf1.
  - by rewrite Hf2, Hf1.
Qed.

(** ** All or nothing *)

Lemma fail_and_rollback_outcome renameFn fs0 phase from to e states w res w' :
  well_behaved renameFn ->
  batch_ok fs0 states -> layout fs0 (fs w) states ->
  fail_and_rollback (RenameExecutionError phase from to e) states renameFn w
  = (res, w') ->
  (res = Some (RenameExecutionError phase from to e) /\ fs w' = fs0)
  \/ exists rollbackErr,
       res = Some (joinError [ RenameExecutionError phase from to e;
                               wrapError "rollback failed" rollbackErr ]).
Proof.
  intros Hwb Hgood Hlay. unfold fail_and_rollback.
  destruct (rollbackRenameStates states renameFn w) as [[rb|] w1] eqn:Hrb;
    intros [= <- <-]; [right; eauto|left].
  split; [done|].
  apply (rollbackRenameStates_layout renameFn fs0 states w w1 Hwb Hgood Hlay) in Hrb.
  eapply layout_at_sources; [|exact Hrb]. by destruct Hgood as (_ & _ & _ & ?).
Qed.

Lemma slots_move_to dest states : slots (map (move_to dest) states) = slots states.
Proof.
  unfold slots. induction states as [|st l IH]; simpl; [done|]. by rewrite IH.
Qed.

Lemma occupied_move_to dest states p :
  occupied (map (move_to dest) states) p <-> p ∈ map dest states.
Proof.
  unfold occupied. rewrite Exists_exists, list_elem_of_In, in_map_iff. split.
  - intros (st & Hin & <-).
    apply list_elem_of_In, in_map_iff in Hin as (st' & <- & Hin').
    exists st'. by split.
  - intros (st & <- & Hin). exists (move_to dest st). split; [|done].
    apply list_elem_of_In, in_map_iff. eauto.
Qed.

Lemma elem_of_slots_cases p states :
  p ∈ slots states <->
  p ∈ sources states \/ p ∈ temps states \/ p ∈ targets states.
Proof.
  rewrite elem_of_slots. unfold sources, temps, targets.
  rewrite !list_elem_of_In, !in_map_iff. split.
  - intros (st & Hin & Hp). apply list_elem_of_In in Hin. unfold slot in Hp.
    rewrite !elem_of_cons, elem_of_nil in Hp.
    destruct Hp as [->|[->|[->|[]]]]; eauto 6.
  - intros [(st & <- & Hin)|[(st & <- & Hin)|(st & <- & Hin)]];
      exists st; rewrite list_elem_of_In; (split; [done|]); unfold slot;
      rewrite !elem_of_cons; tauto.
Qed.

(** X6.  A live run over a batch whose source, temporary and target paths are
    pairwise distinct, with the sources present and nothing at the temporary
    and target paths, and a rename function that either renames or fails
    without effect, has one of three outcomes: nil, with every file at its
    target and nothing left at the sources; the execution error of the
    failed rename, with the file system exactly as at the start; or that
    error joined with a rollback failure. *)
Theorem live_run_all_or_nothing pid operations renameFn w states :
  well_behaved renameFn ->
  fst (plan_states pid operations 0 [] w) = inl states ->
  NoDup (slots states) ->
  Forall (fun st => is_Some (fs w !! OldPath (operation_of st))) states ->
  vacant_targets (fs w) states ->
  let '(err, w') := executeRenameOperationsWith pid operations false renameFn w in
  (err = None
   /\ (forall st, st ∈ states ->
         fs w' !! NewPath (operation_of st) = fs w !! OldPath (operation_of st))
   /\ (forall p, p ∉ targets states ->
         fs w' !! p = if decide (p ∈ sources states) then None else fs w !! p))
  \/ (exists phase from to e,
        err = Some (RenameExecutionError phase from to e) /\ fs w' = fs w)
  \/ (exists phase from to e rollbackErr,
        err = Some (joinError [ RenameExecutionError phase from to e;
                                wrapError "rollback failed" rollbackErr ])).
Proof.
  intros Hwb Hplan Hnd Hsrc Hvac.
  pose proof (plan_states_frame pid operations 0 [] w) as [Hfs _].
  pose proof (plan_states_at_source pid operations 0 [] w states Hplan
                (Forall_nil_2 _)) as Hat.
  destruct (plan_states pid operations 0 [] w) as [r w1] eqn:Hp.
  simpl in Hplan, Hfs. subst r.
  destruct (decide (states = [])) as [->|Hne].
  { unfold executeRenameOperationsWith. rewrite Hp. left.
    split; [done|]. split; [intros st Hin; by apply elem_of_nil in Hin|].
    intros p _. destruct (decide (p ∈ sources [])) as [H|_];
      [by apply elem_of_nil in H|]. simpl. by rewrite Hfs. }
  rewrite (execute_live_unfold pid operations renameFn w states w1 Hp Hne).
  assert (Hgood : batch_ok (fs w) ([] ++ states)).
  { split; [done|]. split; [|by split]. unfold settled.
    eapply Forall_impl; [exact Hat|]. simpl. intros st ->. by left. }
  assert (Hlay : layout (fs w) (fs w1) ([] ++ states)).
  { rewrite Hfs. by apply layout_start. }
  pose proof (run_phase_layout "phase-one" TempPath renameFn (fs w) Hwb
                states [] w1 Hgood Hlay) as H1.
  destruct (run_phase "phase-one" TempPath [] states renameFn w1) as [[states1|res] w2].
  2:{ destruct H1 as (sts & f1 & t1 & e1 & w1' & Hg & Hl & Hfr).
      { apply Forall_forall. intros st Hin. split; [right; by left|].
        rewrite Forall_forall in Hat. rewrite (Hat st Hin).
        destruct (slot_distinct states st Hnd Hin) as (? & _ & _). done. }
      right.
      destruct (fail_and_rollback_outcome renameFn (fs w) _ _ _ _ _ _ _ _
                  Hwb Hg Hl Hfr) as [[-> Hw]|[rb ->]]; [left|right]; eauto 8. }
  destruct H1 as (-> & Hgood1 & Hlay1).
  { apply Forall_forall. intros st Hin. split; [right; by left|].
    rewrite Forall_forall in Hat. rewrite (Hat st Hin).
    destruct (slot_distinct states st Hnd Hin) as (? & _ & _). done. }
  rewrite app_nil_l in Hgood1, Hlay1.
  pose proof (run_phase_layout "phase-two" (fun state => NewPath (operation_of state))
                renameFn (fs w) Hwb
                (map (fun st => set_CurrentPath st (TempPath st)) states) [] w2
                Hgood1 Hlay1) as H2.
  rewrite app_nil_l.
  destruct (run_phase "phase-two" _ [] _ renameFn w2) as [[states2|res] w3].
  2:{ destruct H2 as (sts & f2 & t2 & e2 & w2' & Hg & Hl & Hfr).
      { apply Forall_forall. intros st Hin.
        apply list_elem_of_In, in_map_iff in Hin as (st' & <- & Hin').
        apply list_elem_of_In in Hin'. simpl.
        split; [right; right; by left|].
        destruct (slot_distinct states st' Hnd Hin') as (_ & ? & _). done. }
      right.
      destruct (fail_and_rollback_outcome renameFn (fs w) _ _ _ _ _ _ _ _
                  Hwb Hg Hl Hfr) as [[-> Hw]|[rb ->]]; [left|right]; eauto 8. }
  destruct H2 as (-> & Hgood2 & [Hcur Hrest]).
  { apply Forall_forall. intros st Hin.
    apply list_elem_of_In, in_map_iff in Hin as (st' & <- & Hin').
    apply list_elem_of_In in Hin'. simpl.
    split; [right; right; by left|].
    destruct (slot_distinct states st' Hnd Hin') as (_ & ? & _). done. }
  left. split; [done|].
  destruct (report_renamed_world
              ([] ++ map (fun st => set_CurrentPath st (NewPath (operation_of st)))
                 (map (fun st => set_CurrentPath st (TempPath st)) states)) w3)
    as [-> _].
  rewrite app_nil_l in Hcur, Hrest.
  split.
  - intros st Hin. rewrite Forall_forall in Hcur.
    apply (Hcur (move_to (fun st => NewPath (operation_of st)) (move_to TempPath st))).
    apply list_elem_of_In, in_map_iff. eexists. split; [reflexivity|].
    apply in_map_iff. exists st. split; [reflexivity|]. by apply list_elem_of_In.
  - intros p Hp'.
    rewrite Hrest.
    + change (map (fun st => set_CurrentPath st (NewPath (operation_of st)))
                (map (fun st => set_CurrentPath st (TempPath st)) states))
        with (map (move_to (fun st => NewPath (operation_of st)))
                (map (move_to TempPath) states)).
      rewrite !slots_move_to.
      destruct (decide (p ∈ slots states)) as [Hin|Hout].
      * apply elem_of_slots_cases in Hin as [Hin|[Hin|Hin]]; [| |done].
        -- by rewrite decide_True.
        -- assert (fs w !! p = None) as ->.
           { unfold temps in Hin.
             apply list_elem_of_In, in_map_iff in Hin as (st & <- & Hin).
             unfold vacant_targets in Hvac. rewrite Forall_forall in Hvac.
             apply list_elem_of_In in Hin. by destruct (Hvac st Hin). }
           by destruct (decide _).
      * rewrite decide_False; [done|].
        intros Hin. apply Hout, elem_of_slots_cases. by left.
    + intros Hocc.
      change (map (fun st => set_CurrentPath st (NewPath (operation_of st)))
                (map (fun st => set_CurrentPath st (TempPath st)) states))
        with (map (move_to (fun st => NewPath (operation_of st)))
                (map (move_to TempPath) states)) in Hocc.
      apply occupied_move_to in Hocc. apply Hp'.
      by rewrite <- (targets_move_to TempPath).
Qed.

(** ** What the preflight check accepts *)

Lemma moving_cons_noop operation rest :
  is_noop operation = true -> moving (operation :: rest) = moving rest.
Proof. intros E. unfold moving. simpl. by rewrite E. Qed.

Lemma moving_cons_moving operation rest :
  is_noop operation = false -> moving (operation :: rest) = operation :: moving rest.
Proof. intros E. unfold moving. simpl. by rewrite E. Qed.

Lemma preflight_loop stat operations :
  forall issues sourcePaths targetPaths,
    let '(issues', sourcePaths', targetPaths') :=
      foldl (preflight_step stat) (issues, sourcePaths, targetPaths) operations in
    (issues' = [] <->
       issues = [] /\ Forall (checked stat) operations
       /\ NoDup (map NewPath (moving operations))
       /\ forall t, t ∈ map NewPath (moving operations) -> t ∉ targetPaths)
    /\ (issues' = [] ->
        (forall p, p ∈ sourcePaths' <-> p ∈ map OldPath operations \/ p ∈ sourcePaths)
        /\ (forall p, p ∈ targetPaths' <->
              p ∈ map NewPath (moving operations) \/ p ∈ targetPaths)).
Proof.
  induction operations as [|operation rest IH]; intros issues sourcePaths targetPaths.
  - simpl. split.
    + split; [intros ->|tauto]. repeat split; try constructor.
      intros t Ht. by apply elem_of_nil in Ht.
    + intros _. split; intros p; rewrite elem_of_nil; tauto.
  - cbn [foldl].
    assert (Hbad : forall issue sourcePaths1,
      let '(issues', sourcePaths', targetPaths') :=
        foldl (preflight_step stat) (issues ++ [issue], sourcePaths1, targetPaths) rest in
      issues' <> []).
    { intros issue sourcePaths1.
      specialize (IH (issues ++ [issue]) sourcePaths1 targetPaths).
      destruct (foldl _ _ rest) as [[i' s'] t'].
      destruct IH as [IH _]. intros E. apply IH in E as [E _]. by destruct issues. }
    unfold preflight_step at 2.
    destruct (blank (OldPath operation)) eqn:Eold.
    { specialize (Hbad "operation contains empty source path" sourcePaths).
      destruct (foldl _ _ rest) as [[i' s'] t']. split; [|done].
      split; [done|]. intros (_ & Hall & _). apply Forall_cons in Hall as [[H _] _].
      congruence. }
    destruct (blank (NewPath operation)) eqn:Enew.
    { match goal with |- context [foldl _ (issues ++ [?x], _, _) rest] =>
        specialize (Hbad x sourcePaths) end.
      destruct (foldl _ _ rest) as [[i' s'] t']. split; [|done].
      split; [done|]. intros (_ & Hall & _).
      apply Forall_cons in Hall as [(_ & H & _) _]. congruence. }
    cbv zeta.
    destruct (stat (OldPath operation)) eqn:Estat.
    2,3: specialize (Hbad (missing_source_issue (OldPath operation))
                       ({[OldPath operation]} ∪ sourcePaths));
      destruct (foldl _ _ rest) as [[i' s'] t']; (split; [|done]);
      (split; [done|]); intros (_ & Hall & _);
      apply Forall_cons in Hall as [(_ & _ & H) _]; congruence.
    change (String.eqb (OldPath operation) (NewPath operation))
      with (is_noop operation).
    destruct (is_noop operation) eqn:Eq;
      [rewrite (moving_cons_noop _ _ Eq)|rewrite (moving_cons_moving _ _ Eq)].
    { specialize (IH issues ({[OldPath operation]} ∪ sourcePaths) targetPaths).
      destruct (foldl _ _ rest) as [[i' s'] t']. destruct IH as [IH1 IH2].
      split.
      - rewrite IH1, Forall_cons. unfold checked at 2. tauto.
      - intros E. destruct (IH2 E) as [Hs Ht]. split; [|done].
        intros p. rewrite Hs, elem_of_union, elem_of_singleton. cbn [map].
        rewrite elem_of_cons. tauto. }
    cbn [map].
    destruct (decide (NewPath operation ∈ targetPaths)) as [Hin|Hout].
    { specialize (Hbad (duplicate_issue (NewPath operation))
                    ({[OldPath operation]} ∪ sourcePaths)).
      destruct (foldl _ _ rest) as [[i' s'] t']. split; [|done].
      split; [done|]. intros (_ & _ & _ & H).
      exfalso. apply (H (NewPath operation)); [by left|done]. }
    specialize (IH issues ({[OldPath operation]} ∪ sourcePaths)
                  ({[NewPath operation]} ∪ targetPaths)).
    destruct (foldl _ _ rest) as [[i' s'] t']. destruct IH as [IH1 IH2]. split.
    + rewrite IH1, Forall_cons, NoDup_cons. unfold checked at 2.
      split.
      * intros (Hi & Hall & Hnd & Hfresh). repeat split; try done.
        -- intros Hin. apply (Hfresh _ Hin). apply elem_of_union. left.
           by apply elem_of_singleton.
        -- intros t Ht. apply elem_of_cons in Ht as [->|Ht]; [done|].
           intros Htin. apply (Hfresh _ Ht). apply elem_of_union. by right.
      * intros (Hi & [_ Hall] & [Hnin Hnd] & Hfresh). repeat split; try done.
        intros t Ht Htin. apply elem_of_union in Htin as [Htin|Htin].
        -- apply elem_of_singleton in Htin as ->. done.
        -- apply (Hfresh t); [by right|done].
    + intros E. destruct (IH2 E) as [Hs Ht]. split; intros p.
      * rewrite Hs, elem_of_union, elem_of_singleton, elem_of_cons. tauto.
      * rewrite Ht, elem_of_union, elem_of_singleton, elem_of_cons. tauto.
Qed.

Lemma target_loop stat sourcePaths targets :
  forall issues,
    foldl (target_step stat sourcePaths) issues targets = [] <->
    issues = []
    /\ Forall (fun t => t ∈ sourcePaths \/ stat t = StatNotExist) targets.
Proof.
  induction targets as [|t rest IH]; intros issues; cbn [foldl].
  - split; [intros ->; by split|tauto].
  - rewrite IH, Forall_cons. unfold target_step.
    destruct (decide (t ∈ sourcePaths)) as [Hin|Hout]; [tauto|].
    destruct (stat t) eqn:E.
    + split; [intros [H _]; by destruct issues|].
      intros (_ & [H|H] & _); [done|discriminate].
    + tauto.
    + split; [intros [H _]; by destruct issues|].
      intros (_ & [H|H] & _); [done|discriminate].
Qed.

Lemma preflight_characterised stat range_set operations :
  set_order_ok range_set ->
  preflightRenameOperations stat range_set operations = None
  <-> acceptable stat operations.
Proof.
  intros Hord. unfold preflightRenameOperations, preflight_issues, acceptable.
  set (issues0 := match operations with
                  | [] => ["no matched file pairs were found"]
                  | _ :: _ => []
                  end).
  assert (H0 : issues0 = [] <-> operations <> []) by (by destruct operations).
  pose proof (preflight_loop stat operations issues0 ∅ ∅) as Hloop.
  destruct (foldl (preflight_step stat) _ operations) as [[issues1 s1] t1].
  destruct Hloop as [H1 H2].
  pose proof (target_loop stat s1 (range_set t1) issues1) as H3.
  assert (Hfree : issues1 = [] ->
    Forall (fun t => t ∈ s1 \/ stat t = StatNotExist) (range_set t1)
    <-> Forall (free_target stat operations) (map NewPath (moving operations))).
  { intros E. destruct (H2 E) as [Hs Ht]. rewrite !Forall_forall.
    assert (Hmem : forall t, t ∈ range_set t1 <-> t ∈ map NewPath (moving operations)).
    { intros t. rewrite (Hord t1), elem_of_elements, Ht, elem_of_empty. tauto. }
    split; intros H t Hin.
    - apply Hmem in Hin. destruct (H t Hin) as [Hin'|Hst]; [left|by right].
      apply Hs in Hin' as [Hin'|Hin']; [done|by apply elem_of_empty in Hin'].
    - apply Hmem in Hin. destruct (H t Hin) as [Hin'|Hst]; [left|by right].
      apply Hs. by left. }
  split.
  - intros E.
    assert (foldl (target_step stat s1) issues1 (range_set t1) = []) as E'.
    { by destruct (foldl _ issues1 _). }
    apply H3 in E' as [E1 Hall]. pose proof (Hfree E1) as Hf.
    apply H1 in E1 as (Hi & Hc & Hnd & _).
    repeat split; try tauto.
  - intros (Hne & Hc & Hnd & Hf).
    assert (issues1 = []) as E1.
    { apply H1. repeat split; try tauto. intros t _. apply not_elem_of_empty. }
    assert (foldl (target_step stat s1) issues1 (range_set t1) = []) as ->; [|done].
    apply H3. split; [done|]. by apply Hfree.
Qed.

(** X7.  The preflight check returns nil exactly when there is at least one
    operation, every operation has non-blank paths and a source that
    [os.Stat] finds, the targets of the operations that are not no-ops are
    pairwise distinct, and each of them is the source of some operation or
    is reported absent by [os.Stat]. *)
Theorem preflight_accepts_iff stat range_set operations :
  set_order_ok range_set ->
  preflightRenameOperations stat range_set operations = None
  <-> acceptable stat operations.
Proof. exact (preflight_characterised stat range_set operations). Qed.

(** ** A checked batch *)

Lemma sources_operations states :
  sources states = map OldPath (map operation_of states).
Proof. unfold sources. by rewrite map_map. Qed.

Lemma targets_operations states :
  targets states = map NewPath (map operation_of states).
Proof. unfold targets. by rewrite map_map. Qed.

Lemma plan_states_moving pid operations w states :
  fst (plan_states pid operations 0 [] w) = inl states ->
  map operation_of states = moving operations.
Proof. intros H. by apply (plan_states_operations pid operations 0 [] w). Qed.

Lemma moving_subset operation operations :
  operation ∈ moving operations -> operation ∈ operations.
Proof.
  unfold moving. rewrite !list_elem_of_In, filter_In. tauto.
Qed.

Lemma os_Stat_OK (fs : gmap string string) p :
  os_Stat fs p = StatOK <-> is_Some (fs !! p).
Proof.
  unfold os_Stat. destruct (fs !! p) eqn:E; split; try done; by intros [? ?].
Qed.

Lemma os_Stat_NotExist (fs : gmap string string) p :
  os_Stat fs p = StatNotExist <-> fs !! p = None.
Proof. unfold os_Stat. by destruct (fs !! p). Qed.

(** X8.  A batch that passes the preflight check, on the file system the
    live run starts from, with pairwise distinct sources and with temporary
    paths distinct from each other and from the targets: the live run with
    [os.Rename] returns nil, every operation that is not a no-op has its
    file at its target, and every file that is not the source of an
    operation is left as it was. *)
Theorem checked_batch_succeeds pid range_set operations w states :
  set_order_ok range_set ->
  preflightRenameOperations (os_Stat (fs w)) range_set operations = None ->
  fst (plan_states pid operations 0 [] w) = inl states ->
  NoDup (sources states) ->
  NoDup (temps states) ->
  (forall p, p ∈ temps states -> p ∉ targets states) ->
  let '(err, w') := executeRenameOperations pid operations false w in
  err = None
  /\ (forall operation, operation ∈ moving operations ->
        fs w' !! NewPath operation = fs w !! OldPath operation)
  /\ (forall p, p ∉ map OldPath operations -> is_Some (fs w !! p) ->
        fs w' !! p = fs w !! p).
Proof.
  intros Hord Hpre Hplan Hsrc_nd Htmp_nd Hdisj.
  apply (preflight_characterised _ _ _ Hord) in Hpre as (_ & Hchk & Htgt_nd & Hfree).
  pose proof (plan_states_moving pid operations w states Hplan) as Hops.
  assert (Htgt : targets states = map NewPath (moving operations)).
  { by rewrite targets_operations, Hops. }
  assert (Hsrc : sources states = map OldPath (moving operations)).
  { by rewrite sources_operations, Hops. }
  pose proof (live_run_moves pid operations w states Hplan Hsrc_nd) as H.
  destruct (executeRenameOperations pid operations false w) as [err w'].
  destruct H as (Herr & Hmoved & Hrest & _).
  { apply NoDup_app. split; [done|]. split; [done|]. by rewrite Htgt. }
  { apply Forall_forall. intros st Hin. apply os_Stat_OK.
    rewrite Forall_forall in Hchk. apply Hchk, moving_subset.
    rewrite <- Hops. by apply list_elem_of_fmap_2. }
  split; [done|]. split.
  - intros operation Hin. rewrite <- Hops in Hin.
    apply list_elem_of_fmap in Hin as (st & -> & Hin). by apply Hmoved.
  - intros p Hp Hex. rewrite Hrest.
    + rewrite decide_False; [done|]. rewrite Hsrc. intros Hin.
      apply Hp. apply list_elem_of_fmap in Hin as (operation & -> & Hin).
      by apply list_elem_of_fmap_2, moving_subset.
    + rewrite Htgt. intros Hin. rewrite Forall_forall in Hfree.
      destruct (Hfree p Hin) as [Hin'|Hst]; [done|].
      apply os_Stat_NotExist in Hst. rewrite Hst in Hex. by destruct Hex.
Qed.

(** X9.  The path of a no-op operation counts as a source in the preflight
    check: a batch of an operation from [a] to [b] and a no-op operation at
    [b], both files being there, passes the check, and a live run that
    returns nil has replaced the file at [b] by the one from [a]. *)
Theorem noop_path_overwritten pid range_set a b w :
  set_order_ok range_set ->
  a <> b -> blank a = false -> blank b = false ->
  is_Some (fs w !! a) -> is_Some (fs w !! b) ->
  let operations := [ {| OldPath := a; NewPath := b |};
                      {| OldPath := b; NewPath := b |} ] in
  preflightRenameOperations (os_Stat (fs w)) range_set operations = None
  /\ forall w', executeRenameOperations pid operations false w = (None, w') ->
       fs w' !! b = fs w !! a /\ fs w' !! a = None.
Proof.
  intros Hord Hab Ha Hb Hina Hinb operations.
  assert (Hmov : moving operations = [ {| OldPath := a; NewPath := b |} ]).
  { unfold moving, operations, is_noop. simpl.
    rewrite String.eqb_refl. apply String.eqb_neq in Hab. by rewrite Hab. }
  split.
  - apply (preflight_characterised _ _ _ Hord). split; [done|].
    split; [|split].
    + repeat constructor; simpl; try done; by apply os_Stat_OK.
    + rewrite Hmov. simpl. apply NoDup_singleton.
    + rewrite Hmov. constructor; [|constructor]. left. simpl. right. by left.
  - intros w' Hrun.
    destruct (plan_states pid operations 0 [] w) as [[states|e] w1] eqn:Hplan.
    2:{ unfold executeRenameOperations, executeRenameOperationsWith in Hrun.
        rewrite Hplan in Hrun. discriminate. }
    assert (Hplan' : fst (plan_states pid operations 0 [] w) = inl states)
      by (by rewrite Hplan).
    pose proof (plan_states_moving pid operations w states Hplan') as Hops.
    rewrite Hmov in Hops.
    pose proof (plan_states_temp_free pid operations 0 [] w states Hplan'
                  (Forall_nil_2 _)) as Hfree.
    destruct states as [|st [|st' states]]; try discriminate.
    injection Hops as Hop. apply Forall_cons in Hfree as [Hfree _].
    assert (Hnd1 : NoDup (sources [st])) by apply NoDup_singleton.
    assert (Hnd2 : NoDup (temps [st] ++ targets [st])).
    { unfold temps, targets. simpl. rewrite Hop. simpl.
      apply NoDup_cons. split; [|apply NoDup_singleton].
      intros Hin%list_elem_of_singleton. rewrite Hin in Hfree.
      rewrite Hfree in Hinb. by destruct Hinb. }
    assert (Hsrc : Forall (fun st => is_Some (fs w !! OldPath (operation_of st))) [st]).
    { constructor; [|constructor]. by rewrite Hop. }
    pose proof (live_run_moves pid operations w [st] Hplan' Hnd1 Hnd2 Hsrc) as H.
    rewrite Hrun in H. destruct H as (_ & Hmoved & Hrest & _).
    split.
    + specialize (Hmoved st). rewrite Hop in Hmoved. apply Hmoved. by left.
    + rewrite (Hrest a).
      * rewrite decide_True; [done|]. unfold sources. simpl. rewrite Hop. by left.
      * unfold targets. simpl. rewrite Hop. simpl.
        by intros Hin%list_elem_of_singleton.
Qed.

(** ** Which files are paired *)

Lemma pair_videos_fate before v after :
  forall (m : gmap Z FileInfo) P U m',
    pair_videos (before ++ v :: after) [] [] m = (P, U, m') ->
    (Forall (fun b => matchKey b <> matchKey v) before ->
     forall s, m !! matchKey v = Some s -> {| Video := v; Subtitle := s |} ∈ P)
    /\ (Exists (fun b => matchKey b = matchKey v) before \/ m !! matchKey v = None ->
        v ∈ U).
Proof.
  induction before as [|b before IH]; intros m P U m'; simpl.
  - destruct (m !! matchKey v) as [s|] eqn:E; rewrite pair_videos_acc;
      destruct (pair_videos after [] [] _) as [[P' U'] m'']; intros [= <- <- <-].
    + split.
      * intros _ s' [= <-]. by left.
      * intros [H|H]; [by apply Exists_nil in H|done].
    + split; [done|]. intros _. by left.
  - destruct (m !! matchKey b) as [sb|] eqn:E; rewrite pair_videos_acc;
      destruct (pair_videos (before ++ v :: after) [] [] _) as [[P' U'] m''] eqn:Hrun;
      intros [= <- <- <-]; destruct (IH _ _ _ _ Hrun) as [IH1 IH2]; split.
    + intros [Hb Hall]%Forall_cons s Hs. right. apply IH1; [done|].
      by rewrite lookup_delete_ne.
    + intros H. apply IH2. rewrite Exists_cons in H.
      destruct H as [[Hb|H]|H]; [right|by left|right].
      * rewrite <- Hb. apply lookup_delete_eq.
      * destruct (decide (matchKey b = matchKey v)) as [Hb|Hb].
        -- rewrite <- Hb. apply lookup_delete_eq.
        -- by rewrite lookup_delete_ne.
    + intros [Hb Hall]%Forall_cons s Hs. by apply IH1.
    + intros H. right. apply IH2. rewrite Exists_cons in H.
      destruct H as [[Hb|H]|H]; [right|by left|by right].
      by rewrite <- Hb.
Qed.

Lemma pair_videos_complete videoFiles :
  forall (m : gmap Z FileInfo) P U m',
    pair_videos videoFiles [] [] m = (P, U, m') ->
    NoDup (map (fun p => matchKey (Video p)) P)
    /\ (forall v, v ∈ videoFiles -> v ∈ map Video P \/ v ∈ U)
    /\ (forall k s, m !! k = Some s -> s ∈ map Subtitle P \/ m' !! k = Some s).
Proof.
  induction videoFiles as [|v rest IH]; intros m P U m'; simpl.
  - intros [= <- <- <-]. split; [constructor|]. split; [|by right].
    intros v Hv. by apply elem_of_nil in Hv.
  - destruct (m !! matchKey v) as [s|] eqn:E; rewrite pair_videos_acc;
      destruct (pair_videos rest [] [] _) as [[P' U'] m''] eqn:Hrun;
      intros [= <- <- <-]; destruct (IH _ _ _ _ Hrun) as (IH1 & IH2 & IH3).
    + split; [|split].
      * simpl. apply NoDup_cons. split; [|done].
        destruct (pair_videos_spec _ _ _ _ _ Hrun) as (Hall & _).
        intros Hin. apply list_elem_of_fmap in Hin as (p & Hp & Hin).
        rewrite Forall_forall in Hall. destruct (Hall p Hin) as (_ & Hsome & _).
        rewrite <- Hp, lookup_delete_eq in Hsome. done.
      * intros v' [->|Hv]%elem_of_cons; [left; by left|].
        destruct (IH2 v' Hv) as [H|H]; [left; by right|by right].
      * intros k s' Hk. destruct (decide (k = matchKey v)) as [->|Hne].
        -- left. rewrite E in Hk. injection Hk as <-. simpl. by left.
        -- destruct (IH3 k s') as [H|H]; [by rewrite lookup_delete_ne|left; by right|by right].
    + split; [done|]. split; [|done].
      intros v' [->|Hv]%elem_of_cons; [right; by left|].
      destruct (IH2 v' Hv) as [H|H]; [by left|right; by right].
Qed.

(** X10.  What becomes of a video: it is paired, with the last subtitle of
    its key, when some subtitle has its key and no video before it in the
    list has; it is reported unmatched otherwise.  So of several videos
    with one key only the first is paired. *)
Theorem createFilePairs_video_fate range_map before video after subtitleFiles :
  let '(pairs, unmatched) :=
    createFilePairs range_map (before ++ video :: after) subtitleFiles in
  (Forall (fun b => matchKey b <> matchKey video) before ->
   forall subtitle,
     last_with_key (matchKey video) subtitleFiles = Some subtitle ->
     {| Video := video; Subtitle := subtitle |} ∈ pairs)
  /\ (Exists (fun b => matchKey b = matchKey video) before
      \/ last_with_key (matchKey video) subtitleFiles = None ->
      video ∈ unmatched).
Proof.
  unfold createFilePairs.
  destruct (pair_videos (before ++ video :: after) [] []
              (index_subtitles subtitleFiles)) as [[P U] m'] eqn:Hrun.
  destruct (pair_videos_fate _ _ _ _ _ _ _ Hrun) as [H1 H2].
  rewrite index_subtitles_lookup in H1, H2. split; [exact H1|].
  intros H. apply elem_of_app. left. by apply H2.
Qed.

(** X11.  Nothing is lost and no subtitle is used twice: the keys of the
    pairs are pairwise distinct, every video is the video of a pair or is
    reported unmatched, and every subtitle that is the last of its key is
    the subtitle of a pair or is reported unmatched. *)
Theorem createFilePairs_complete range_map videoFiles subtitleFiles :
  range_order_ok range_map ->
  let '(pairs, unmatched) := createFilePairs range_map videoFiles subtitleFiles in
  NoDup (map (fun p => matchKey (Video p)) pairs)
  /\ (forall video, video ∈ videoFiles ->
        video ∈ map Video pairs \/ video ∈ unmatched)
  /\ (forall subtitle,
        last_with_key (matchKey subtitle) subtitleFiles = Some subtitle ->
        subtitle ∈ map Subtitle pairs \/ subtitle ∈ unmatched).
Proof.
  intros Hord. unfold createFilePairs.
  destruct (pair_videos videoFiles [] [] (index_subtitles subtitleFiles))
    as [[P U] m'] eqn:Hrun.
  destruct (pair_videos_complete _ _ _ _ _ Hrun) as (H1 & H2 & H3).
  split; [done|]. split.
  - intros v Hv. destruct (H2 v Hv) as [H|H]; [by left|right].
    apply elem_of_app. by left.
  - intros s Hs. rewrite <- index_subtitles_lookup in Hs.
    destruct (H3 _ _ Hs) as [H|H]; [by left|right].
    apply elem_of_app. right.
    apply (list_elem_of_fmap_2 snd _ (matchKey s, s)).
    rewrite (Hord m'). by apply elem_of_map_to_list.
Qed.

(** ** The key *)

Lemma wrap64_id z : (min_int <= z <= max_int)%Z -> wrap64 z = z.
Proof.
  unfold wrap64, min_int, max_int. intros H.
  rewrite Z.mod_small by lia. lia.
Qed.

Lemma wrap64_add_l a b : wrap64 (wrap64 a + b) = wrap64 (a + b).
Proof.
  unfold wrap64.
  replace ((a + 2 ^ 63) mod 2 ^ 64 - 2 ^ 63 + b + 2 ^ 63)%Z
    with ((a + 2 ^ 63) mod 2 ^ 64 + b)%Z by lia.
  rewrite Zplus_mod_idemp_l. f_equal. f_equal. lia.
Qed.

Lemma matchKey_small f :
  small f -> matchKey f = (Season f * 1000 + Episode f)%Z.
Proof.
  intros (Hs & He & Hmax). unfold matchKey. rewrite wrap64_add_l.
  apply wrap64_id. unfold min_int, max_int in *. lia.
Qed.

Lemma matchKey_small_inj f g :
  small f -> small g -> matchKey f = matchKey g ->
  Season f = Season g /\ Episode f = Episode g.
Proof.
  intros Hf Hg. rewrite (matchKey_small f Hf), (matchKey_small g Hg).
  destruct Hf as (_ & Hf & _), Hg as (_ & Hg & _). lia.
Qed.

Lemma append_assoc (a b c : string) : (a +:+ b) +:+ c = a +:+ (b +:+ c).
Proof.
  induction a as [|x a IH]; [done|].
  change (String x ((a +:+ b) +:+ c) = String x (a +:+ (b +:+ c))).
  by rewrite IH.
Qed.

(** X12.  When every file has an episode below 1000 and a key computed
    without wrap-around, the two files of a pair have the same season and
    the same episode, and so get names that differ in the extension
    only. *)
Theorem pairs_same_episode range_map videoFiles subtitleFiles :
  Forall small videoFiles -> Forall small subtitleFiles ->
  Forall (fun p =>
            Season (Video p) = Season (Subtitle p)
            /\ Episode (Video p) = Episode (Subtitle p)
            /\ forall animeName, exists stem,
                 newName animeName (Video p) = stem +:+ Extension (Video p)
                 /\ newName animeName (Subtitle p) = stem +:+ Extension (Subtitle p))
         (createFilePairs range_map videoFiles subtitleFiles).1.
Proof.
  intros Hv Hs. unfold createFilePairs.
  destruct (pair_videos videoFiles [] [] (index_subtitles subtitleFiles))
    as [[P U] m'] eqn:Hrun. simpl.
  destruct (pair_videos_spec _ _ _ _ _ Hrun) as (Hall & _).
  eapply Forall_impl; [exact Hall|]. simpl. intros p (Hin & Hsome & _).
  rewrite index_subtitles_lookup in Hsome.
  apply last_with_key_Some in Hsome as [Hkey Hsub].
  rewrite Forall_forall in Hv, Hs.
  destruct (matchKey_small_inj (Video p) (Subtitle p)) as [E1 E2]; auto.
  split; [done|]. split; [done|]. intros animeName.
  exists (animeName +:+ " - S" +:+ fmt_02d (Season (Video p)) +:+ "E"
            +:+ fmt_02d (Episode (Video p))).
  unfold newName. rewrite <- E1, <- E2.
  split; by rewrite !append_assoc.
Qed.

(** X13.  The key does not tell episode [e + 1000] of a season from episode
    [e] of the next season: a video and a subtitle that differ in this way
    are paired. *)
Theorem key_collision_paired range_map video subtitle :
  range_order_ok range_map ->
  Season subtitle = (Season video + 1)%Z ->
  Episode video = (Episode subtitle + 1000)%Z ->
  matchKey video = matchKey subtitle
  /\ createFilePairs range_map [video] [subtitle]
     = ([ {| Video := video; Subtitle := subtitle |} ], []).
Proof.
  intros Hord Hs He.
  assert (Hkey : matchKey video = matchKey subtitle).
  { unfold matchKey. rewrite !wrap64_add_l. f_equal. lia. }
  split; [done|]. unfold createFilePairs, index_subtitles. simpl.
  rewrite Hkey, lookup_insert_eq. simpl.
  rewrite delete_insert_eq, delete_empty.
  pose proof (Hord ∅) as Hnil. rewrite map_to_list_empty in Hnil.
  apply Permutation_nil_r in Hnil. by rewrite Hnil.
Qed.

(** ** Names without a digit *)

Section NoDigit.
Context {R : Type}.

Lemma no_digits_tail x (s : bytes) : no_digits (x :: s) -> no_digits s.
Proof. unfold no_digits. by intros [_ ?]%Forall_cons. Qed.

Lemma star_loop_fails (step : bytes -> caps -> (bytes -> caps -> option R) -> option R)
    (k : bytes -> caps -> option R) :
  (forall s c k', no_digits s ->
     (forall s' c', no_digits s' -> k' s' c' = None) -> step s c k' = None) ->
  (forall s c, no_digits s -> k s c = None) ->
  forall n s c, no_digits s -> star_loop step k n s c = None.
Proof.
  intros Hstep Hk. induction n as [|n IH]; intros s c Hs; simpl; [by apply Hk|].
  rewrite Hstep; [by apply Hk|done|].
  intros s' c' Hs'. destruct (length s' <? length s)%nat; [by apply IH|done].
Qed.

(** A continuation that fails on every digit-free rest makes the search
    fail on a digit-free subject. *)
Lemma run_fails r :
  forall s c (k : bytes -> caps -> option R),
    no_digits s -> (forall s' c', no_digits s' -> k s' c' = None) ->
    run r s c k = None.
Proof.
  induction r as [b| | | |a IHa b IHb|a IHa b IHb|a IHa|i a IHa|];
    intros s c k Hs Hk; simpl.
  - destruct s as [|x s']; [done|]. destruct (Ascii.eqb x b); [|done].
    apply Hk. by apply no_digits_tail in Hs.
  - destruct s as [|x s']; [done|]. destruct (isDigit x); [|done].
    apply Hk. by apply no_digits_tail in Hs.
  - destruct s as [|x s']; [done|]. destruct (isSpace x); [|done].
    apply Hk. by apply no_digits_tail in Hs.
  - by apply Hk.
  - apply IHa; [done|]. intros s' c' Hs'. by apply IHb.
  - rewrite IHa by done. by apply IHb.
  - apply star_loop_fails; try done; intros s0 c0 k' Hs0 Hk'; by apply IHa.
  - apply IHa; [done|]. intros s' c' Hs'. by apply Hk.
  - destruct s; [by apply Hk|done].
Qed.

Lemma run_needs_digit r :
  needs_digit r = true ->
  forall s c (k : bytes -> caps -> option R), no_digits s -> run r s c k = None.
Proof.
  induction r as [b| | | |a IHa b IHb|a IHa b IHb|a IHa|i a IHa|];
    simpl; try discriminate; intros Hn s c k Hs.
  - destruct s as [|x s']; [done|].
    apply Forall_cons in Hs as [Hx _]. by rewrite Hx.
  - apply orb_true_iff in Hn as [Hn|Hn].
    + by apply IHa.
    + apply run_fails; [done|]. intros s' c' Hs'. by apply IHb.
  - apply andb_true_iff in Hn as [Ha Hb]. rewrite IHa by done. by apply IHb.
  - by apply IHa.
Qed.

Lemma star_loop_passes (step : bytes -> caps -> (bytes -> caps -> option R) -> option R)
    (k : bytes -> caps -> option R) :
  (forall s c, is_Some (k s c)) ->
  forall n s c, is_Some (star_loop step k n s c).
Proof.
  intros Hk. induction n as [|n IH]; intros s c; simpl; [done|].
  destruct (step s c _); [eauto|done].
Qed.
End NoDigit.

Lemma search_needs_digit r s :
  needs_digit r = true -> no_digits s -> search r s = None.
Proof.
  intros Hn. apply (search_none no_digits).
  - intros x t. apply no_digits_tail.
  - intros s0 Hs0. unfold match_here. by apply run_needs_digit.
Qed.

Lemma has_digit_false s : has_digit s = false <-> no_digits s.
Proof.
  unfold has_digit, no_digits. induction s as [|x s IH]; simpl.
  - split; [constructor|done].
  - rewrite orb_false_iff, Forall_cons, IH. tauto.
Qed.

Lemma search_Digits s : has_digit s = true -> is_Some (search Digits s).
Proof.
  induction s as [|x s IH]; simpl; [done|].
  destruct (isDigit x) eqn:E; simpl.
  - intros _. unfold match_here, Digits, Plus. simpl. rewrite E.
    match goal with
    | |- context [star_loop ?step ?k ?n ?s0 ?c0] =>
        destruct (star_loop_passes step k (fun _ _ => ltac:(eauto)) n s0 c0)
          as [m ->]
    end. eauto.
  - intros H. destruct (match_here Digits (x :: s)); [eauto|by apply IH].
Qed.

Lemma flexiblePattern_has_digit_aux name :
  MatchString flexiblePattern name = has_digit (unstr name).
Proof.
  unfold MatchString, flexiblePattern.
  destruct (has_digit (unstr name)) eqn:E.
  - by destruct (search_Digits _ E) as [m ->].
  - apply has_digit_false in E. by rewrite search_needs_digit.
Qed.

(** X14.  [flexiblePattern] matches a name exactly when the name has a digit
    among its bytes. *)
Theorem flexiblePattern_has_digit name :
  MatchString flexiblePattern name = has_digit (unstr name).
Proof. exact (flexiblePattern_has_digit_aux name). Qed.

Lemma extract_from_no_digits patterns name :
  forallb (fun pattern => needs_digit (regex_of pattern)) patterns = true ->
  no_digits (unstr name) -> extract_from patterns name = (1, 0)%Z.
Proof.
  intros Hall Hs. induction patterns as [|pattern rest IH]; simpl; [done|].
  simpl in Hall. apply andb_true_iff in Hall as [Hp Hall].
  unfold FindStringSubmatch. rewrite search_needs_digit by done. simpl.
  by apply IH.
Qed.

Lemma no_digits_take n s : no_digits s -> no_digits (take n s).
Proof. unfold no_digits. apply Forall_take. Qed.

Lemma extract_no_digit_aux name :
  MatchString flexiblePattern name = false ->
  extractSeasonAndEpisode name = (1, 0)%Z.
Proof.
  rewrite flexiblePattern_has_digit_aux. intros H%has_digit_false.
  unfold extractSeasonAndEpisode. apply extract_from_no_digits; [reflexivity|].
  unfold strings_TrimSuffix, filepath_Ext. rewrite !str_unstr, strip_ext.
  by apply no_digits_take.
Qed.

(** X15.  A name without a digit gives season 1 and episode 0: no rule
    matches it.  So the test against [flexiblePattern] in [findFiles] turns
    away only names that the episode test would turn away. *)
Theorem extract_no_digit name :
  MatchString flexiblePattern name = false ->
  extractSeasonAndEpisode name = (1, 0)%Z.
Proof. exact (extract_no_digit_aux name). Qed.

(** ** findFiles *)

Lemma extension_set_spec ToLower extensions ext :
  ext ∈ extension_set ToLower extensions <-> ext ∈ map ToLower extensions.
Proof.
  unfold extension_set.
  assert (H : forall (acc : gset string),
            ext ∈ foldl (fun extensionSet e => {[ ToLower e ]} ∪ extensionSet)
                    acc extensions
            <-> ext ∈ map ToLower extensions \/ ext ∈ acc).
  { induction extensions as [|e rest IH]; intros acc; simpl.
    - rewrite elem_of_nil. tauto.
    - rewrite IH, elem_of_union, elem_of_singleton, elem_of_cons. tauto. }
  rewrite H, elem_of_empty. tauto.
Qed.

Lemma extract_found name season episode :
  extractSeasonAndEpisode name = (season, episode) -> episode <> 0%Z ->
  (1 <= season <= max_int)%Z /\ (1 <= episode <= max_int)%Z.
Proof.
  unfold extractSeasonAndEpisode.
  rewrite extract_from_first_yield by reflexivity.
  destruct (first_yield _ _) as [[s e]|] eqn:E.
  - intros [= <- <-] _. by apply first_yield_range in E.
  - by intros [= <- <-].
Qed.

(** What one call does, when the entry comes without an error. *)
Lemma visit_spec ToLower Quote extensions files entry :
  walk_err entry = None ->
  (wanted ToLower extensions entry /\
   exists f, file_of ToLower entry f
             /\ visit ToLower Quote (extension_set ToLower extensions) files entry
                = inl (files ++ [f]))
  \/ (~ wanted ToLower extensions entry /\
      visit ToLower Quote (extension_set ToLower extensions) files entry = inl files).
Proof.
  intros Herr. unfold visit, wanted. rewrite Herr.
  destruct (walk_isDir entry); [right; split; [intros []; done|done]|].
  destruct (decide (_ ∈ extension_set ToLower extensions)) as [Hin|Hout].
  2:{ right. split; [|done]. intros (_ & H & _). by apply Hout, extension_set_spec. }
  apply extension_set_spec in Hin.
  destruct (MatchString flexiblePattern _) eqn:Hm.
  2:{ right. split; [|done]. intros (_ & _ & H). apply H.
      by rewrite (extract_no_digit_aux _ Hm). }
  destruct (extractSeasonAndEpisode _) as [season episode] eqn:Hx.
  destruct (episode =? 0)%Z eqn:He.
  - right. split; [|done]. intros (_ & _ & H). apply H. simpl. lia.
  - left. split; [repeat split; try done; simpl; lia|].
    eexists. split; [|reflexivity]. by repeat split.
Qed.

Lemma walk_spec ToLower Quote extensions entries :
  Forall (fun entry => walk_err entry = None) entries ->
  forall files, exists found,
    walk ToLower Quote (extension_set ToLower extensions) entries files
    = inl (files ++ found)
    /\ Forall2 (file_of ToLower) (filter (wanted ToLower extensions) entries) found.
Proof.
  induction 1 as [|entry rest Herr Hrest IH]; intros files; simpl.
  - exists []. by rewrite app_nil_r.
  - destruct (visit_spec ToLower Quote extensions files entry Herr)
      as [(Hw & f & Hf & ->)|(Hw & ->)].
    + destruct (IH (files ++ [f])) as (found & -> & Hall).
      exists (f :: found). rewrite <- app_assoc. split; [done|].
      rewrite filter_cons_True by done. by constructor.
    + destruct (IH files) as (found & -> & Hall).
      exists found. split; [done|]. by rewrite filter_cons_False.
Qed.

Lemma walk_error ToLower Quote extensionSet before entry after err :
  Forall (fun entry => walk_err entry = None) before ->
  walk_err entry = Some err ->
  forall files,
    walk ToLower Quote extensionSet (before ++ entry :: after) files
    = inr (wrapError ("accessing path " +:+ Quote (walk_path entry)) err).
Proof.
  intros Hbefore Herr. induction Hbefore as [|e rest He Hrest IH]; intros files; simpl.
  - unfold visit. by rewrite Herr.
  - unfold visit at 1. rewrite He.
    repeat match goal with
           | |- context [if ?b then _ else _] => destruct b
           | |- context [let '(_, _) := ?x in _] => destruct x
           end; apply IH.
Qed.

Lemma file_of_wanted ToLower extensions entry f :
  wanted ToLower extensions entry -> file_of ToLower entry f ->
  (1 <= Season f <= max_int)%Z /\ (1 <= Episode f <= max_int)%Z
  /\ Extension f ∈ map ToLower extensions.
Proof.
  intros (_ & Hext & Hep) (_ & -> & Hx).
  destruct (extract_found (filepath_Base (walk_path entry)) (Season f) (Episode f))
    as [Hs He]; [done| |done].
  intros E. apply Hep. by rewrite <- Hx.
Qed.

(** X16.  A walk that meets no error returns, in the order of the walk, one
    file for each entry that is not a directory, has one of the extensions
    up to case, and has a base name that yields an episode other than 0:
    the file has the path of the entry, the lower-cased extension, and the
    season and episode of the base name, both at least 1. *)
Theorem findFiles_files ToLower Quote folderPath extensions entries :
  Forall (fun entry => walk_err entry = None) entries ->
  exists files,
    findFiles ToLower Quote folderPath extensions entries = inl files
    /\ Forall2 (file_of ToLower) (filter (wanted ToLower extensions) entries) files
    /\ Forall (fun f => (1 <= Season f <= max_int)%Z
                        /\ (1 <= Episode f <= max_int)%Z
                        /\ Extension f ∈ map ToLower extensions) files.
Proof.
  intros Herr. unfold findFiles.
  destruct (walk_spec ToLower Quote extensions entries Herr []) as (files & -> & Hall).
  exists files. split; [done|]. split; [done|].
  assert (Hw : Forall (wanted ToLower extensions)
                 (filter (wanted ToLower extensions) entries)).
  { apply Forall_forall. intros entry Hin. by apply list_elem_of_filter in Hin as [? _]. }
  induction Hall as [|entry f ws fs Hf Hall IH]; [constructor|].
  apply Forall_cons in Hw as [Hw Hws]. constructor; [|by apply IH].
  by apply (file_of_wanted ToLower extensions entry).
Qed.

(** X17.  A walk stops at the first entry that comes with an error: whatever
    was found before and whatever follows, the result is that error,
    wrapped with the path of the entry and then with the folder. *)
Theorem findFiles_stops_at_error ToLower Quote folderPath extensions
    before entry after err :
  Forall (fun entry => walk_err entry = None) before ->
  walk_err entry = Some err ->
  findFiles ToLower Quote folderPath extensions (before ++ entry :: after)
  = inr (wrapError ("walking folder " +:+ Quote folderPath)
           (wrapError ("accessing path " +:+ Quote (walk_path entry)) err)).
Proof.
  intros Hbefore Herr. unfold findFiles.
  by rewrite (walk_error ToLower Quote _ before entry after err Hbefore Herr).
Qed.

(** ** Reading back the names the program writes *)

Lemma unstr_app a b : unstr (a +:+ b) = unstr a ++ unstr b.
Proof.
  induction a as [|x a IH]; [done|].
  change (x :: unstr (a +:+ b) = x :: unstr a ++ unstr b). by rewrite IH.
Qed.

Lemma pretty_N_char_digit x :
  (x < 10)%N ->
  isDigit (pretty_N_char x) = true
  /\ (Z.of_N (byte_code (pretty_N_char x)) - 48 = Z.of_N x)%Z.
Proof.
  intros H.
  assert (x = 0 \/ x = 1 \/ x = 2 \/ x = 3 \/ x = 4 \/ x = 5 \/ x = 6 \/ x = 7
          \/ x = 8 \/ x = 9)%N as Hx by lia.
  repeat (destruct Hx as [->|Hx]; [by vm_compute|]). subst x. by vm_compute.
Qed.

(** The text of a number: its decimal digits. *)
Lemma pretty_N_go_digits x :
  forall s, exists d,
    unstr (pretty_N_go x s) = d ++ unstr s
    /\ all_digits d
    /\ (forall acc,
          fold_left (fun a y => (a * 10 + (Z.of_N (byte_code y) - 48))%Z) d acc
          = (acc * 10 ^ Z.of_nat (length d) + Z.of_N x)%Z)
    /\ ((0 < x)%N -> d <> []).
Proof.
  induction (N.lt_wf_0 x) as [x _ IH]. intros s.
  destruct (decide (x = 0%N)) as [->|Hx].
  - exists []. rewrite pretty_N_go_0. split; [done|]. split; [constructor|].
    split; [intros acc; simpl; lia|]. lia.
  - rewrite pretty_N_go_step by lia.
    assert (x `div` 10 < x)%N as Hlt by (apply N.div_lt; lia).
    destruct (IH _ Hlt (String (pretty_N_char (x `mod` 10)) s))
      as (d & Hd & Hall & Hval & _).
    assert (x `mod` 10 < 10)%N as Hm by (apply N.mod_lt; lia).
    destruct (pretty_N_char_digit _ Hm) as [Hc Hv].
    exists (d ++ [pretty_N_char (x `mod` 10)]).
    split; [rewrite Hd; simpl; by rewrite <- app_assoc|].
    split; [apply Forall_app; split; [done|by repeat constructor]|].
    split.
    + intros acc. rewrite fold_left_app, Hval. simpl. rewrite Hv.
      rewrite length_app. simpl.
      rewrite Nat2Z.inj_add, Z.pow_add_r by lia.
      change (10 ^ Z.of_nat 1)%Z with 10%Z.
      rewrite N2Z.inj_div, N2Z.inj_mod.
      pose proof (Z.div_mod (Z.of_N x) 10 ltac:(lia)). change (Z.of_N 10) with 10%Z. lia.
    + intros _. by destruct d.
Qed.

Lemma fmt_02d_digits n :
  (1 <= n)%Z ->
  all_digits (unstr (fmt_02d n)) /\ unstr (fmt_02d n) <> []
  /\ digits_value (unstr (fmt_02d n)) = n.
Proof.
  intros Hn. destruct n as [|p|p]; try lia.
  assert (Hp : exists d, unstr (pretty (Z.pos p)) = d /\ all_digits d /\ d <> []
                         /\ digits_value d = Z.pos p).
  { destruct (pretty_N_go_digits (N.pos p) "") as (d & Hd & Hall & Hval & Hne).
    exists d. simpl in Hd. rewrite app_nil_r in Hd.
    split; [exact Hd|]. split; [done|]. split; [by apply Hne|].
    unfold digits_value. rewrite Hval. simpl. lia. }
  destruct Hp as (d & Hd & Hall & Hne & Hval).
  unfold fmt_02d. destruct (Z.pos p <? 0)%Z eqn:E0; [lia|].
  destruct (Z.pos p <? 10)%Z.
  - rewrite unstr_app, Hd. simpl. split; [by constructor|]. split; [done|].
    unfold digits_value in *. simpl. exact Hval.
  - by rewrite Hd.
Qed.

Lemma Atoi_digits d :
  all_digits d -> d <> [] -> (digits_value d <= max_int)%Z ->
  Atoi (str d) = Some (digits_value d).
Proof.
  intros Hd Hne Hmax. unfold Atoi. rewrite str_unstr.
  destruct d as [|x d']; [done|].
  rewrite (sign_split_digit x d') by (by apply Forall_cons in Hd as [? _]).
  rewrite (parse_digits_value _ _ Hd). fold (digits_value (x :: d')).
  pose proof (fold_digits_bound (x :: d') 0 Hd ltac:(lia)) as Hb.
  fold (digits_value (x :: d')) in Hb.
  assert ((min_int <=? digits_value (x :: d'))%Z
          && (digits_value (x :: d') <=? max_int)%Z = true) as ->; [|done].
  apply andb_true_iff. split; apply Z.leb_le; unfold min_int, max_int in *; lia.
Qed.

Lemma digit_not_marker c :
  isDigit c = true ->
  Ascii.eqb c "S"%char = false /\ Ascii.eqb c "s"%char = false
  /\ Ascii.eqb c long_s_1 = false /\ Ascii.eqb c "E"%char = false
  /\ Ascii.eqb c "e"%char = false.
Proof.
  destruct c as [[] [] [] [] [] [] [] []]; vm_compute; intros; repeat split;
    congruence.
Qed.

Section ReadBack.
Context {R : Type}.

(** The season marker needs a digit right after it. *)
Lemma marked_blocked X (s : bytes) c (k : bytes -> caps -> option R) :
  match s with
  | _ :: y :: _ => isDigit y = false
  | _ => True
  end ->
  match s with
  | _ :: y :: z :: _ => Ascii.eqb y long_s_2 = true -> isDigit z = false
  | _ => True
  end ->
  run (Cat FoldS (Cat (Group 1 Digits) X)) s c k = None.
Proof.
  intros H1 H2. unfold FoldS, Digits, Plus.
  destruct s as [|x [|y [|z u]]]; cbn [run].
  - done.
  - by repeat destruct (Ascii.eqb x _).
  - rewrite H1. destruct (Ascii.eqb y long_s_2); by repeat destruct (Ascii.eqb x _).
  - rewrite H1. destruct (Ascii.eqb y long_s_2).
    + rewrite H2 by done. by repeat destruct (Ascii.eqb x _).
    + by repeat destruct (Ascii.eqb x _).
Qed.

(** No season marker at the head: the expression fails. *)
Lemma marked_head X (s : bytes) c (k : bytes -> caps -> option R) :
  match s with
  | x :: _ => Ascii.eqb x "S"%char = false /\ Ascii.eqb x "s"%char = false
              /\ Ascii.eqb x long_s_1 = false
  | [] => True
  end ->
  run (Cat FoldS X) s c k = None.
Proof.
  unfold FoldS. destruct s as [|x t]; cbn [run]; [done|].
  by intros (-> & -> & ->).
Qed.

(** The greedy loop takes all the digits when what follows accepts. *)
Lemma star_digits_greedy
    (step : bytes -> caps -> (bytes -> caps -> option R) -> option R)
    (k : bytes -> caps -> option R) d :
  (forall y t c K, isDigit y = true -> step (y :: t) c K = K t c) ->
  (forall s c K, match s with
                 | y :: _ => isDigit y = false
                 | [] => True
                 end -> step s c K = None) ->
  forall n rest c x,
    all_digits d -> (length d <= n)%nat ->
    match rest with
    | y :: _ => isDigit y = false
    | [] => True
    end ->
    k rest c = Some x ->
    star_loop step k n (d ++ rest) c = Some x.
Proof.
  intros Hstep1 Hstep2.
  induction d as [|y d IH]; intros n rest c x Hd Hn Hrest Hk.
  - simpl. destruct n as [|n]; simpl; [done|]. by rewrite Hstep2, Hk.
  - apply Forall_cons in Hd as [Hy Hd]. destruct n as [|n]; [simpl in Hn; lia|].
    cbn [star_loop app]. rewrite Hstep1 by done.
    assert ((length (d ++ rest) <? length (y :: d ++ rest))%nat = true) as ->
      by (apply Nat.ltb_lt; simpl; lia).
    rewrite (IH n rest c x); [done|done|simpl in Hn; lia|done|done].
Qed.

Lemma group_digits_greedy i (k : bytes -> caps -> option R) d rest c x :
  all_digits d -> d <> [] ->
  match rest with
  | y :: _ => isDigit y = false
  | [] => True
  end ->
  k rest ((i, d) :: c) = Some x ->
  run (Group i Digits) (d ++ rest) c k = Some x.
Proof.
  intros Hd Hne Hrest Hk. destruct d as [|y d]; [done|].
  apply Forall_cons in Hd as [Hy Hd].
  unfold Digits, Plus. cbn [run app]. rewrite Hy.
  apply star_digits_greedy.
  - intros y0 t c0 K Hy0. by rewrite Hy0.
  - intros [|y0 t] c0 K H0; [done|]. by rewrite H0.
  - done.
  - rewrite length_app. lia.
  - done.
  - replace (take (length (y :: d ++ rest) - length rest) (y :: d ++ rest))
      with (y :: d); [done|].
    symmetry. apply (take_consumed (y :: d) rest).
Qed.
End ReadBack.

(** What is left after some digits of a number that an [E] follows. *)
Lemma digits_then_E pre s' d1 d2 :
  all_digits pre -> all_digits d1 -> pre ++ s' = d1 ++ "E"%char :: d2 ->
  exists x t, s' = x :: t /\ (isDigit x = true \/ x = "E"%char).
Proof.
  intros Hpre. revert d1. induction Hpre as [|p pre Hp Hpre IH]; intros d1 Hd1 E.
  - simpl in E. subst s'. destruct d1 as [|x d1]; simpl; [eauto|].
    apply Forall_cons in Hd1 as [Hx _]. eauto.
  - destruct d1 as [|x d1]; simpl in E.
    + injection E as -> _. discriminate Hp.
    + injection E as _ E. apply Forall_cons in Hd1 as [_ Hd1]. by apply (IH d1).
Qed.

(** Rule 1 finds nothing in a season and episode written as [SxxEyy]. *)
Lemma season_dash_at_marker d1 d2 :
  all_digits d1 -> all_digits d2 ->
  search re_season_dash ("S"%char :: d1 ++ "E"%char :: d2) = None.
Proof.
  intros Hd1 Hd2.
  assert (Htail : forall t, (exists d, all_digits d /\ (t = d ++ "E"%char :: d2 \/ t = d)) ->
            search re_season_dash t = None).
  { intros t (d & Hd & Ht). revert t Ht.
    induction Hd as [|y d Hy Hd IH]; intros t [->| ->].
    - simpl app. cbn [search]. unfold match_here, re_season_dash.
      rewrite marked_head by (by vm_compute).
      clear Hd1. induction Hd2 as [|z d2 Hz Hd2 IH2]; [by vm_compute|].
      cbn [search]. unfold match_here. rewrite marked_head; [exact IH2|].
      destruct (digit_not_marker z Hz) as (? & ? & ? & _). done.
    - by vm_compute.
    - simpl app. cbn [search]. unfold match_here, re_season_dash.
      rewrite marked_head; [apply IH; by left|].
      destruct (digit_not_marker y Hy) as (? & ? & ? & _). done.
    - cbn [search]. unfold match_here, re_season_dash.
      rewrite marked_head; [apply IH; by right|].
      destruct (digit_not_marker y Hy) as (? & ? & ? & _). done. }
  cbn [search].
  assert (match_here re_season_dash ("S"%char :: d1 ++ "E"%char :: d2) = None) as ->.
  { unfold match_here, re_season_dash, FoldS. cbn [run].
    change (Ascii.eqb "S" "S") with true. change (Ascii.eqb "S" "s") with false.
    change (Ascii.eqb "S" long_s_1) with false. cbv iota.
    match goal with
    | |- match ?r with Some x => Some x | None => None end = None =>
        destruct r as [m|] eqn:E; [|done]
    end.
    exfalso. apply (run_digit_only Digits eq_refl) in E
      as (s' & c' & (-> & pre & Hs & Hpre) & Hk).
    symmetry in Hs.
    destruct (digits_then_E pre s' d1 d2 Hpre Hd1 Hs) as (x & t & -> & Hx).
    cbn [run star_loop length] in Hk.
    assert (isSpace x = false /\ Ascii.eqb x "-"%char = false) as [Hsp Hda].
    { destruct Hx as [Hx| ->]; [|by vm_compute].
      split; [by apply digit_not_space|by apply digit_not_dash]. }
    rewrite Hsp, Hda in Hk. done. }
  apply Htail. exists d1. split; [done|]. by left.
Qed.

Lemma marker_here {R} X t c (k : bytes -> caps -> option R) x :
  run X t c k = Some x -> run (Cat FoldS X) ("S"%char :: t) c k = Some x.
Proof. intros H. unfold FoldS. cbn [run]. simpl Ascii.eqb. cbv iota. by rewrite H. Qed.

Lemma episode_marker_here {R} Y t c (k : bytes -> caps -> option R) x :
  run Y t c k = Some x ->
  run (Cat (Alt Space FoldE) Y) ("E"%char :: t) c k = Some x.
Proof.
  intros H. unfold FoldE. cbn [run].
  change (isSpace "E") with false. simpl Ascii.eqb. cbv iota. by rewrite H.
Qed.

(** Rule 2 reads a season and episode written as [SxxEyy]. *)
Lemma season_episode_at_marker d1 d2 :
  all_digits d1 -> d1 <> [] -> all_digits d2 -> d2 <> [] ->
  match_here re_season_episode ("S"%char :: d1 ++ "E"%char :: d2)
  = Some ("S"%char :: d1 ++ "E"%char :: d2, [], [(2%nat, d2); (1%nat, d1)]).
Proof.
  intros Hd1 Hn1 Hd2 Hn2. unfold match_here, re_season_episode.
  apply marker_here.
  change (run (Group 1 Digits) (d1 ++ "E"%char :: d2) []
            (fun s' c' =>
               run (Cat (Alt Space FoldE) (Group 2 Digits)) s' c'
                 (fun s'' c'' => Some ("S"%char :: d1 ++ "E"%char :: d2, s'', c'')))
          = Some ("S"%char :: d1 ++ "E"%char :: d2, [], [(2%nat, d2); (1%nat, d1)])).
  apply group_digits_greedy; [done|done|reflexivity|].
  apply episode_marker_here.
  rewrite <- (app_nil_r d2) at 1.
  by apply group_digits_greedy.
Qed.

(** Before the marker, in a text without digits, rules 1 and 2 match
    nowhere. *)
Lemma search_before_marker X P t :
  no_digits P ->
  search (Cat FoldS (Cat (Group 1 Digits) X)) (P ++ "S"%char :: t)
  = search (Cat FoldS (Cat (Group 1 Digits) X)) ("S"%char :: t).
Proof.
  induction 1 as [|x P Hx HP IH]; [done|].
  cbn [app search]. unfold match_here at 1.
  rewrite marked_blocked; [exact IH| |].
  - destruct P as [|y P']; [reflexivity|]. by apply Forall_cons in HP as [? _].
  - destruct P as [|y [|z P']].
    + destruct t; [done|]. simpl. by vm_compute.
    + intros _. reflexivity.
    + intros _. apply Forall_cons in HP as [_ HP]. by apply Forall_cons in HP as [? _].
Qed.

Lemma newName_bytes animeName f :
  unstr (newName animeName f)
  = (unstr animeName ++ [" "; "-"; " "]%char)
    ++ "S"%char :: unstr (fmt_02d (Season f))
    ++ "E"%char :: unstr (fmt_02d (Episode f)) ++ unstr (Extension f).
Proof.
  unfold newName. rewrite !unstr_app. simpl. by rewrite <- !app_assoc.
Qed.

Lemma read_back animeName f :
  no_digits (unstr animeName) ->
  (1 <= Season f <= max_int)%Z -> (1 <= Episode f <= max_int)%Z ->
  plain_extension (Extension f) ->
  extractSeasonAndEpisode (newName animeName f) = (Season f, Episode f).
Proof.
  intros Hname Hs He Hext.
  destruct (fmt_02d_digits (Season f)) as (Hd1 & Hn1 & Hv1); [lia|].
  destruct (fmt_02d_digits (Episode f)) as (Hd2 & Hn2 & Hv2); [lia|].
  set (d1 := unstr (fmt_02d (Season f))) in *.
  set (d2 := unstr (fmt_02d (Episode f))) in *.
  set (P := unstr animeName ++ [" "; "-"; " "]%char).
  assert (HP : no_digits P).
  { apply Forall_app. split; [done|]. by repeat constructor. }
  assert (Hstrip : strings_TrimSuffix (newName animeName f)
                     (filepath_Ext (newName animeName f))
                   = str (P ++ "S"%char :: d1 ++ "E"%char :: d2)).
  { unfold strings_TrimSuffix, filepath_Ext. rewrite str_unstr, newName_bytes.
    fold d1 d2 P. unfold plain_extension in Hext.
    destruct (unstr (Extension f)) as [|dot e]; [done|].
    destruct dot as [[] [] [] [] [] [] [] []]; try done.
    replace (P ++ "S"%char :: d1 ++ "E"%char :: d2 ++ "."%char :: e)
      with ((P ++ "S"%char :: d1 ++ "E"%char :: d2) ++ "."%char :: e)
      by (rewrite <- !app_assoc; simpl; by rewrite <- !app_assoc).
    rewrite Ext_bytes_dotted by done. by rewrite TrimSuffix_bytes_app. }
  unfold extractSeasonAndEpisode. rewrite Hstrip.
  rewrite extract_from_first_yield by reflexivity.
  unfold episodePatterns. cbn [first_yield].
  rewrite rule_yields_none.
  2:{ rewrite str_unstr. cbn [regex_of]. unfold re_season_dash.
      rewrite search_before_marker by done. by apply season_dash_at_marker. }
  unfold rule_yields, FindStringSubmatch. rewrite str_unstr. cbn [regex_of].
  unfold re_season_episode at 1. rewrite search_before_marker by done.
  cbn [search]. fold re_season_episode.
  rewrite season_episode_at_marker by done.
  change (NumSubexp re_season_episode) with 2%nat.
  unfold season_of.
  cbn [seq map capture Nat.eqb episodeIndex seasonIndex submatch nth Nat.ltb Nat.leb].
  rewrite !Atoi_digits by (done || lia). rewrite Hv1, Hv2.
  assert ((0 <? Episode f)%Z = true) as -> by (apply Z.ltb_lt; lia).
  assert ((0 <? Season f)%Z = true) as -> by (apply Z.ltb_lt; lia).
  done.
Qed.

(** X18.  The program reads its own names back: when the anime name has no
    digit, season and episode are at least 1 and the extension is a dot
    followed by bytes other than dots and separators, the season and episode
    extracted from the name written for a file are the file's own. *)
Theorem canonical_name_read_back animeName f :
  no_digits (unstr animeName) ->
  (1 <= Season f <= max_int)%Z -> (1 <= Episode f <= max_int)%Z ->
  plain_extension (Extension f) ->
  extractSeasonAndEpisode (newName animeName f) = (Season f, Episode f).
Proof. exact (read_back animeName f). Qed.

(** ** Lexical cleaning *)

Lemma bytes_eqb_eq a b : bytes_eqb a b = true <-> a = b.
Proof.
  revert b. induction a as [|x a IH]; intros [|y b]; simpl; try done.
  rewrite andb_true_iff, IH. split.
  - intros [E ->]. apply Ascii.eqb_eq in E. by subst.
  - intros [= -> ->]. split; [apply Ascii.eqb_refl|done].
Qed.

Lemma bytes_eqb_neq a b : bytes_eqb a b = false <-> a <> b.
Proof.
  rewrite <- bytes_eqb_eq. destruct (bytes_eqb a b); split; try done;
    intros H; by destruct H.
Qed.

Lemma split_sep_app a b cur :
  split_sep (a ++ "/"%char :: b) cur = split_sep a cur ++ split_sep b [].
Proof.
  revert cur. induction a as [|x a IH]; intros cur; simpl; [done|].
  destruct (is_sep x); simpl; by rewrite IH.
Qed.

Lemma split_sep_no_sep e cur : no_sep e -> split_sep e cur = [rev cur ++ e].
Proof.
  intros H. revert cur. induction H as [|x e Hx He IH]; intros cur; simpl.
  - by rewrite app_nil_r.
  - rewrite Hx, IH. simpl. by rewrite <- app_assoc.
Qed.

Lemma split_join l :
  l <> [] -> Forall no_sep l -> split_sep (join_sep l) [] = l.
Proof.
  induction l as [|e l IH]; [done|]. intros _ Hall.
  apply Forall_cons in Hall as [He Hl]. destruct l as [|e' l'].
  - simpl. by rewrite split_sep_no_sep.
  - change (join_sep (e :: e' :: l')) with (e ++ "/"%char :: join_sep (e' :: l')).
    rewrite split_sep_app, split_sep_no_sep by done. rewrite IH by done. done.
Qed.

Lemma clean_step_plain rooted stack e :
  plain_element e -> clean_step rooted stack e = e :: stack.
Proof.
  intros (H1 & _ & H2 & H3). unfold clean_step.
  apply bytes_eqb_neq in H1, H2, H3. by rewrite H1, H2, H3.
Qed.

Lemma clean_step_skip rooted stack e :
  e = [] \/ e = dot -> clean_step rooted stack e = stack.
Proof. intros [-> | ->]; reflexivity. Qed.

Lemma tidy_elements rooted stack : tidy rooted stack -> Forall no_sep (rev stack).
Proof.
  intros H. apply Forall_rev. induction stack as [|e below IH]; [constructor|].
  destruct H as [Hb He]. constructor; [|by apply IH].
  destruct He as [(_ & H & _)|(-> & _)]; [done|]. by repeat constructor.
Qed.

Lemma tidy_nonempty rooted stack : tidy rooted stack -> Forall (fun e => e <> []) stack.
Proof.
  induction stack as [|e below IH]; [constructor|]. intros [Hb He].
  constructor; [|by apply IH]. by destruct He as [(? & _)|(-> & _)].
Qed.

(** Cleaning what [Clean] has kept gives it back. *)
Lemma restack rooted stack :
  tidy rooted stack -> foldl (clean_step rooted) [] (rev stack) = stack.
Proof.
  induction stack as [|e below IH]; [done|]. intros [Hb He].
  simpl. rewrite foldl_app. simpl. rewrite IH by done.
  destruct He as [He|(-> & -> & Hdd)]; [by apply clean_step_plain|].
  destruct below as [|b below']; [done|].
  apply Forall_cons in Hdd as [-> _]. reflexivity.
Qed.

Lemma clean_step_tidy rooted stack e :
  no_sep e -> tidy rooted stack -> tidy rooted (clean_step rooted stack e).
Proof.
  intros He Hs. unfold clean_step.
  destruct (bytes_eqb e []) eqn:E1; [done|].
  destruct (bytes_eqb e dot) eqn:E2; [done|]. simpl.
  destruct (bytes_eqb e dotdot) eqn:E3.
  - apply bytes_eqb_eq in E3 as ->.
    destruct stack as [|top below].
    + destruct rooted; [done|]. simpl. split; [done|]. right. by repeat split.
    + destruct (bytes_eqb top dotdot) eqn:E4.
      * apply bytes_eqb_eq in E4 as ->. destruct rooted; [done|].
        split; [done|]. right. split; [done|]. split; [done|].
        constructor; [done|]. destruct Hs as [_ [(_ & _ & _ & H)|(_ & _ & H)]]; done.
      * by destruct Hs.
  - split; [done|]. left. apply bytes_eqb_neq in E1, E2, E3. by repeat split.
Qed.

Lemma split_sep_elements s : forall cur, no_sep cur -> Forall no_sep (split_sep s cur).
Proof.
  induction s as [|x s IH]; intros cur Hcur; simpl.
  - constructor; [|constructor]. by apply Forall_rev.
  - destruct (is_sep x) eqn:E.
    + constructor; [by apply Forall_rev|]. apply IH. constructor.
    + apply IH. by constructor.
Qed.

Lemma foldl_clean_tidy rooted elems stack :
  Forall no_sep elems -> tidy rooted stack ->
  tidy rooted (foldl (clean_step rooted) stack elems).
Proof.
  intros H. revert stack. induction H as [|e elems He Hel IH]; intros stack Hs; simpl.
  - done.
  - apply IH. by apply clean_step_tidy.
Qed.

(** The shape of a cleaned path. *)
Lemma Clean_bytes_render path :
  exists rooted stack,
    tidy rooted stack /\ Clean_bytes path = render rooted stack.
Proof.
  destruct path as [|c path'].
  - exists false, []. by split.
  - exists (is_sep c), (foldl (clean_step (is_sep c)) [] (split_sep (c :: path') [])).
    split; [|done]. apply foldl_clean_tidy; [|done].
    apply split_sep_elements. constructor.
Qed.

Lemma join_sep_snoc l n :
  join_sep (l ++ [n]) = match l with
                        | [] => n
                        | _ => join_sep l ++ "/"%char :: n
                        end.
Proof.
  induction l as [|e l IH]; [done|].
  destruct l as [|e' l']; [done|].
  change (join_sep ((e :: e' :: l') ++ [n]))
    with (e ++ "/"%char :: join_sep ((e' :: l') ++ [n])).
  rewrite IH. change (join_sep (e :: e' :: l')) with (e ++ "/"%char :: join_sep (e' :: l')).
  by rewrite <- app_assoc.
Qed.

Lemma join_sep_head e l :
  e <> [] -> exists c t, join_sep (e :: l) = c :: t /\ head e = Some c.
Proof.
  intros He. destruct e as [|c e']; [done|].
  destruct l as [|e2 l']; simpl; eauto.
Qed.

Lemma tidy_bottom rooted stack :
  tidy rooted stack -> stack <> [] ->
  exists c t, join_sep (rev stack) = c :: t /\ is_sep c = false.
Proof.
  intros Ht Hne.
  pose proof (tidy_elements rooted stack Ht) as Hel.
  pose proof (tidy_nonempty rooted stack Ht) as Hn. apply Forall_rev in Hn.
  destruct (rev stack) as [|e l] eqn:E.
  { apply (f_equal (@rev _)) in E. rewrite rev_involutive in E. done. }
  apply Forall_cons in Hel as [He _]. apply Forall_cons in Hn as [Hne' _].
  destruct (join_sep_head e l Hne') as (c & t & -> & Hc).
  exists c, t. split; [done|]. destruct e as [|c' e']; [done|].
  injection Hc as ->. by apply Forall_cons in He as [? _].
Qed.

(** Splitting and cleaning the body of a cleaned path gives its elements. *)
Lemma fold_body rooted stack :
  tidy rooted stack ->
  foldl (clean_step rooted) [] (split_sep (join_sep (rev stack)) []) = stack.
Proof.
  intros Ht. destruct stack as [|e below]; [done|].
  rewrite split_join.
  - by apply restack.
  - simpl. by destruct (rev below).
  - by apply (tidy_elements rooted).
Qed.

Lemma render_push rooted stack n :
  tidy rooted stack -> n <> [] ->
  render rooted (n :: stack) = stem_of rooted stack ++ n.
Proof.
  intros Ht Hn. unfold stem_of, render.
  change (rev (n :: stack)) with (rev stack ++ [n]). rewrite join_sep_snoc.
  destruct stack as [|e below].
  - simpl. destruct rooted; [done|]. by destruct n.
  - destruct (tidy_bottom rooted (e :: below) Ht) as (c & t & E & _); [done|].
    remember (rev (e :: below)) as l eqn:El.
    destruct l as [|e0 l0]; [discriminate E|].
    rewrite E. destruct rooted; cbn [app]; by rewrite <- app_assoc.
Qed.

Lemma Clean_bytes_rooted body :
  Clean_bytes ("/"%char :: body)
  = "/"%char :: join_sep (rev (foldl (clean_step true) [] (split_sep body []))).
Proof. reflexivity. Qed.

Lemma Clean_bytes_unrooted c body :
  is_sep c = false ->
  Clean_bytes (c :: body)
  = render false (foldl (clean_step false) [] (split_sep (c :: body) [])).
Proof. intros H. unfold Clean_bytes, render. cbv zeta. by rewrite H. Qed.

(** Cleaning a cleaned path with one more name. *)
Lemma Clean_push rooted stack n :
  tidy rooted stack -> plain_element n ->
  Clean_bytes (render rooted stack ++ "/"%char :: n) = render rooted (n :: stack).
Proof.
  intros Ht Hn. pose proof Hn as (_ & Hns & _).
  unfold render at 1. destruct rooted.
  - change (("/"%char :: join_sep (rev stack)) ++ "/"%char :: n)
      with ("/"%char :: (join_sep (rev stack) ++ "/"%char :: n)).
    rewrite Clean_bytes_rooted, split_sep_app, foldl_app, fold_body by done.
    rewrite (split_sep_no_sep n) by done. simpl foldl.
    by rewrite clean_step_plain.
  - destruct stack as [|e below].
    + change (Clean_bytes ("."%char :: "/"%char :: n) = render false [n]).
      rewrite Clean_bytes_unrooted by done.
      change ("."%char :: "/"%char :: n) with (dot ++ "/"%char :: n).
      rewrite split_sep_app, (split_sep_no_sep n) by done. simpl.
      by rewrite clean_step_plain.
    + destruct (tidy_bottom false (e :: below) Ht) as (c & t & E & Hc); [done|].
      rewrite E. change ((c :: t) ++ "/"%char :: n) with (c :: (t ++ "/"%char :: n)).
      rewrite Clean_bytes_unrooted by done.
      change (c :: (t ++ "/"%char :: n)) with ((c :: t) ++ "/"%char :: n).
      rewrite <- E, split_sep_app, foldl_app, fold_body by done.
      rewrite (split_sep_no_sep n) by done. simpl foldl.
      by rewrite clean_step_plain.
Qed.

(** Cleaning a stem gives the path it is the stem of. *)
Lemma Clean_stem rooted stack :
  tidy rooted stack -> Clean_bytes (stem_of rooted stack) = render rooted stack.
Proof.
  intros Ht. unfold stem_of. destruct stack as [|e below].
  - by destruct rooted.
  - unfold render at 1. destruct rooted.
    + change (("/"%char :: join_sep (rev (e :: below))) ++ ["/"%char])
        with ("/"%char :: (join_sep (rev (e :: below)) ++ "/"%char :: [])).
      rewrite Clean_bytes_rooted, split_sep_app, foldl_app, fold_body by done.
      done.
    + destruct (tidy_bottom false (e :: below) Ht) as (c & t & E & Hc); [done|].
      rewrite E. change ((c :: t) ++ ["/"%char]) with (c :: (t ++ "/"%char :: [])).
      rewrite Clean_bytes_unrooted by done.
      change (c :: (t ++ "/"%char :: [])) with ((c :: t) ++ "/"%char :: []).
      rewrite <- E, split_sep_app, foldl_app, fold_body by done.
      reflexivity.
Qed.

Lemma last_sep_app a b pos best :
  last_sep (a ++ b) pos best = last_sep b (pos + length a) (last_sep a pos best).
Proof.
  revert pos best. induction a as [|x a IH]; intros pos best; simpl.
  - by rewrite Nat.add_0_r.
  - rewrite IH. f_equal. lia.
Qed.

Lemma last_sep_no_sep n pos best : no_sep n -> last_sep n pos best = best.
Proof.
  intros H. revert pos. induction H as [|x n Hx Hn IH]; intros pos; simpl; [done|].
  by rewrite Hx, IH.
Qed.

Lemma last_sep_stem rooted stack n :
  no_sep n -> last_sep (stem_of rooted stack ++ n) 0 0 = length (stem_of rooted stack).
Proof.
  intros Hn. rewrite last_sep_app, last_sep_no_sep by done.
  unfold stem_of. destruct stack as [|e below].
  - by destruct rooted.
  - rewrite last_sep_app. simpl. rewrite length_app. simpl. lia.
Qed.

Lemma Dir_render rooted stack n :
  tidy rooted stack -> n <> [] -> no_sep n ->
  Dir_bytes (render rooted (n :: stack)) = render rooted stack.
Proof.
  intros Ht Hne Hn. unfold Dir_bytes. rewrite render_push by done.
  rewrite last_sep_stem by done. rewrite take_app_length. by apply Clean_stem.
Qed.

Lemma strip_trailing_none n pre :
  n <> [] -> no_sep n -> strip_trailing_sep (rev (pre ++ n)) = rev (pre ++ n).
Proof.
  intros Hne Hn. rewrite rev_app_distr.
  destruct (rev n) as [|x r] eqn:E.
  { apply (f_equal (@rev _)) in E. rewrite rev_involutive in E. done. }
  assert (is_sep x = false) as Hx.
  { apply Forall_rev in Hn. rewrite E in Hn. by apply Forall_cons in Hn as [? _]. }
  simpl. by rewrite Hx.
Qed.

Lemma Base_render rooted stack n :
  tidy rooted stack -> n <> [] -> no_sep n ->
  Base_bytes (render rooted (n :: stack)) = n.
Proof.
  intros Ht Hne Hn. rewrite render_push by done. unfold Base_bytes.
  destruct (stem_of rooted stack ++ n) as [|c t] eqn:E.
  { apply app_eq_nil in E as [_ E]. done. }
  rewrite <- E. rewrite strip_trailing_none by done. rewrite rev_involutive.
  rewrite last_sep_stem by done. rewrite drop_app_length. by destruct n.
Qed.

(** ** Where the targets are *)

Lemma digit_not_sep c : isDigit c = true -> is_sep c = false.
Proof. unfold is_sep. by_bits c. Qed.

Lemma all_digits_no_sep d : all_digits d -> no_sep d.
Proof. intros H. eapply Forall_impl; [exact H|]. exact digit_not_sep. Qed.

Lemma pretty_positive_digits p : all_digits (unstr (pretty (N.pos p))).
Proof.
  destruct (pretty_N_go_digits (N.pos p) "") as (d & Hd & Hall & _).
  simpl in Hd. rewrite app_nil_r in Hd.
  change (pretty (N.pos p)) with (pretty_N_go (N.pos p) ""). by rewrite Hd.
Qed.

Lemma fmt_02d_no_sep n : no_sep (unstr (fmt_02d n)).
Proof.
  destruct n as [|p|p].
  - by repeat constructor.
  - apply all_digits_no_sep. apply fmt_02d_digits. lia.
  - change (unstr (fmt_02d (Z.neg p)))
      with ("-"%char :: unstr (pretty (N.pos p))).
    constructor; [done|]. apply all_digits_no_sep, pretty_positive_digits.
Qed.

Lemma validateAnimeName_no_sep animeName :
  validateAnimeName animeName = None -> no_sep (unstr animeName).
Proof.
  unfold validateAnimeName. destruct (blank animeName); [done|].
  destruct (ContainsAny_bytes _ _) eqn:E; [done|]. intros _.
  unfold ContainsAny_bytes in E. apply Forall_forall. intros c Hc.
  destruct (is_sep c) eqn:Es; [|done].
  assert (existsb (fun c => existsb (Ascii.eqb c) invalid_name_bytes) (unstr animeName)
          = true) as E'; [|congruence].
  apply existsb_exists. exists c. split; [by apply list_elem_of_In|].
  unfold is_sep in Es. apply Ascii.eqb_eq in Es as ->. reflexivity.
Qed.

Lemma newName_plain animeName f :
  no_sep (unstr animeName) -> no_sep (unstr (Extension f)) ->
  plain_element (unstr (newName animeName f)).
Proof.
  intros Ha He. rewrite newName_bytes.
  assert (Hlen : (4 <= length ((unstr animeName ++ [" "; "-"; " "]%char)
                     ++ "S"%char :: unstr (fmt_02d (Season f))
                     ++ "E"%char :: unstr (fmt_02d (Episode f))
                     ++ unstr (Extension f)))%nat).
  { rewrite !length_app. simpl. lia. }
  split; [|split; [|split]].
  - intros E. rewrite E in Hlen. simpl in Hlen. lia.
  - apply Forall_app. split; [apply Forall_app; split; [done|by repeat constructor]|].
    constructor; [done|]. apply Forall_app. split; [apply fmt_02d_no_sep|].
    constructor; [done|]. apply Forall_app. split; [apply fmt_02d_no_sep|done].
  - intros E. rewrite E in Hlen. simpl in Hlen. lia.
  - intros E. rewrite E in Hlen. simpl in Hlen. lia.
Qed.

Lemma render_nonempty rooted stack : render rooted stack <> [].
Proof.
  unfold render. destruct rooted; [done|]. by destruct (join_sep (rev stack)).
Qed.

Lemma Join_bytes_two d n : d <> [] -> Join_bytes [d; n] = Clean_bytes (d ++ "/"%char :: n).
Proof. intros H. by destruct d. Qed.

(** The target built for a path: the directory of the path with one more
    name. *)
Lemma target_render path n :
  plain_element n ->
  exists rooted stack,
    tidy rooted stack
    /\ Dir_bytes path = render rooted stack
    /\ Join_bytes [Dir_bytes path; n] = render rooted (n :: stack).
Proof.
  intros Hn. destruct (Clean_bytes_render (take (last_sep path 0 0) path))
    as (rooted & stack & Ht & E).
  exists rooted, stack. split; [done|]. split; [exact E|].
  unfold Dir_bytes. rewrite E, Join_bytes_two by apply render_nonempty.
  by apply Clean_push.
Qed.

Lemma target_in_place animeName f :
  validateAnimeName animeName = None -> no_sep (unstr (Extension f)) ->
  filepath_Dir (planned_target animeName f) = filepath_Dir (Path f)
  /\ filepath_Base (planned_target animeName f) = newName animeName f.
Proof.
  intros Hv He. apply validateAnimeName_no_sep in Hv.
  pose proof (newName_plain animeName f Hv He) as Hn.
  destruct (target_render (unstr (Path f)) _ Hn) as (rooted & stack & Ht & Hd & Hj).
  pose proof Hn as (Hne & Hns & _).
  fold (newName animeName f) in *.
  assert (planned_target animeName f
          = str (render rooted (unstr (newName animeName f) :: stack))) as ->.
  { unfold planned_target, filepath_Join, filepath_Dir. simpl map.
    rewrite str_unstr. fold (newName animeName f). by rewrite Hj. }
  unfold filepath_Dir, filepath_Base. rewrite !str_unstr.
  rewrite Dir_render, Base_render by done. rewrite Hd, unstr_str. done.
Qed.

(** X19.  With an anime name that [validateAnimeName] accepts and extensions
    without separator, every operation keeps the file in its directory:
    the directory of the target is the directory of the source, and the
    base name of the target is the name written for the file. *)
Theorem targets_in_place pairs animeName :
  validateAnimeName animeName = None ->
  Forall (fun p => no_sep (unstr (Extension (Video p)))
                   /\ no_sep (unstr (Extension (Subtitle p)))) pairs ->
  Forall2 (fun operation f =>
             OldPath operation = Path f
             /\ filepath_Dir (NewPath operation) = filepath_Dir (Path f)
             /\ filepath_Base (NewPath operation) = newName animeName f)
    (buildRenameOperations pairs animeName)
    (flat_map (fun p => [Video p; Subtitle p]) pairs).
Proof.
  intros Hv Hall. unfold buildRenameOperations. rewrite build_from_spec. simpl.
  induction Hall as [|p rest [H1 H2] Hrest IH]; simpl; [constructor|].
  destruct (target_in_place animeName (Video p) Hv H1) as [Hd1 Hb1].
  destruct (target_in_place animeName (Subtitle p) Hv H2) as [Hd2 Hb2].
  constructor; [done|]. constructor; [done|]. exact IH.
Qed.

(** ** Running the program again *)

Lemma plain_extension_no_sep ext : plain_extension ext -> no_sep (unstr ext).
Proof.
  unfold plain_extension. destruct (unstr ext) as [|c e]; [done|].
  destruct c as [[] [] [] [] [] [] [] []]; try done.
  intros H. constructor; [done|]. eapply Forall_impl; [exact H|].
  simpl. by intros x [? _].
Qed.

(** A cleaned path with a plain base name ends with that name. *)
Lemma clean_path_base path n :
  Clean_bytes path = path -> Base_bytes path = n -> plain_element n ->
  exists rooted stack, tidy rooted stack /\ path = render rooted (n :: stack).
Proof.
  intros Hc Hb Hn. destruct (Clean_bytes_render path) as (rooted & stack & Ht & E).
  rewrite Hc in E. exists rooted. destruct stack as [|e below].
  - exfalso. destruct Hn as (_ & Hns & Hdot & _). subst path.
    destruct rooted; simpl in Hb; subst n; [|done].
    by apply Forall_cons in Hns as [? _].
  - exists below. destruct Ht as [Hbelow He]. split; [done|].
    assert (e <> [] /\ no_sep e) as [He1 He2].
    { destruct He as [(? & ? & _)|(-> & _)]; [done|].
      split; [done|]. by repeat constructor. }
    rewrite E, Base_render in Hb by done. by subst e.
Qed.

(** X20.  Running the program again changes nothing: a file found at a
    cleaned path whose base name is a name the program writes (anime name
    accepted and without digit, season and episode at least 1, a lower-case
    extension of a dot and bytes other than dots and separators) is given
    its own path as target, so its operation is a no-op. *)
Theorem renamed_file_is_noop ToLower animeName entry f f0 :
  validateAnimeName animeName = None ->
  no_digits (unstr animeName) ->
  (1 <= Season f0 <= max_int)%Z -> (1 <= Episode f0 <= max_int)%Z ->
  plain_extension (Extension f0) ->
  ToLower (Extension f0) = Extension f0 ->
  filepath_Clean (walk_path entry) = walk_path entry ->
  filepath_Base (walk_path entry) = newName animeName f0 ->
  file_of ToLower entry f ->
  filepath_Join [filepath_Dir (Path f); newName animeName f] = Path f.
Proof.
  intros Hv Hnd Hs He Hext Hlow Hclean Hbase (Hpath & Hfext & Hx).
  pose proof (validateAnimeName_no_sep _ Hv) as Hns.
  pose proof (newName_plain animeName f0 Hns (plain_extension_no_sep _ Hext)) as Hn.
  set (b := unstr (walk_path entry)).
  assert (Hc : Clean_bytes b = b).
  { unfold filepath_Clean in Hclean. apply (f_equal unstr) in Hclean.
    by rewrite str_unstr in Hclean. }
  assert (Hb : Base_bytes b = unstr (newName animeName f0)).
  { unfold filepath_Base in Hbase. apply (f_equal unstr) in Hbase.
    by rewrite str_unstr in Hbase. }
  destruct (clean_path_base b _ Hc Hb Hn) as (rooted & stack & Ht & Eb).
  pose proof Hn as (Hne & Hnsep & _).
  (* the extension *)
  assert (Hfext' : Extension f = Extension f0).
  { rewrite Hfext, <- Hlow. f_equal. unfold filepath_Ext. fold b.
    rewrite Eb, render_push, newName_bytes by done.
    unfold plain_extension in Hext.
    destruct (unstr (Extension f0)) as [|dot e] eqn:Ee; [done|].
    destruct dot as [[] [] [] [] [] [] [] []]; try done.
    set (st := stem_of rooted stack).
    set (P := unstr animeName ++ [" "; "-"; " "]%char).
    set (d1 := unstr (fmt_02d (Season f0))).
    set (d2 := unstr (fmt_02d (Episode f0))).
    replace (st ++ P ++ "S"%char :: d1 ++ "E"%char :: d2 ++ "."%char :: e)
      with ((st ++ P ++ "S"%char :: d1 ++ "E"%char :: d2) ++ "."%char :: e)
      by (rewrite <- !app_assoc; simpl; by rewrite <- !app_assoc).
    rewrite Ext_bytes_dotted by done. rewrite <- Ee. apply unstr_str. }
  (* season and episode *)
  rewrite Hbase, (read_back animeName f0) in Hx by done.
  injection Hx as Hsea Hepi.
  assert (Hname : newName animeName f = newName animeName f0).
  { unfold newName. by rewrite Hsea, Hepi, Hfext'. }
  (* the target *)
  rewrite Hname, Hpath.
  unfold filepath_Join, filepath_Dir. simpl map. rewrite str_unstr. fold b.
  rewrite Eb at 1. rewrite Dir_render by done.
  rewrite Join_bytes_two by apply render_nonempty.
  rewrite Clean_push by done. rewrite <- Eb. apply unstr_str.
Qed.


(** ** A failure in the first phase *)

Lemma invoke_outcome renameFn oldPath newPath w :
  well_behaved renameFn ->
  match invoke renameFn oldPath newPath w with
  | (None, w') =>
      is_Some (fs w !! oldPath) /\ fs w' = (os_Rename oldPath newPath (fs w)).2
  | (Some _, w') => fs w' = fs w
  end.
Proof.
  intros Hwb. unfold invoke.
  destruct (Hwb oldPath newPath (fs w)) as [E|[e E]]; rewrite E; [|done].
  unfold os_Rename. destruct (fs w !! oldPath) eqn:Ho; simpl; [|done].
  split; [eauto|done].
Qed.

Lemma rename_all_app moves1 moves2 (fs : gmap string string) :
  rename_all (moves1 ++ moves2) fs = rename_all moves2 (rename_all moves1 fs).
Proof. unfold rename_all. apply foldl_app. Qed.

Lemma succeeded_app moves1 moves2 (fs : gmap string string) :
  succeeded (moves1 ++ moves2) fs
  <-> succeeded moves1 fs /\ succeeded moves2 (rename_all moves1 fs).
Proof.
  revert fs. induction moves1 as [|m rest IH]; intros fs; simpl; [tauto|].
  rewrite IH. unfold rename_all. simpl. tauto.
Qed.

(** Moves with pairwise distinct paths that succeed had their sources at
    the start. *)
Lemma succeeded_sources moves (fs : gmap string string) :
  NoDup (moves.*1 ++ moves.*2) -> succeeded moves fs ->
  Forall (fun m => is_Some (fs !! m.1)) moves.
Proof.
  revert fs. induction moves as [|[o n] rest IH]; intros fs Hnd Hs; [constructor|].
  destruct Hs as [Ho Hs]. simpl in *. constructor; [done|].
  apply NoDup_cons in Hnd as [Hno Hnd].
  assert (Hnd' : NoDup (rest.*1 ++ rest.*2)).
  { apply NoDup_app in Hnd as (H1 & H2 & H3). apply NoDup_cons in H3 as [_ H3].
    apply NoDup_app. split; [done|]. split; [|done].
    intros x Hx Hx'. apply (H2 x Hx). by right. }
  specialize (IH _ Hnd' Hs). apply Forall_forall. intros m Hm.
  rewrite Forall_forall in IH. specialize (IH m Hm).
  assert (m.1 ∈ rest.*1) as Hin by (by apply list_elem_of_fmap_2).
  rewrite os_Rename_frame in IH; [done| |].
  - intros E. apply Hno. rewrite <- E. apply elem_of_app. by left.
  - intros E. apply NoDup_app in Hnd as (_ & H2 & _). apply (H2 _ Hin).
    rewrite E. by left.
Qed.

(** The renames of a rollback that reports nothing. *)
Lemma rollback_from_trace renameFn states :
  well_behaved renameFn ->
  forall w w',
    rollback_from states renameFn [] w = ([], w') ->
    succeeded (back_moves states) (fs w)
    /\ fs w' = rename_all (back_moves states) (fs w).
Proof.
  intros Hwb. induction states as [|st rest IH]; intros w w'; simpl.
  - by intros [= <-].
  - unfold back_moves. simpl.
    destruct (String.eqb (CurrentPath st) (OldPath (operation_of st))); simpl;
      [apply IH|].
    destruct (os_Stat (fs w) (CurrentPath st));
      try (intros H; by apply rollback_from_nil in H).
    pose proof (invoke_outcome renameFn (CurrentPath st) (OldPath (operation_of st)) w
                  Hwb) as Hi.
    destruct (invoke renameFn _ _ w) as [[e|] w1];
      [intros H; by apply rollback_from_nil in H|].
    destruct Hi as [Hsome Hfs]. intros H. apply IH in H as [Hs ->].
    rewrite Hfs in *. split; [by split|]. done.
Qed.

(** How a phase ends. *)
Lemma run_phase_trace phase dest renameFn todo :
  well_behaved renameFn ->
  forall done w,
    match run_phase phase dest done todo renameFn w with
    | (inl states', w') =>
        states' = done ++ map (move_to dest) todo
        /\ succeeded (moves_of dest todo) (fs w)
        /\ fs w' = rename_all (moves_of dest todo) (fs w)
    | (inr res, w') =>
        exists pre st post e w1,
          todo = pre ++ st :: post
          /\ succeeded (moves_of dest pre) (fs w)
          /\ fs w1 = rename_all (moves_of dest pre) (fs w)
          /\ fail_and_rollback
               (RenameExecutionError phase (CurrentPath st) (dest st) e)
               (done ++ map (move_to dest) pre ++ st :: post) renameFn w1
             = (res, w')
    end.
Proof.
  intros Hwb. induction todo as [|st rest IH]; intros done w.
  - simpl. by rewrite app_nil_r.
  - cbn [run_phase].
    pose proof (invoke_outcome renameFn (CurrentPath st) (dest st) w Hwb) as Hi.
    destruct (invoke renameFn (CurrentPath st) (dest st) w) as [[e|] w1].
    + destruct (fail_and_rollback _ _ _ _) as [res w2] eqn:Hf.
      exists [], st, rest, e, w1. simpl. by rewrite Hi.
    + destruct Hi as [Hsome Hfs].
      specialize (IH (done ++ [set_CurrentPath st (dest st)]) w1).
      destruct (run_phase phase dest _ rest renameFn w1) as [[states'|res] w2].
      * destruct IH as (-> & Hs & ->). rewrite Hfs in *.
        split; [by rewrite <- app_assoc|]. split; [by split|done].
      * destruct IH as (pre & st' & post & e & w3 & -> & Hs & Hw3 & Hf).
        exists (st :: pre), st', post, e, w3. rewrite Hfs in *.
        split; [done|]. split; [by split|]. split; [done|].
        rewrite <- app_assoc in Hf. exact Hf.
Qed.

Lemma back_moves_app a b : back_moves (a ++ b) = back_moves a ++ back_moves b.
Proof. unfold back_moves. by rewrite List.filter_app, map_app. Qed.

Lemma back_moves_rev l : back_moves (rev l) = rev (back_moves l).
Proof.
  induction l as [|st l IH]; [done|].
  simpl rev. rewrite back_moves_app, IH.
  change (st :: l) with ([st] ++ l). rewrite back_moves_app, rev_app_distr.
  f_equal. unfold back_moves. simpl. by destruct (String.eqb _ _).
Qed.

Lemma back_moves_at_source l :
  Forall (fun st => CurrentPath st = OldPath (operation_of st)) l ->
  back_moves l = [].
Proof.
  unfold back_moves. induction 1 as [|st l Hst Hl IH]; [done|].
  simpl. rewrite Hst, String.eqb_refl. exact IH.
Qed.

Lemma back_moves_moved l :
  Forall (fun st => TempPath st <> OldPath (operation_of st)) l ->
  back_moves (map (move_to TempPath) l)
  = map (fun st => (TempPath st, OldPath (operation_of st))) l.
Proof.
  unfold back_moves. induction 1 as [|st l Hst Hl IH]; [done|].
  simpl. apply String.eqb_neq in Hst. rewrite Hst. simpl. by rewrite IH.
Qed.

(** X21.  A failure in the first phase is always undone, swaps included:
    when the source and temporary paths of the states are pairwise distinct
    and the rename function either renames or fails without effect, a live
    run that returns the execution error of phase one alone leaves the file
    system exactly as it was. *)
Theorem phase_one_failure_restores pid operations renameFn w states from to e w' :
  well_behaved renameFn ->
  fst (plan_states pid operations 0 [] w) = inl states ->
  NoDup (sources states ++ temps states) ->
  executeRenameOperationsWith pid operations false renameFn w
  = (Some (RenameExecutionError "phase-one" from to e), w') ->
  fs w' = fs w.
Proof.
  intros Hwb Hplan Hnd Hrun.
  pose proof (plan_states_frame pid operations 0 [] w) as [Hfs _].
  pose proof (plan_states_at_source pid operations 0 [] w states Hplan
                (Forall_nil_2 _)) as Hat.
  pose proof (plan_states_temp_free pid operations 0 [] w states Hplan
                (Forall_nil_2 _)) as Hfree.
  destruct (plan_states pid operations 0 [] w) as [r w1] eqn:Hp.
  simpl in Hplan, Hfs. subst r.
  destruct (decide (states = [])) as [->|Hne].
  { unfold executeRenameOperationsWith in Hrun. rewrite Hp in Hrun. discriminate. }
  rewrite (execute_live_unfold pid operations renameFn w states w1 Hp Hne) in Hrun.
  pose proof (run_phase_trace "phase-one" TempPath renameFn states Hwb [] w1) as H1.
  destruct (run_phase "phase-one" TempPath [] states renameFn w1) as [[states1|res] w2].
  { pose proof (run_phase_trace "phase-two" (fun st => NewPath (operation_of st))
                  renameFn states1 Hwb [] w2) as H2.
    destruct (run_phase "phase-two" _ [] states1 renameFn w2) as [[states2|res] w3];
      [discriminate|].
    destruct H2 as (pre & st & post & e2 & w4 & _ & _ & _ & Hf).
    unfold fail_and_rollback in Hf.
    destruct (rollbackRenameStates _ renameFn w4) as [[rb|] w5];
      injection Hf as <- <-; discriminate. }
  destruct H1 as (pre & st & post & e1 & w3 & -> & Hs1 & Hw3 & Hf).
  injection Hrun as -> ->. unfold fail_and_rollback in Hf.
  destruct (rollbackRenameStates _ renameFn w3) as [[rb|] w4] eqn:Hrb;
    [discriminate|]. injection Hf as _ _ _ <-.
  unfold rollbackRenameStates in Hrb.
  destruct (rollback_from _ renameFn [] w3) as [[|x errs] w5] eqn:Hroll;
    [|discriminate]. injection Hrb as <-.
  apply (rollback_from_trace renameFn _ Hwb) in Hroll as [Hs2 Hw5].
  (* the moves forth and back *)
  apply Forall_app in Hat as [Hat_pre Hat_post].
  assert (Hsub : (sources pre ++ temps pre)
                 `sublist_of` (sources (pre ++ st :: post) ++ temps (pre ++ st :: post))).
  { unfold sources, temps. rewrite !map_app.
    apply sublist_app; by apply sublist_inserts_r. }
  pose proof (sublist_NoDup _ _ Hnd Hsub) as Hnd_pre.
  assert (Hdiff : Forall (fun s => TempPath s <> OldPath (operation_of s)) pre).
  { apply Forall_forall. intros s Hin E.
    apply NoDup_app in Hnd_pre as (_ & Hx & _).
    apply (Hx (OldPath (operation_of s))).
    - unfold sources. by apply (list_elem_of_fmap_2 (fun s => OldPath (operation_of s))).
    - rewrite <- E. unfold temps. by apply (list_elem_of_fmap_2 TempPath). }
  rewrite app_nil_l, rev_app_distr, back_moves_app, !back_moves_rev in Hs2, Hw5.
  rewrite (back_moves_at_source (st :: post) Hat_post) in Hs2, Hw5.
  rewrite (back_moves_moved pre Hdiff) in Hs2, Hw5. simpl in Hs2, Hw5.
  set (M1 := moves_of TempPath pre) in *.
  set (M2 := rev (map (fun s => (TempPath s, OldPath (operation_of s))) pre)) in *.
  assert (HM1a : M1.*1 = sources pre).
  { unfold M1. by rewrite moves_of_fst, map_CurrentPath_at_source. }
  assert (HM1b : M1.*2 = temps pre) by apply moves_of_snd.
  assert (HM2a : M2.*1 = rev (temps pre)).
  { change (M2.*1) with (map fst M2). unfold M2, temps.
    by rewrite map_rev, map_map. }
  assert (HM2b : M2.*2 = rev (sources pre)).
  { change (M2.*2) with (map snd M2). unfold M2, sources.
    by rewrite map_rev, map_map. }
  assert (Hnd1 : NoDup (M1.*1 ++ M1.*2)) by (by rewrite HM1a, HM1b).
  assert (Hnd2 : NoDup (M2.*1 ++ M2.*2)).
  { rewrite HM2a, HM2b.
    assert (rev (temps pre) ++ rev (sources pre) ≡ₚ sources pre ++ temps pre) as ->;
      [|done].
    rewrite <- !Permutation_rev. apply Permutation_app_comm. }
  destruct (rename_all_lookup M1 (fs w1) Hnd1 (succeeded_sources _ _ Hnd1 Hs1))
    as (H1a & H1b & H1c).
  rewrite <- Hw3 in H1a, H1b, H1c.
  destruct (rename_all_lookup M2 (fs w3) Hnd2 (succeeded_sources _ _ Hnd2 Hs2))
    as (H2a & H2b & H2c).
  rewrite <- Hw5 in H2a, H2b, H2c.
  rewrite <- Hfs. apply map_eq. intros p.
  destruct (decide (p ∈ sources pre)) as [Hp1|Hp1].
  - apply list_elem_of_fmap in Hp1 as (s & -> & Hin).
    assert (HinM2 : (TempPath s, OldPath (operation_of s)) ∈ M2).
    { unfold M2. rewrite list_elem_of_In, <- in_rev, <- list_elem_of_In.
      by apply (list_elem_of_fmap_2 (fun s => (TempPath s, OldPath (operation_of s)))). }
    assert (HinM1 : (CurrentPath s, TempPath s) ∈ M1).
    { unfold M1, moves_of.
      by apply (list_elem_of_fmap_2 (fun s => (CurrentPath s, TempPath s))). }
    pose proof (H2a _ HinM2) as Hx. pose proof (H1a _ HinM1) as Hy.
    simpl in Hx, Hy. rewrite Forall_forall in Hat_pre.
    rewrite (Hat_pre s Hin) in Hy. by rewrite Hx, Hy.
  - destruct (decide (p ∈ temps pre)) as [Hp2|Hp2].
    + apply list_elem_of_fmap in Hp2 as (s & -> & Hin).
      assert (HinM2 : (TempPath s, OldPath (operation_of s)) ∈ M2).
      { unfold M2. rewrite list_elem_of_In, <- in_rev, <- list_elem_of_In.
        by apply (list_elem_of_fmap_2
                    (fun s => (TempPath s, OldPath (operation_of s)))). }
      pose proof (H2b _ HinM2) as Hx. simpl in Hx. rewrite Hx, Hfs.
      symmetry. rewrite Forall_forall in Hfree. apply Hfree.
      apply elem_of_app. by left.
    + rewrite H2c, H1c; [done|by rewrite HM1a|by rewrite HM1b| |].
      * by rewrite HM2a, list_elem_of_In, <- in_rev, <- list_elem_of_In.
      * by rewrite HM2b, list_elem_of_In, <- in_rev, <- list_elem_of_In.
Qed.

(** ** No two files onto one target *)

Lemma digits_prefix_inj d d' x x' (r r' : bytes) :
  all_digits d -> all_digits d' -> isDigit x = false -> isDigit x' = false ->
  d ++ x :: r = d' ++ x' :: r' -> d = d' /\ x = x' /\ r = r'.
Proof.
  intros Hd. revert d'. induction Hd as [|y d Hy Hd IH]; intros d' Hd' Hx Hx' E.
  - destruct d' as [|y' d']; simpl in E.
    + by injection E as -> ->.
    + injection E as -> _. apply Forall_cons in Hd' as [Hy' _]. congruence.
  - destruct d' as [|y' d']; simpl in E.
    + injection E as -> _. congruence.
    + injection E as -> E. apply Forall_cons in Hd' as [_ Hd'].
      destruct (IH d' Hd' Hx Hx' E) as (-> & -> & ->). done.
Qed.

Lemma plain_extension_dot ext :
  plain_extension ext -> exists e, unstr ext = "."%char :: e.
Proof.
  unfold plain_extension. destruct (unstr ext) as [|c e]; [done|].
  destruct c as [[] [] [] [] [] [] [] []]; try done. eauto.
Qed.

Lemma unstr_inj a b : unstr a = unstr b -> a = b.
Proof. intros E. by rewrite <- (unstr_str a), <- (unstr_str b), E. Qed.

(** The name written tells season, episode and extension. *)
Lemma newName_inj animeName f g :
  listed f -> listed g -> newName animeName f = newName animeName g ->
  Season f = Season g /\ Episode f = Episode g /\ Extension f = Extension g.
Proof.
  intros (Hfs & Hfe & Hfx) (Hgs & Hge & Hgx) E.
  apply (f_equal unstr) in E. rewrite !newName_bytes in E.
  apply app_inv_head in E. injection E as E.
  destruct (fmt_02d_digits (Season f) Hfs) as (Hd1 & _ & Hv1).
  destruct (fmt_02d_digits (Season g) Hgs) as (Hd1' & _ & Hv1').
  destruct (fmt_02d_digits (Episode f) Hfe) as (Hd2 & _ & Hv2).
  destruct (fmt_02d_digits (Episode g) Hge) as (Hd2' & _ & Hv2').
  destruct (digits_prefix_inj _ _ "E"%char "E"%char _ _ Hd1 Hd1' eq_refl eq_refl E)
    as (E1 & _ & E').
  destruct (plain_extension_dot _ Hfx) as (e & He).
  destruct (plain_extension_dot _ Hgx) as (e' & He').
  rewrite He, He' in E'.
  destruct (digits_prefix_inj _ _ "."%char "."%char _ _ Hd2 Hd2' eq_refl eq_refl E')
    as (E2 & _ & E3).
  split; [by rewrite <- Hv1, <- Hv1', E1|].
  split; [by rewrite <- Hv2, <- Hv2', E2|].
  apply unstr_inj. by rewrite He, He', E3.
Qed.

Lemma planned_target_inj animeName f g :
  validateAnimeName animeName = None -> listed f -> listed g ->
  planned_target animeName f = planned_target animeName g ->
  Season f = Season g /\ Episode f = Episode g /\ Extension f = Extension g.
Proof.
  intros Hv Hf Hg E. apply (newName_inj animeName); [done|done|].
  destruct (target_in_place animeName f Hv) as [_ <-].
  { apply plain_extension_no_sep. by destruct Hf as (_ & _ & ?). }
  destruct (target_in_place animeName g Hv) as [_ <-].
  { apply plain_extension_no_sep. by destruct Hg as (_ & _ & ?). }
  by rewrite E.
Qed.

Lemma matchKey_same f g :
  Season f = Season g -> Episode f = Episode g -> matchKey f = matchKey g.
Proof. unfold matchKey. by intros -> ->. Qed.

(** X22.  The program never plans two files onto one target: for files with
    season and episode at least 1 and plain extensions, no video sharing
    its extension with a subtitle, and an anime name that
    [validateAnimeName] accepts, the targets of the operations built from
    the pairs are pairwise distinct. *)
Theorem planned_targets_distinct range_map videoFiles subtitleFiles animeName :
  validateAnimeName animeName = None ->
  Forall listed videoFiles -> Forall listed subtitleFiles ->
  (forall video subtitle, video ∈ videoFiles -> subtitle ∈ subtitleFiles ->
     Extension video <> Extension subtitle) ->
  NoDup (map NewPath
           (buildRenameOperations
              (createFilePairs range_map videoFiles subtitleFiles).1 animeName)).
Proof.
  intros Hv Hvid Hsub Hext. unfold createFilePairs.
  destruct (pair_videos videoFiles [] [] (index_subtitles subtitleFiles))
    as [[P U] m'] eqn:Hrun. simpl.
  destruct (pair_videos_spec _ _ _ _ _ Hrun) as (Hall & _).
  destruct (pair_videos_complete _ _ _ _ _ Hrun) as (Hkeys & _).
  assert (Hpairs : Forall (fun p => Video p ∈ videoFiles /\ Subtitle p ∈ subtitleFiles
                                    /\ matchKey (Subtitle p) = matchKey (Video p)) P).
  { eapply Forall_impl; [exact Hall|]. simpl. intros p (Hin & Hsome & _).
    rewrite index_subtitles_lookup in Hsome.
    apply last_with_key_Some in Hsome as [Hkey Hs]. done. }
  clear Hall Hrun. unfold buildRenameOperations. rewrite build_from_spec. simpl.
  rewrite Forall_forall in Hvid, Hsub.
  induction Hpairs as [|p rest (Hpv & Hps & Hpk) Hrest IH]; [constructor|].
  simpl in Hkeys. apply NoDup_cons in Hkeys as [Hk Hkeys]. specialize (IH Hkeys).
  cbn [flat_map app map NewPath].
  fold (planned_target animeName (Video p)).
  fold (planned_target animeName (Subtitle p)).
  assert (Hother : forall q f, q ∈ rest -> f = Video q \/ f = Subtitle q ->
            listed f /\ matchKey f <> matchKey (Video p)
            /\ (f ∈ videoFiles \/ f ∈ subtitleFiles)).
  { intros q f Hq Hf. rewrite Forall_forall in Hrest.
    destruct (Hrest q Hq) as (Hqv & Hqs & Hqk).
    assert (matchKey (Video q) <> matchKey (Video p)) as Hne.
    { intros E. apply Hk. rewrite <- E.
      by apply (list_elem_of_fmap_2 (fun p => matchKey (Video p))). }
    destruct Hf as [-> | ->].
    - split; [by apply Hvid|]. split; [done|by left].
    - split; [by apply Hsub|]. split; [by rewrite Hqk|by right]. }
  assert (Hrest_in : forall t,
            t ∈ map NewPath
                  (flat_map (fun p =>
                     [ {| OldPath := Path (Video p);
                          NewPath := filepath_Join [filepath_Dir (Path (Video p));
                                                    newName animeName (Video p)] |};
                       {| OldPath := Path (Subtitle p);
                          NewPath := filepath_Join [filepath_Dir (Path (Subtitle p));
                                                    newName animeName (Subtitle p)] |} ])
                     rest) ->
            exists q f, q ∈ rest /\ (f = Video q \/ f = Subtitle q)
                        /\ t = planned_target animeName f).
  { intros t Ht. apply list_elem_of_fmap in Ht as (op & -> & Hop).
    apply list_elem_of_In, in_flat_map in Hop as (q & Hq & Hop).
    apply list_elem_of_In in Hq. exists q.
    destruct Hop as [<-|[<-|[]]]; [exists (Video q)|exists (Subtitle q)];
      (split; [done|]); (split; [tauto|done]). }
  apply NoDup_cons. split; [|apply NoDup_cons; split; [|exact IH]].
  - intros Hin. apply elem_of_cons in Hin as [E|Hin].
    + destruct (planned_target_inj animeName _ _ Hv (Hvid _ Hpv) (Hsub _ Hps) E)
        as (_ & _ & Ee). by apply (Hext _ _ Hpv Hps).
    + destruct (Hrest_in _ Hin) as (q & f & Hq & Hf & E).
      destruct (Hother q f Hq Hf) as (Hl & Hne & _).
      destruct (planned_target_inj animeName _ _ Hv (Hvid _ Hpv) Hl E)
        as (Es & Ee & _). apply Hne. symmetry. by apply matchKey_same.
  - intros Hin. destruct (Hrest_in _ Hin) as (q & f & Hq & Hf & E).
    destruct (Hother q f Hq Hf) as (Hl & Hne & _).
    destruct (planned_target_inj animeName _ _ Hv (Hsub _ Hps) Hl E)
      as (Es & Ee & _). apply Hne. rewrite <- Hpk. symmetry. by apply matchKey_same.
Qed.

(** ** Temporary paths *)

Lemma pretty_nonneg_digits (n : Z) :
  (0 <= n)%Z ->
  all_digits (unstr (pretty n)) /\ digits_value (unstr (pretty n)) = n.
Proof.
  intros Hn. destruct n as [|p|p]; [split; [by repeat constructor|reflexivity]| |lia].
  destruct (pretty_N_go_digits (N.pos p) "") as (d & Hd & Hall & Hval & _).
  simpl in Hd. rewrite app_nil_r in Hd.
  change (pretty (Z.pos p)) with (pretty_N_go (N.pos p) ""). rewrite Hd.
  split; [done|]. unfold digits_value. rewrite Hval. simpl. lia.
Qed.

Lemma pretty_Z_no_sep (n : Z) : no_sep (unstr (pretty n)).
Proof.
  destruct n as [|p|p].
  - by repeat constructor.
  - apply all_digits_no_sep. apply pretty_nonneg_digits. lia.
  - change (unstr (pretty (Z.neg p))) with ("-"%char :: unstr (pretty (N.pos p))).
    constructor; [done|]. apply all_digits_no_sep, pretty_positive_digits.
Qed.

Lemma tempName_bytes pid index attempt base :
  unstr (tempName pid index attempt base)
  = unstr ".anime-renamer-tmp-" ++ unstr (fmt_d pid)
    ++ "-"%char :: unstr (fmt_d (wrap64 (wrap64 (index * 1000) + attempt)))
    ++ "-"%char :: unstr base.
Proof. unfold tempName. rewrite !unstr_app. reflexivity. Qed.

Lemma tempName_plain pid index attempt base :
  no_sep (unstr base) -> plain_element (unstr (tempName pid index attempt base)).
Proof.
  intros Hb. rewrite tempName_bytes.
  set (t := unstr (fmt_d pid) ++ _).
  assert (Hlen : (19 <= length (unstr ".anime-renamer-tmp-" ++ t))%nat).
  { rewrite length_app. simpl. lia. }
  split; [|split; [|split]].
  - intros E. rewrite E in Hlen. simpl in Hlen. lia.
  - apply Forall_app. split; [by repeat constructor|]. unfold t.
    apply Forall_app. split; [apply pretty_Z_no_sep|]. constructor; [done|].
    apply Forall_app. split; [apply pretty_Z_no_sep|]. by constructor.
  - intros E. rewrite E in Hlen. simpl in Hlen. lia.
  - intros E. rewrite E in Hlen. simpl in Hlen. lia.
Qed.

(** The base name of a candidate is the temporary name. *)
Lemma candidate_Base pid oldPath index attempt :
  plain_base oldPath ->
  filepath_Base (candidate pid oldPath index attempt)
  = tempName pid index attempt (filepath_Base oldPath).
Proof.
  intros (_ & Hb & _).
  pose proof (tempName_plain pid index attempt (filepath_Base oldPath) Hb) as Hn.
  destruct (target_render (unstr oldPath) _ Hn) as (rooted & stack & Ht & Hd & Hj).
  pose proof Hn as (Hne & Hns & _).
  unfold candidate, filepath_Join, filepath_Dir, filepath_Base at 1. cbn [map].
  rewrite !str_unstr, Hj, Base_render by done. apply unstr_str.
Qed.

Lemma temp_number_id index attempt :
  (0 <= index)%Z -> (0 <= attempt < 1000)%Z -> ((index + 1) * 1000 <= max_int)%Z ->
  wrap64 (wrap64 (index * 1000) + attempt) = (index * 1000 + attempt)%Z.
Proof.
  intros Hi Ha Hm. rewrite wrap64_add_l. apply wrap64_id.
  unfold min_int, max_int in *. lia.
Qed.

(** Candidates of different positions differ. *)
Lemma candidate_inj pid o o' i i' a a' :
  plain_base o -> plain_base o' ->
  (0 <= i)%Z -> (0 <= i')%Z -> (0 <= a < 1000)%Z -> (0 <= a' < 1000)%Z ->
  ((i + 1) * 1000 <= max_int)%Z -> ((i' + 1) * 1000 <= max_int)%Z ->
  candidate pid o i a = candidate pid o' i' a' -> i = i'.
Proof.
  intros Ho Ho' Hi Hi' Ha Ha' Hm Hm' E.
  apply (f_equal filepath_Base) in E. rewrite !candidate_Base in E by done.
  apply (f_equal unstr) in E. rewrite !tempName_bytes in E.
  rewrite !temp_number_id in E by done.
  apply app_inv_head, app_inv_head in E. injection E as E.
  destruct (pretty_nonneg_digits (i * 1000 + a)) as [Hd Hv]; [lia|].
  destruct (pretty_nonneg_digits (i' * 1000 + a')) as [Hd' Hv']; [lia|].
  destruct (digits_prefix_inj _ _ "-"%char "-"%char _ _ Hd Hd' eq_refl eq_refl E)
    as (E1 & _ & _).
  unfold fmt_d in E1. rewrite E1 in Hv. rewrite Hv in Hv'. lia.
Qed.

Lemma temp_below_mono pid bound bound' state :
  (bound <= bound')%Z -> temp_below pid bound state -> temp_below pid bound' state.
Proof.
  intros H (i & a & Hi & Ha & E & Hp). exists i, a. split; [lia|]. by split.
Qed.

Lemma plan_states_temps pid operations :
  Forall (fun operation => plain_base (OldPath operation)) operations ->
  forall index states w states',
    (0 <= index)%Z ->
    ((index + Z.of_nat (length operations) + 1) * 1000 <= max_int)%Z ->
    fst (plan_states pid operations index states w) = inl states' ->
    NoDup (temps states) -> Forall (temp_below pid index) states ->
    NoDup (temps states')
    /\ Forall (temp_below pid (index + Z.of_nat (length operations))) states'.
Proof.
  induction 1 as [|operation rest Hop Hrest IH];
    intros index states w states' Hi Hmax Hplan Hnd Hall.
  - simpl in Hplan. injection Hplan as <-. split; [done|].
    eapply Forall_impl; [exact Hall|]. intros st. apply temp_below_mono. simpl. lia.
  - simpl in Hplan. cbn [length] in *.
    destruct (String.eqb (OldPath operation) (NewPath operation)).
    + destruct (IH (index + 1)%Z states _ states' ltac:(lia) ltac:(lia) Hplan Hnd)
        as [H1 H2].
      * eapply Forall_impl; [exact Hall|]. intros st. apply temp_below_mono. lia.
      * split; [done|]. eapply Forall_impl; [exact H2|].
        intros st. apply temp_below_mono. lia.
    + unfold buildTempPath in Hplan.
      pose proof (temp_attempts_first 1000 0 pid (fs w) (OldPath operation) index) as Hb.
      destruct (temp_attempts 1000 0 pid (fs w) (OldPath operation) _ _ index)
        as [t|e]; [|done].
      destruct Hb as (_ & k & Hk & -> & _).
      set (st := {| operation_of := operation;
                    TempPath := candidate pid (OldPath operation) index
                                  (0 + Z.of_nat k);
                    CurrentPath := OldPath operation |}) in *.
      assert (Hst : temp_below pid (index + 1) st).
      { exists index, (0 + Z.of_nat k)%Z. split; [lia|]. split; [lia|]. by split. }
      destruct (IH (index + 1)%Z (states ++ [st]) w states' ltac:(lia) ltac:(lia) Hplan)
        as [H1 H2].
      * unfold temps. rewrite map_app. apply NoDup_app. split; [done|].
        split; [|apply NoDup_singleton].
        intros p Hp Hp'. apply list_elem_of_singleton in Hp'. subst p.
        apply list_elem_of_fmap in Hp as (st' & E & Hin).
        rewrite Forall_forall in Hall.
        destruct (Hall st' Hin) as (i' & a' & Hi' & Ha' & E' & Hp').
        simpl in E. rewrite E' in E.
        apply candidate_inj in E; try done; try lia.
      * apply Forall_app. split; [|by repeat constructor].
        eapply Forall_impl; [exact Hall|]. intros st0. apply temp_below_mono. lia.
      * split; [done|]. eapply Forall_impl; [exact H2|].
        intros st0. apply temp_below_mono. lia.
Qed.

Lemma tempName_head pid index attempt base :
  head (unstr (tempName pid index attempt base)) = Some "."%char.
Proof. by rewrite tempName_bytes. Qed.

(** X23.  The temporary paths of a live run are pairwise distinct, and none
    is a target, when every source has a plain base name, no target has a
    base name that begins with a dot, and the positions times 1000 fit an
    [int]. *)
Theorem temps_apart pid operations w states :
  fst (plan_states pid operations 0 [] w) = inl states ->
  Forall (fun operation => plain_base (OldPath operation)) operations ->
  Forall (fun operation =>
            head (unstr (filepath_Base (NewPath operation))) <> Some "."%char)
         operations ->
  ((Z.of_nat (length operations) + 1) * 1000 <= max_int)%Z ->
  NoDup (temps states) /\ forall p, p ∈ temps states -> p ∉ targets states.
Proof.
  intros Hplan Hsrc Htgt Hmax.
  destruct (plan_states_temps pid operations Hsrc 0 [] w states) as [Hnd Hall];
    try done; try lia; [constructor|].
  split; [done|]. intros p Hp Hp'.
  apply list_elem_of_fmap in Hp as (st & -> & Hin).
  apply list_elem_of_fmap in Hp' as (st' & E & Hin').
  rewrite Forall_forall in Hall.
  destruct (Hall st Hin) as (i & a & _ & _ & Et & Hplain).
  assert (operation_of st' ∈ operations) as Hop.
  { apply moving_subset.
    rewrite <- (plan_states_moving pid operations w states Hplan).
    by apply list_elem_of_fmap_2. }
  rewrite Forall_forall in Htgt. apply (Htgt _ Hop).
  rewrite <- E, Et, candidate_Base by done. apply tempName_head.
Qed.

(** ** What a live run prints *)

Lemma plan_states_stdout pid operations :
  forall index states w,
    exists k,
      stdout (plan_states pid operations index states w).2
      = stdout w ++ map noop_line (List.filter is_noop (take k operations))
      /\ (forall states', (plan_states pid operations index states w).1 = inl states' ->
            take k operations = operations).
Proof.
  induction operations as [|operation rest IH]; intros index states w.
  - exists 0%nat. simpl. by rewrite app_nil_r.
  - cbn [plan_states].
    destruct (String.eqb (OldPath operation) (NewPath operation)) eqn:E.
    + destruct (IH (index + 1)%Z states (print ("No change: " +:+ OldPath operation) w))
        as (k & Hk & Hall).
      exists (S k). cbn [firstn List.filter]. unfold is_noop at 1. rewrite E, Hk. simpl.
      split; [by rewrite <- app_assoc|]. intros states' H. by rewrite (Hall states' H).
    + destruct (buildTempPath pid (fs w) (OldPath operation) index) as [t|e].
      * destruct (IH (index + 1)%Z
                    (states ++ [ {| operation_of := operation; TempPath := t;
                                    CurrentPath := OldPath operation |} ]) w)
          as (k & Hk & Hall).
        exists (S k). cbn [firstn List.filter]. unfold is_noop at 1. rewrite E, Hk.
        split; [done|]. intros states' H. by rewrite (Hall states' H).
      * exists 0%nat. simpl. split; [by rewrite app_nil_r|done].
Qed.

Lemma invoke_stdout renameFn oldPath newPath w :
  stdout (invoke renameFn oldPath newPath w).2 = stdout w.
Proof. unfold invoke. by destruct (renameFn oldPath newPath (fs w)). Qed.

Lemma rollback_from_stdout renameFn states errs w :
  stdout (rollback_from states renameFn errs w).2 = stdout w.
Proof.
  revert errs w. induction states as [|st rest IH]; intros errs w; simpl; [done|].
  destruct (String.eqb _ _); [apply IH|].
  destruct (os_Stat (fs w) (CurrentPath st)); try apply IH.
  pose proof (invoke_stdout renameFn (CurrentPath st) (OldPath (operation_of st)) w) as Hi.
  destruct (invoke renameFn _ _ w) as [[e|] w1]; rewrite IH; exact Hi.
Qed.

Lemma fail_and_rollback_stdout ex states renameFn w :
  stdout (fail_and_rollback ex states renameFn w).2 = stdout w
  /\ (fail_and_rollback ex states renameFn w).1 <> None.
Proof.
  unfold fail_and_rollback, rollbackRenameStates.
  pose proof (rollback_from_stdout renameFn (rev states) [] w) as H.
  destruct (rollback_from (rev states) renameFn [] w) as [[|e errs] w1]; by simpl in *.
Qed.

Lemma run_phase_stdout phase dest renameFn todo :
  forall done w,
    stdout (run_phase phase dest done todo renameFn w).2 = stdout w
    /\ match (run_phase phase dest done todo renameFn w).1 with
       | inl states' => map operation_of states' = map operation_of (done ++ todo)
       | inr res => res <> None
       end.
Proof.
  induction todo as [|st rest IH]; intros done w.
  - simpl. by rewrite app_nil_r.
  - cbn [run_phase].
    pose proof (invoke_stdout renameFn (CurrentPath st) (dest st) w) as Hi.
    destruct (invoke renameFn (CurrentPath st) (dest st) w) as [[e|] w1].
    + pose proof (fail_and_rollback_stdout
                    (RenameExecutionError phase (CurrentPath st) (dest st) e)
                    (done ++ st :: rest) renameFn w1) as [Hf Hne].
      destruct (fail_and_rollback _ _ _ _) as [res w2]. simpl in *.
      split; [by rewrite Hf|done].
    + destruct (IH (done ++ [set_CurrentPath st (dest st)]) w1) as [Hs Hr].
      split; [by rewrite Hs|].
      destruct (run_phase phase dest _ rest renameFn w1).1; [|done].
      rewrite Hr, <- app_assoc, !map_app. done.
Qed.

Lemma report_renamed_stdout states w :
  stdout (report_renamed states w)
  = stdout w ++ map renamed_line (map operation_of states).
Proof.
  revert w. induction states as [|st rest IH]; intros w; simpl.
  - by rewrite app_nil_r.
  - rewrite IH. simpl. by rewrite <- app_assoc.
Qed.

(** X24.  What a live run prints, whatever the rename function does: a line
    for each no-op operation it has passed, in order, and then, only when
    it returns nil, either [No files need renaming.] or one [Renamed:]
    line for each of the other operations, in order.  A run that fails
    reports no rename. *)
Theorem live_run_report pid operations renameFn w :
  let '(err, w') := executeRenameOperationsWith pid operations false renameFn w in
  match err with
  | None =>
      stdout w'
      = stdout w ++ map noop_line (List.filter is_noop operations)
        ++ match moving operations with
           | [] => ["No files need renaming."]
           | moved => map renamed_line moved
           end
  | Some _ =>
      exists k,
        stdout w'
        = stdout w ++ map noop_line (List.filter is_noop (take k operations))
  end.
Proof.
  unfold executeRenameOperationsWith.
  destruct (plan_states_stdout pid operations 0 [] w) as (k & Hk & Hall).
  pose proof (plan_states_moving pid operations w) as Hops.
  destruct (plan_states pid operations 0 [] w) as [[states|e] w1];
    simpl in Hk, Hall, Hops; [|eauto].
  specialize (Hall states eq_refl). specialize (Hops states eq_refl).
  rewrite Hall in Hk.
  destruct states as [|st0 states0].
  { simpl in Hops. rewrite <- Hops. simpl. by rewrite Hk, <- app_assoc. }
  remember (st0 :: states0) as states eqn:Est.
  destruct (run_phase_stdout "phase-one" TempPath renameFn states [] w1) as [Hs1 Hr1].
  destruct (run_phase "phase-one" TempPath [] states renameFn w1) as [[states1|res] w2];
    simpl in Hs1, Hr1.
  2:{ destruct res as [err|]; [|done]. exists (length operations).
      by rewrite firstn_all, Hs1. }
  destruct (run_phase_stdout "phase-two" (fun st => NewPath (operation_of st))
              renameFn states1 [] w2) as [Hs2 Hr2].
  destruct (run_phase "phase-two" _ [] states1 renameFn w2) as [[states2|res] w3];
    simpl in Hs2, Hr2.
  2:{ destruct res as [err|]; [|done]. exists (length operations).
      by rewrite firstn_all, Hs2, Hs1. }
  rewrite report_renamed_stdout, Hs2, Hs1, Hk, Hr2, Hr1, <- app_assoc.
  simpl app. rewrite Hops. f_equal. f_equal.
  destruct (moving operations) eqn:Em; [|done].
  rewrite Est in Hops. discriminate Hops.
Qed.


(** ** The theorems at work *)

Ltac by_compute := apply (bool_decide_unpack _); vm_compute; exact I.

Lemma elements_order_ok : set_order_ok elements_order.
Proof. intros X. reflexivity. Qed.

Lemma swap_states_planned :
  fst (plan_states 42 swap_operations 0 [] (world_of swap_files)) = inl swap_states.
Proof. vm_compute. reflexivity. Qed.

Lemma episode_states_planned :
  fst (plan_states 42 episode_operations 0 [] (world_of episode_files))
  = inl episode_states.
Proof. vm_compute. reflexivity. Qed.

Lemma plan_states_spec_witness :
  map operation_of swap_states
  = List.filter (fun o => negb (is_noop o)) swap_operations
  /\ Forall (fun st => CurrentPath st = OldPath (operation_of st)) swap_states
  /\ Forall (fun st => fs (world_of swap_files) !! TempPath st = None) swap_states
  /\ fs (snd (plan_states 42 swap_operations 0 [] (world_of swap_files)))
     = fs (world_of swap_files).
Proof.
  exact (plan_states_spec 42 swap_operations (world_of swap_files) swap_states
           swap_states_planned).
Defined.

Lemma two_phase_moves_witness :
  let '(err, w') :=
    executeRenameOperations 42 swap_operations false (world_of swap_files) in
  err = None
  /\ (forall st, st ∈ swap_states ->
        fs w' !! NewPath (operation_of st)
        = fs (world_of swap_files) !! OldPath (operation_of st))
  /\ (forall p, p ∉ targets swap_states ->
        fs w' !! p = if decide (p ∈ sources swap_states) then None
                     else fs (world_of swap_files) !! p)
  /\ invocations w'
     = invocations (world_of swap_files)
       ++ map (fun st => (OldPath (operation_of st), TempPath st)) swap_states
       ++ map (fun st => (TempPath st, NewPath (operation_of st))) swap_states.
Proof.
  assert (H1 : NoDup (sources swap_states)) by by_compute.
  assert (H2 : NoDup (temps swap_states ++ targets swap_states)) by by_compute.
  assert (H3 : Forall (fun st => is_Some (fs (world_of swap_files)
                                            !! OldPath (operation_of st)))
                 swap_states) by by_compute.
  exact (two_phase_moves 42 swap_operations (world_of swap_files) swap_states
           swap_states_planned H1 H2 H3).
Defined.

Lemma execute_touches_only_batch_witness :
  fs (executeRenameOperationsWith 42 swap_operations false os_Rename
        (world_of (<["/d/c.mkv" := "video C"]> swap_files))).2 !! "/d/c.mkv"
  = Some "video C".
Proof.
  rewrite (execute_touches_only_batch 42 swap_operations false os_Rename
             (world_of (<["/d/c.mkv" := "video C"]> swap_files)) "/d/c.mkv"
             os_Rename_well_behaved).
  - reflexivity.
  - intros states H. vm_compute in H. injection H as <-. by_compute.
Defined.

Lemma live_run_all_or_nothing_witness :
  let '(err, w') :=
    executeRenameOperationsWith 42 episode_operations false
      (fail_on_target "/t/Anime - S01E01.srt") (world_of episode_files) in
  (err = None
   /\ (forall st, st ∈ episode_states ->
         fs w' !! NewPath (operation_of st)
         = fs (world_of episode_files) !! OldPath (operation_of st))
   /\ (forall p, p ∉ targets episode_states ->
         fs w' !! p = if decide (p ∈ sources episode_states) then None
                      else fs (world_of episode_files) !! p))
  \/ (exists phase from to e,
        err = Some (RenameExecutionError phase from to e)
        /\ fs w' = fs (world_of episode_files))
  \/ (exists phase from to e rollbackErr,
        err = Some (joinError [ RenameExecutionError phase from to e;
                                wrapError "rollback failed" rollbackErr ])).
Proof.
  assert (H1 : NoDup (slots episode_states)) by by_compute.
  assert (H2 : Forall (fun st => is_Some (fs (world_of episode_files)
                                            !! OldPath (operation_of st)))
                 episode_states) by by_compute.
  assert (H3 : vacant_targets (fs (world_of episode_files)) episode_states).
  { repeat constructor. }
  exact (live_run_all_or_nothing 42 episode_operations
           (fail_on_target "/t/Anime - S01E01.srt") (world_of episode_files)
           episode_states (fail_on_target_well_behaved _)
           episode_states_planned H1 H2 H3).
Defined.

Lemma preflight_accepts_iff_witness :
  preflightRenameOperations (os_Stat swap_files) elements_order swap_operations = None
  <-> acceptable (os_Stat swap_files) swap_operations.
Proof.
  exact (preflight_accepts_iff (os_Stat swap_files) elements_order swap_operations
           elements_order_ok).
Defined.

Lemma checked_batch_succeeds_witness :
  let '(err, w') :=
    executeRenameOperations 42 episode_operations false (world_of episode_files) in
  err = None
  /\ (forall operation, operation ∈ moving episode_operations ->
        fs w' !! NewPath operation
        = fs (world_of episode_files) !! OldPath operation)
  /\ (forall p, p ∉ map OldPath episode_operations ->
        is_Some (fs (world_of episode_files) !! p) ->
        fs w' !! p = fs (world_of episode_files) !! p).
Proof.
  assert (H1 : preflightRenameOperations (os_Stat (fs (world_of episode_files)))
                 elements_order episode_operations = None)
    by (vm_compute; reflexivity).
  assert (H2 : NoDup (sources episode_states)) by by_compute.
  assert (H3 : NoDup (temps episode_states)) by by_compute.
  assert (H4 : forall p, p ∈ temps episode_states -> p ∉ targets episode_states).
  { intros p Hp. vm_compute in Hp.
    repeat (apply elem_of_cons in Hp as [->|Hp]; [by_compute|]).
    apply elem_of_nil in Hp. destruct Hp. }
  exact (checked_batch_succeeds 42 elements_order episode_operations
           (world_of episode_files) episode_states elements_order_ok H1
           episode_states_planned H2 H3 H4).
Defined.

Lemma noop_path_overwritten_witness :
  let operations := [ {| OldPath := "/d/a.mkv"; NewPath := "/d/b.mkv" |};
                      {| OldPath := "/d/b.mkv"; NewPath := "/d/b.mkv" |} ] in
  preflightRenameOperations (os_Stat (fs (world_of swap_files))) elements_order
    operations = None
  /\ forall w', executeRenameOperations 42 operations false (world_of swap_files)
                = (None, w') ->
       fs w' !! "/d/b.mkv" = fs (world_of swap_files) !! "/d/a.mkv"
       /\ fs w' !! "/d/a.mkv" = None.
Proof.
  assert (H1 : "/d/a.mkv" <> "/d/b.mkv") by discriminate.
  assert (H2 : blank "/d/a.mkv" = false) by reflexivity.
  assert (H3 : blank "/d/b.mkv" = false) by reflexivity.
  assert (H4 : is_Some (fs (world_of swap_files) !! "/d/a.mkv")) by by_compute.
  assert (H5 : is_Some (fs (world_of swap_files) !! "/d/b.mkv")) by by_compute.
  exact (noop_path_overwritten 42 elements_order "/d/a.mkv" "/d/b.mkv"
           (world_of swap_files) elements_order_ok H1 H2 H3 H4 H5).
Defined.

Lemma createFilePairs_complete_witness :
  let '(pairs, unmatched) :=
    createFilePairs map_order [ep01_mkv] [ep01_srt; ep02_srt] in
  NoDup (map (fun p => matchKey (Video p)) pairs)
  /\ (forall video, video ∈ [ep01_mkv] ->
        video ∈ map Video pairs \/ video ∈ unmatched)
  /\ (forall subtitle,
        last_with_key (matchKey subtitle) [ep01_srt; ep02_srt] = Some subtitle ->
        subtitle ∈ map Subtitle pairs \/ subtitle ∈ unmatched).
Proof.
  exact (createFilePairs_complete map_order [ep01_mkv] [ep01_srt; ep02_srt]
           map_order_ok).
Defined.

Lemma pairs_same_episode_witness :
  Forall (fun p =>
            Season (Video p) = Season (Subtitle p)
            /\ Episode (Video p) = Episode (Subtitle p)
            /\ forall animeName, exists stem,
                 newName animeName (Video p) = stem +:+ Extension (Video p)
                 /\ newName animeName (Subtitle p) = stem +:+ Extension (Subtitle p))
         (createFilePairs map_order [ep01_mkv] [ep01_srt; ep02_srt]).1.
Proof.
  assert (H1 : Forall small [ep01_mkv]).
  { repeat constructor; simpl; unfold max_int; lia. }
  assert (H2 : Forall small [ep01_srt; ep02_srt]).
  { repeat constructor; simpl; unfold max_int; lia. }
  exact (pairs_same_episode map_order [ep01_mkv] [ep01_srt; ep02_srt] H1 H2).
Defined.

Lemma key_collision_paired_witness :
  matchKey ep1001_mkv = matchKey s2ep01_srt
  /\ createFilePairs map_order [ep1001_mkv] [s2ep01_srt]
     = ([ {| Video := ep1001_mkv; Subtitle := s2ep01_srt |} ], []).
Proof.
  exact (key_collision_paired map_order ep1001_mkv s2ep01_srt map_order_ok
           eq_refl eq_refl).
Defined.

Lemma extract_no_digit_witness :
  extractSeasonAndEpisode "Show Finale.mkv" = (1, 0)%Z.
Proof. exact (extract_no_digit "Show Finale.mkv" eq_refl). Defined.

Lemma findFiles_files_witness :
  exists files,
    findFiles id id "/d" [".MKV"; ".mp4"] season_folder = inl files
    /\ Forall2 (file_of id) (filter (wanted id [".MKV"; ".mp4"]) season_folder) files
    /\ Forall (fun f => (1 <= Season f <= max_int)%Z
                        /\ (1 <= Episode f <= max_int)%Z
                        /\ Extension f ∈ map id [".MKV"; ".mp4"]) files.
Proof.
  assert (H : Forall (fun entry => walk_err entry = None) season_folder)
    by (repeat constructor).
  exact (findFiles_files id id "/d" [".MKV"; ".mp4"] season_folder H).
Defined.

Lemma findFiles_stops_at_error_witness :
  findFiles id id "/d" [".mkv"] (season_folder ++ unreadable :: season_folder)
  = inr (wrapError ("walking folder " +:+ id "/d")
           (wrapError ("accessing path " +:+ id (walk_path unreadable)) ErrNotExist)).
Proof.
  assert (H : Forall (fun entry => walk_err entry = None) season_folder)
    by (repeat constructor).
  exact (findFiles_stops_at_error id id "/d" [".mkv"] season_folder unreadable
           season_folder ErrNotExist H eq_refl).
Defined.

Lemma canonical_name_read_back_witness :
  extractSeasonAndEpisode (newName "Anime" ep01_mkv)
  = (Season ep01_mkv, Episode ep01_mkv).
Proof.
  assert (H1 : no_digits (unstr "Anime")) by (repeat constructor).
  assert (H2 : (1 <= Season ep01_mkv <= max_int)%Z) by (simpl; unfold max_int; lia).
  assert (H3 : (1 <= Episode ep01_mkv <= max_int)%Z) by (simpl; unfold max_int; lia).
  assert (H4 : plain_extension (Extension ep01_mkv)) by (repeat constructor).
  exact (canonical_name_read_back "Anime" ep01_mkv H1 H2 H3 H4).
Defined.

Lemma targets_in_place_witness :
  Forall2 (fun operation f =>
             OldPath operation = Path f
             /\ filepath_Dir (NewPath operation) = filepath_Dir (Path f)
             /\ filepath_Base (NewPath operation) = newName "Anime" f)
    (buildRenameOperations [ {| Video := ep01_mkv; Subtitle := ep01_srt |} ] "Anime")
    (flat_map (fun p => [Video p; Subtitle p])
       [ {| Video := ep01_mkv; Subtitle := ep01_srt |} ]).
Proof.
  assert (H1 : validateAnimeName "Anime" = None) by reflexivity.
  assert (H2 : Forall (fun p => no_sep (unstr (Extension (Video p)))
                                /\ no_sep (unstr (Extension (Subtitle p))))
                 [ {| Video := ep01_mkv; Subtitle := ep01_srt |} ])
    by (repeat constructor).
  exact (targets_in_place [ {| Video := ep01_mkv; Subtitle := ep01_srt |} ] "Anime"
           H1 H2).
Defined.

Lemma renamed_file_is_noop_witness :
  filepath_Join [filepath_Dir (Path renamed_mkv); newName "Anime" renamed_mkv]
  = Path renamed_mkv.
Proof.
  assert (H1 : validateAnimeName "Anime" = None) by reflexivity.
  assert (H2 : no_digits (unstr "Anime")) by (repeat constructor).
  assert (H3 : (1 <= Season ep01_mkv <= max_int)%Z) by (simpl; unfold max_int; lia).
  assert (H4 : (1 <= Episode ep01_mkv <= max_int)%Z) by (simpl; unfold max_int; lia).
  assert (H5 : plain_extension (Extension ep01_mkv)) by (repeat constructor).
  assert (H6 : id (Extension ep01_mkv) = Extension ep01_mkv) by reflexivity.
  assert (H7 : filepath_Clean (walk_path renamed_entry) = walk_path renamed_entry)
    by reflexivity.
  assert (H8 : filepath_Base (walk_path renamed_entry) = newName "Anime" ep01_mkv)
    by reflexivity.
  assert (H9 : file_of id renamed_entry renamed_mkv) by (repeat split).
  exact (renamed_file_is_noop id "Anime" renamed_entry renamed_mkv ep01_mkv
           H1 H2 H3 H4 H5 H6 H7 H8 H9).
Defined.

Lemma phase_one_failure_restores_witness :
  fs (executeRenameOperationsWith 42 swap_operations false
        (fail_once "/d/b.mkv" "/d/.anime-renamer-tmp-42-1000-b.mkv")
        (world_of swap_files)).2
  = fs (world_of swap_files).
Proof.
  assert (H1 : NoDup (sources swap_states ++ temps swap_states)) by by_compute.
  assert (H2 : executeRenameOperationsWith 42 swap_operations false
                 (fail_once "/d/b.mkv" "/d/.anime-renamer-tmp-42-1000-b.mkv")
                 (world_of swap_files)
               = (Some (RenameExecutionError "phase-one" "/d/b.mkv"
                          "/d/.anime-renamer-tmp-42-1000-b.mkv"
                          (errorString "forced failure")),
                  (executeRenameOperationsWith 42 swap_operations false
                     (fail_once "/d/b.mkv" "/d/.anime-renamer-tmp-42-1000-b.mkv")
                     (world_of swap_files)).2))
    by (vm_compute; reflexivity).
  exact (phase_one_failure_restores 42 swap_operations
           (fail_once "/d/b.mkv" "/d/.anime-renamer-tmp-42-1000-b.mkv")
           (world_of swap_files) swap_states _ _ _ _
           (fail_once_well_behaved _ _) swap_states_planned H1 H2).
Defined.

Lemma planned_targets_distinct_witness :
  NoDup (map NewPath
           (buildRenameOperations
              (createFilePairs map_order [ep01_mkv] [ep01_srt; ep02_srt]).1 "Anime")).
Proof.
  assert (H1 : validateAnimeName "Anime" = None) by reflexivity.
  assert (H2 : Forall listed [ep01_mkv]).
  { repeat constructor; simpl; lia. }
  assert (H3 : Forall listed [ep01_srt; ep02_srt]).
  { repeat constructor; simpl; lia. }
  assert (H4 : forall video subtitle,
            video ∈ [ep01_mkv] -> subtitle ∈ [ep01_srt; ep02_srt] ->
            Extension video <> Extension subtitle).
  { intros video subtitle Hv Hs. apply list_elem_of_singleton in Hv as ->.
    repeat (apply elem_of_cons in Hs as [->|Hs]; [discriminate|]).
    apply elem_of_nil in Hs. destruct Hs. }
  exact (planned_targets_distinct map_order [ep01_mkv] [ep01_srt; ep02_srt] "Anime"
           H1 H2 H3 H4).
Defined.

Lemma temps_apart_witness :
  NoDup (temps swap_states)
  /\ forall p, p ∈ temps swap_states -> p ∉ targets swap_states.
Proof.
  assert (H1 : Forall (fun operation => plain_base (OldPath operation)) swap_operations).
  { repeat constructor; vm_compute; discriminate. }
  assert (H2 : Forall (fun operation =>
                         head (unstr (filepath_Base (NewPath operation)))
                         <> Some "."%char) swap_operations).
  { repeat constructor; vm_compute; discriminate. }
  assert (H3 : ((Z.of_nat (length swap_operations) + 1) * 1000 <= max_int)%Z).
  { vm_compute. discriminate. }
  exact (temps_apart 42 swap_operations (world_of swap_files) swap_states
           swap_states_planned H1 H2 H3).
Defined.
